(** * Conference booking system: a shallow embedding and its properties

    The program is one C++ translation unit, [Motorq-Conference-Booking.cpp].
    It keeps four tables (conferences, users, bookings and per-conference
    waitlists) inside one [ConferenceBookingSystem] object and offers
    registration, booking, cancellation and waitlist confirmation.

    Conventions of the embedding:
    - [std::map<string, T>] is a [gmap string T]; wherever the program
      iterates over a map the model iterates in increasing key order, the
      order of [std::map];
    - [std::queue<string>] is a [list string], front first;
    - [time_t] and [int] are [Z]. The one computation on two values the
      caller supplies, the subtraction in the duration check of the
      [Conference] constructor, is taken modulo 2^64 as the machine does
      it ([wrap_time_t]); the slot counters only move inside
      [0 .. totalSlots], and the clock is taken to be more than an hour
      away from the end of [time_t];
    - an exception is a value of [exn]; a member function that mutates the
      system is a function from the state to a result and the state it
      leaves behind, also when it throws;
    - the wall clock [time(nullptr)] is read once per call and handed to
      the call as [now];
    - the mutexes are not modelled: calls run one after the other;
    - output to [cout] is left out, and so are [generateBookingId] (it
      draws from [rand] and nothing calls it), the default constructor of
      [Booking] and [Timestamp::operator<]. *)

From stdpp Require Import gmap strings list fin_maps sorting pretty.
From Stdlib Require Import ZArith Lia.
Local Open Scope Z_scope.

(** ** Exceptions *)

(** [runtime_error] carries its message; [out_of_range] is what
    [std::map::at] throws for a missing key. *)
Inductive exn : Type :=
| runtime_error (what : string)
| out_of_range.

Global Instance exn_eq_dec : EqDecision exn.
Proof. solve_decision. Defined.

(** ** Timestamps *)

Record Timestamp : Type := mkTimestamp { time : Z }.

Global Instance Timestamp_eq_dec : EqDecision Timestamp.
Proof. solve_decision. Defined.

(** The value of a [time_t] computation: the result modulo 2^64, read as a
    signed 64-bit integer. *)
Definition wrap_time_t (z : Z) : Z := (z + 2 ^ 63) mod 2 ^ 64 - 2 ^ 63.

(** The values a [time_t] holds. *)
Definition is_time_t (z : Z) : Prop := - 2 ^ 63 ≤ z < 2 ^ 63.

(** [std::to_string] on an integer: its decimal numeral. *)
Definition to_string (z : Z) : string := pretty z.

(** ** Iteration over a [std::map] *)

Definition key_le {A : Type} (x y : string * A) : Prop :=
  String.leb x.1 y.1 = true.

Global Instance key_le_dec {A : Type} (x y : string * A) : Decision (key_le x y).
Proof. unfold key_le. apply _. Defined.

(** The entries of a map in the order a range-for visits them. *)
Definition map_items {A : Type} (m : gmap string A) : list (string * A) :=
  merge_sort key_le (map_to_list m).

(** ** Booking status *)

Inductive BookingStatus : Type := CONFIRMED | WAITLISTED | CANCELED.

Global Instance BookingStatus_eq_dec : EqDecision BookingStatus.
Proof. solve_decision. Defined.

(** ** class Conference *)

Module Conference.

Record t : Type := Build {
  name : string;
  location : string;
  topics : list string;
  startTime : Timestamp;
  endTime : Timestamp;
  totalSlots : Z;
  availableSlots : Z
}.

Definition set_availableSlots (n : Z) (c : t) : t :=
  {| name := name c; location := location c; topics := topics c;
     startTime := startTime c; endTime := endTime c;
     totalSlots := totalSlots c; availableSlots := n |}.

(** The constructor, with its four checks in source order. The duration
    is the difference of two [time_t] values as the machine computes it. *)
Definition new (_name _location : string) (_topics : list string)
    (start end_ : Timestamp) (slots : Z) : exn + t :=
  if (10 <? length _topics)%nat then
    inl (runtime_error "Maximum 10 topics allowed")
  else if slots <=? 0 then
    inl (runtime_error "Slots must be greater than 0")
  else if wrap_time_t (time end_ - time start) >? 12 * 3600 then
    inl (runtime_error "Conference duration cannot exceed 12 hours")
  else if time start >=? time end_ then
    inl (runtime_error "Start time must be before end time")
  else
    inr {| name := _name; location := _location; topics := _topics;
           startTime := start; endTime := end_;
           totalSlots := slots; availableSlots := slots |}.

Definition decreaseAvailableSlots (c : t) : bool * t :=
  if availableSlots c >? 0
  then (true, set_availableSlots (availableSlots c - 1) c)
  else (false, c).

Definition increaseAvailableSlots (c : t) : t :=
  if availableSlots c <? totalSlots c
  then set_availableSlots (availableSlots c + 1) c
  else c.

Definition hasStarted (now : Z) (c : t) : bool :=
  now >=? time (startTime c).

Definition hasSlotAvailable (c : t) : bool :=
  availableSlots c >? 0.

Definition isTimeOverlapping (c : t) (start end_ : Timestamp) : bool :=
  negb ((time end_ <=? time (startTime c)) || (time start >=? time (endTime c))).

End Conference.

(** ** class User *)

Module User.

Record t : Type := Build {
  userId : string;
  interestedTopics : list string;
  bookingStatuses : gmap string BookingStatus
}.

Definition set_bookingStatuses (m : gmap string BookingStatus) (u : t) : t :=
  {| userId := userId u; interestedTopics := interestedTopics u;
     bookingStatuses := m |}.

Definition new (id : string) (topics : list string) : exn + t :=
  if (50 <? length topics)%nat then
    inl (runtime_error "Maximum 50 interested topics allowed")
  else
    inr {| userId := id; interestedTopics := topics; bookingStatuses := ∅ |}.

Definition addBooking (bookingId : string) (status : BookingStatus) (u : t) : t :=
  set_bookingStatuses (<[bookingId := status]> (bookingStatuses u)) u.

Definition updateBookingStatus (bookingId : string) (status : BookingStatus)
    (u : t) : t :=
  match bookingStatuses u !! bookingId with
  | Some _ => set_bookingStatuses (<[bookingId := status]> (bookingStatuses u)) u
  | None => u
  end.

Definition removeBooking (bookingId : string) (u : t) : t :=
  match bookingStatuses u !! bookingId with
  | Some _ => set_bookingStatuses (delete bookingId (bookingStatuses u)) u
  | None => u
  end.

Definition getActiveBookings (u : t) : list string :=
  (filter (λ p, p.2 ≠ CANCELED) (map_items (bookingStatuses u))).*1.

End User.

(** ** class Booking *)

Module Booking.

Record t : Type := Build {
  bookingId : string;
  userId : string;
  conferenceName : string;
  status : BookingStatus;
  confirmationDeadline : Timestamp
}.

Definition setStatus (newStatus : BookingStatus) (b : t) : t :=
  {| bookingId := bookingId b; userId := userId b;
     conferenceName := conferenceName b; status := newStatus;
     confirmationDeadline := confirmationDeadline b |}.

Definition setConfirmationDeadline (deadline : Timestamp) (b : t) : t :=
  {| bookingId := bookingId b; userId := userId b;
     conferenceName := conferenceName b; status := status b;
     confirmationDeadline := deadline |}.

(** [Booking(userId, confName)]. The constructor assigns every member
    except [confirmationDeadline], which keeps whatever the storage held:
    [indet] stands for that value. The id is the user id, the conference
    name and the clock in seconds, joined by underscores. *)
Definition new (now : Z) (indet : Timestamp) (_userId confName : string) : t :=
  {| bookingId := _userId +:+ "_" +:+ confName +:+ "_" +:+ to_string now;
     userId := _userId;
     conferenceName := confName;
     status := CONFIRMED;
     confirmationDeadline := indet |}.

End Booking.

(** ** class ConferenceBookingSystem *)

Module ConferenceBookingSystem.

Record t : Type := Build {
  conferences : gmap string Conference.t;
  users : gmap string User.t;
  bookings : gmap string Booking.t;
  waitlists : gmap string (list string)
}.

Definition empty : t :=
  {| conferences := ∅; users := ∅; bookings := ∅; waitlists := ∅ |}.

Definition set_conferences (m : gmap string Conference.t) (s : t) : t :=
  {| conferences := m; users := users s; bookings := bookings s;
     waitlists := waitlists s |}.

Definition set_users (m : gmap string User.t) (s : t) : t :=
  {| conferences := conferences s; users := m; bookings := bookings s;
     waitlists := waitlists s |}.

Definition set_bookings (m : gmap string Booking.t) (s : t) : t :=
  {| conferences := conferences s; users := users s; bookings := m;
     waitlists := waitlists s |}.

Definition set_waitlists (m : gmap string (list string)) (s : t) : t :=
  {| conferences := conferences s; users := users s; bookings := bookings s;
     waitlists := m |}.

(** *** The monad of member functions

    A computation takes the system and returns either an exception or a
    value, together with the system as it stands at that point. *)
Definition M (A : Type) : Type := t → (exn + A) * t.

Definition ret {A : Type} (a : A) : M A := λ s, (inr a, s).

Definition throw {A : Type} (e : exn) : M A := λ s, (inl e, s).

Definition bind {A B : Type} (m : M A) (k : A → M B) : M B :=
  λ s, match m s with
       | (inl e, s') => (inl e, s')
       | (inr a, s') => k a s'
       end.

(** A computation that only reads the system. *)
Definition read {A : Type} (f : t → exn + A) : M A := λ s, (f s, s).

Definition modify (f : t → t) : M unit := λ s, (inr tt, f s).

Declare Scope cbs_scope.
Delimit Scope cbs_scope with cbs.
Notation "'let*' x ':=' m 'in' k" := (bind m (λ x, k))
  (at level 10, x name, m at level 100, k at level 200) : cbs_scope.
Notation "m ';;' k" := (bind m (λ _, k))
  (at level 100, k at level 200, right associativity) : cbs_scope.
Local Open Scope cbs_scope.

(** *** Access to the tables *)

(** [conferences.at(name)], [users.at(id)], [bookings.at(id)]. *)
Definition conferences_at (nm : string) (s : t) : exn + Conference.t :=
  match conferences s !! nm with
  | Some c => inr c
  | None => inl out_of_range
  end.

Definition users_at (id : string) (s : t) : exn + User.t :=
  match users s !! id with
  | Some u => inr u
  | None => inl out_of_range
  end.

Definition bookings_at (id : string) (s : t) : exn + Booking.t :=
  match bookings s !! id with
  | Some b => inr b
  | None => inl out_of_range
  end.

(** The queue stored for a conference; none stored reads as empty. *)
Definition waitlist_of (s : t) (confName : string) : list string :=
  default [] (waitlists s !! confName).

(** [waitlists[confName]] as an lvalue: the entry is created, empty, when
    the key is missing. *)
Definition waitlists_ref (confName : string) : M (list string) :=
  λ s, (inr (waitlist_of s confName),
        set_waitlists (<[confName := waitlist_of s confName]> (waitlists s)) s).

(** Assignment through that reference, and [pop]/[push] on it. *)
Definition waitlists_assign (confName : string) (q : list string) : M unit :=
  modify (λ s, set_waitlists (<[confName := q]> (waitlists s)) s).

(** [bookings.at(id).setStatus(st)] and the same for the deadline. *)
Definition booking_setStatus (id : string) (st : BookingStatus) : M unit :=
  let* b := read (bookings_at id) in
  modify (λ s, set_bookings (<[id := Booking.setStatus st b]> (bookings s)) s).

Definition booking_setConfirmationDeadline (id : string) (d : Timestamp) : M unit :=
  let* b := read (bookings_at id) in
  modify (λ s, set_bookings
                 (<[id := Booking.setConfirmationDeadline d b]> (bookings s)) s).

Definition conference_put (nm : string) (c : Conference.t) : M unit :=
  modify (λ s, set_conferences (<[nm := c]> (conferences s)) s).

(** *** Private helpers *)

Definition validateConferenceExists (nm : string) (s : t) : exn + unit :=
  match conferences s !! nm with
  | None => inl (runtime_error "Conference not found")
  | Some _ => inr tt
  end.

Definition validateUserExists (userId : string) (s : t) : exn + unit :=
  match users s !! userId with
  | None => inl (runtime_error "User not found")
  | Some _ => inr tt
  end.

(** [setWaitlistConfirmationDeadline]: one hour from now. *)
Definition setWaitlistConfirmationDeadline (now : Z) (id : string) : M unit :=
  booking_setConfirmationDeadline id (mkTimestamp (now + 3600)).

(** The loop of [hasConflictingBooking] over the user's active ids. *)
Fixpoint hasConflictingBooking_loop (s : t) (newConference : Conference.t)
    (activeBookings : list string) : exn + bool :=
  match activeBookings with
  | [] => inr false
  | bookingId :: rest =>
    match bookings s !! bookingId with
    | None => inl out_of_range
    | Some booking =>
      match Booking.status booking with
      | CONFIRMED =>
        match conferences s !! Booking.conferenceName booking with
        | None => inl out_of_range
        | Some existingConf =>
          if Conference.isTimeOverlapping existingConf
               (Conference.startTime newConference)
               (Conference.endTime newConference)
          then inr true
          else hasConflictingBooking_loop s newConference rest
        end
      | _ => hasConflictingBooking_loop s newConference rest
      end
    end
  end.

Definition hasConflictingBooking (userId : string)
    (newConference : Conference.t) (s : t) : exn + bool :=
  match users s !! userId with
  | None => inl out_of_range
  | Some user =>
    hasConflictingBooking_loop s newConference (User.getActiveBookings user)
  end.

(** The inner loop of [removeFromOverlappingWaitlists]: [waitlist] is
    what the stored queue still holds, [updatedQueue] the local queue
    being rebuilt. *)
Fixpoint evict_loop (userId confName : string)
    (waitlist updatedQueue : list string) : M (list string) :=
  match waitlist with
  | [] => ret updatedQueue
  | bookingId :: rest =>
    waitlists_assign confName rest ;;
    let* booking := read (bookings_at bookingId) in
    if decide (Booking.userId booking ≠ userId)
    then evict_loop userId confName rest (updatedQueue ++ [bookingId])
    else booking_setStatus bookingId CANCELED ;;
         evict_loop userId confName rest updatedQueue
  end.

Definition evict_from (userId confName : string) : M unit :=
  let* waitlist := waitlists_ref confName in
  let* updatedQueue := evict_loop userId confName waitlist [] in
  waitlists_assign confName updatedQueue.

Fixpoint evict_all (userId : string) (conferencesToUpdate : list string) : M unit :=
  match conferencesToUpdate with
  | [] => ret tt
  | confName :: rest => evict_from userId confName ;; evict_all userId rest
  end.

Definition overlappingConferences (bookedConf : Conference.t) (s : t) : list string :=
  (filter (λ p, p.1 ≠ Conference.name bookedConf
                ∧ Conference.isTimeOverlapping p.2
                    (Conference.startTime bookedConf)
                    (Conference.endTime bookedConf) = true)
          (map_items (conferences s))).*1.

Definition removeFromOverlappingWaitlists (userId : string)
    (bookedConf : Conference.t) : M unit :=
  λ s, evict_all userId (overlappingConferences bookedConf s) s.

Fixpoint cancelAll_loop (confName : string) (waitlist : list string) : M unit :=
  match waitlist with
  | [] => ret tt
  | bookingId :: rest =>
    waitlists_assign confName rest ;;
    booking_setStatus bookingId CANCELED ;;
    cancelAll_loop confName rest
  end.

Definition cancelAllWaitlistedBookings (conferenceName : string) : M unit :=
  let* waitlist := waitlists_ref conferenceName in
  cancelAll_loop conferenceName waitlist.

Definition processWaitlist (now : Z) (conferenceName : string) : M unit :=
  let* waitlist := waitlists_ref conferenceName in
  match waitlist with
  | [] => ret tt
  | nextBookingId :: _ => setWaitlistConfirmationDeadline now nextBookingId
  end.

(** *** Public member functions *)

Definition addConference (nm location : string) (topics : list string)
    (start end_ : Timestamp) (slots : Z) : M unit :=
  λ s, match conferences s !! nm with
       | Some _ => (inl (runtime_error "Conference with this name already exists"), s)
       | None =>
         match Conference.new nm location topics start end_ slots with
         | inl e => (inl e, s)
         | inr c => (inr tt, set_conferences (<[nm := c]> (conferences s)) s)
         end
       end.

Definition addUser (userId : string) (topics : list string) : M unit :=
  λ s, match users s !! userId with
       | Some _ => (inl (runtime_error "User already exists"), s)
       | None =>
         match User.new userId topics with
         | inl e => (inl e, s)
         | inr u => (inr tt, set_users (<[userId := u]> (users s)) s)
         end
       end.

(** The scan of the booking table for a live booking of the same user
    and conference: the first one found, in key order. *)
Definition findActiveBooking (userId conferenceName : string) (s : t)
    : option (string * Booking.t) :=
  find (λ p, bool_decide (Booking.userId p.2 = userId
                          ∧ Booking.conferenceName p.2 = conferenceName
                          ∧ Booking.status p.2 ≠ CANCELED))
       (map_items (bookings s)).

Definition msg_active_booking (id : string) : string :=
  "User already has an active booking for this conference with ID: " +:+ id.

(** [bookings.emplace(id, b)]: nothing happens when the key is taken. *)
Definition bookings_emplace (id : string) (b : Booking.t) : M unit :=
  modify (λ s, match bookings s !! id with
               | Some _ => s
               | None => set_bookings (<[id := b]> (bookings s)) s
               end).

Definition user_addBooking (userId bookingId : string) (st : BookingStatus) : M unit :=
  let* u := read (users_at userId) in
  modify (λ s, set_users (<[userId := User.addBooking bookingId st u]> (users s)) s).

Definition user_removeBooking (userId bookingId : string) : M unit :=
  let* u := read (users_at userId) in
  modify (λ s, set_users (<[userId := User.removeBooking bookingId u]> (users s)) s).

Definition bookConference (now : Z) (indet : Timestamp)
    (userId conferenceName : string) : M string :=
  read (validateUserExists userId) ;;
  read (validateConferenceExists conferenceName) ;;
  let* conference := read (conferences_at conferenceName) in
  if Conference.hasStarted now conference then
    throw (runtime_error "Cannot book conference that has already started")
  else
  let* dup := read (λ s, inr (findActiveBooking userId conferenceName s)) in
  match dup with
  | Some (id, _) => throw (runtime_error (msg_active_booking id))
  | None =>
    let* conflict := read (hasConflictingBooking userId conference) in
    if conflict : bool then
      throw (runtime_error "User has a conflicting booking")
    else
    let newBooking := Booking.new now indet userId conferenceName in
    let bookingId := Booking.bookingId newBooking in
    let (reserved, conference') := Conference.decreaseAvailableSlots conference in
    let* st :=
      (if reserved : bool then
         conference_put conferenceName conference' ;;
         removeFromOverlappingWaitlists userId conference' ;;
         ret CONFIRMED
       else
         let* waitlist := waitlists_ref conferenceName in
         waitlists_assign conferenceName (waitlist ++ [bookingId]) ;;
         ret WAITLISTED) in
    bookings_emplace bookingId (Booking.setStatus st newBooking) ;;
    user_addBooking userId bookingId st ;;
    ret bookingId
  end.

Definition cancelBooking (now : Z) (bookingId : string) : M bool :=
  λ s,
  match bookings s !! bookingId with
  | None => (inl (runtime_error "Booking not found"), s)
  | Some booking =>
    if decide (Booking.status booking = CANCELED) then
      (inl (runtime_error "Booking is already canceled"), s)
    else
    (let* conference := read (conferences_at (Booking.conferenceName booking)) in
     if Conference.hasStarted now conference then
       throw (runtime_error "Cannot cancel booking after conference has started")
     else
     (match Booking.status booking with
      | CONFIRMED =>
        conference_put (Booking.conferenceName booking)
          (Conference.increaseAvailableSlots conference) ;;
        processWaitlist now (Booking.conferenceName booking)
      | WAITLISTED =>
        let* waitlist := waitlists_ref (Booking.conferenceName booking) in
        waitlists_assign (Booking.conferenceName booking)
          (filter (λ currentId, currentId ≠ bookingId) waitlist)
      | CANCELED => ret tt
      end) ;;
     booking_setStatus bookingId CANCELED ;;
     user_removeBooking (Booking.userId booking) bookingId ;;
     ret true) s
  end.

Definition getBookingStatus (bookingId : string) (s : t) : exn + BookingStatus :=
  match bookings s !! bookingId with
  | None => inl (runtime_error "Booking not found")
  | Some booking =>
    match Booking.status booking with
    | WAITLISTED =>
      match conferences s !! Booking.conferenceName booking with
      | None => inl out_of_range
      | Some _ => inr WAITLISTED
      end
    | st => inr st
    end
  end.

Definition confirmWaitlistedBooking (now : Z) (bookingId : string) : M bool :=
  λ s,
  match bookings s !! bookingId with
  | None => (inl (runtime_error "Booking not found"), s)
  | Some booking =>
    if decide (Booking.status booking ≠ WAITLISTED) then
      (inl (runtime_error "Booking is not in waitlisted state"), s)
    else
    let conferenceName := Booking.conferenceName booking in
    (let* conference := read (conferences_at conferenceName) in
     if Conference.hasStarted now conference then
       cancelAllWaitlistedBookings conferenceName ;;
       throw (runtime_error "Cannot confirm booking after conference has started")
     else if now >? time (Booking.confirmationDeadline booking) then
       let* waitlist := waitlists_ref conferenceName in
       let foundCurrent := bool_decide (bookingId ∈ waitlist) in
       waitlists_assign conferenceName
         (filter (λ currentId, currentId ≠ bookingId) waitlist
          ++ (if foundCurrent then [bookingId] else [])) ;;
       (if Conference.hasSlotAvailable conference
        then processWaitlist now conferenceName
        else ret tt) ;;
       ret false
     else
       let* conflict :=
         read (hasConflictingBooking (Booking.userId booking) conference) in
       if conflict : bool then
         throw (runtime_error "User now has a conflicting booking")
       else
       let (reserved, conference') := Conference.decreaseAvailableSlots conference in
       if negb reserved then
         throw (runtime_error "No slots available")
       else
         conference_put conferenceName conference' ;;
         let* waitlist := waitlists_ref conferenceName in
         waitlists_assign conferenceName
           (filter (λ currentId, currentId ≠ bookingId) waitlist) ;;
         booking_setStatus bookingId CONFIRMED ;;
         removeFromOverlappingWaitlists (Booking.userId booking) conference' ;;
         ret true) s
  end.

(** [atomicBookingOperation], the private twin of [bookConference]: it
    goes straight to [conferences.at] without the two validations. No
    public member calls it. *)
Definition atomicBookingOperation (now : Z) (indet : Timestamp)
    (userId conferenceName : string) : M string :=
  let* conference := read (conferences_at conferenceName) in
  if Conference.hasStarted now conference then
    throw (runtime_error "Cannot book conference that has already started")
  else
  let* dup := read (λ s, inr (findActiveBooking userId conferenceName s)) in
  match dup with
  | Some (id, _) => throw (runtime_error (msg_active_booking id))
  | None =>
    let* conflict := read (hasConflictingBooking userId conference) in
    if conflict : bool then
      throw (runtime_error "User has a conflicting booking")
    else
    let newBooking := Booking.new now indet userId conferenceName in
    let bookingId := Booking.bookingId newBooking in
    let (reserved, conference') := Conference.decreaseAvailableSlots conference in
    let* st :=
      (if reserved : bool then
         conference_put conferenceName conference' ;;
         removeFromOverlappingWaitlists userId conference' ;;
         ret CONFIRMED
       else
         let* waitlist := waitlists_ref conferenceName in
         waitlists_assign conferenceName (waitlist ++ [bookingId]) ;;
         ret WAITLISTED) in
    bookings_emplace bookingId (Booking.setStatus st newBooking) ;;
    user_addBooking userId bookingId st ;;
    ret bookingId
  end.

(** *** Calls from the outside

    One call of a public member function, the clock reading it sees and
    the value an uninitialised [confirmationDeadline] would hold. *)
Inductive call : Type :=
| AddConference (nm location : string) (topics : list string)
    (start end_ : Timestamp) (slots : Z)
| AddUser (userId : string) (topics : list string)
| BookConference (userId conferenceName : string)
| CancelBooking (bookingId : string)
| ConfirmWaitlistedBooking (bookingId : string)
| GetBookingStatus (bookingId : string).

Inductive value : Type :=
| VVoid
| VString (s : string)
| VBool (b : bool)
| VStatus (st : BookingStatus).

Record event : Type := Event {
  ev_now : Z;
  ev_indet : Timestamp;
  ev_call : call
}.

Definition fmap_result {A : Type} (f : A → value) (r : (exn + A) * t)
    : (exn + value) * t :=
  (match r.1 with inl e => inl e | inr a => inr (f a) end, r.2).

Definition exec (e : event) (s : t) : (exn + value) * t :=
  match ev_call e with
  | AddConference nm location topics start end_ slots =>
    fmap_result (λ _, VVoid) (addConference nm location topics start end_ slots s)
  | AddUser userId topics =>
    fmap_result (λ _, VVoid) (addUser userId topics s)
  | BookConference userId conferenceName =>
    fmap_result VString (bookConference (ev_now e) (ev_indet e) userId conferenceName s)
  | CancelBooking bookingId =>
    fmap_result VBool (cancelBooking (ev_now e) bookingId s)
  | ConfirmWaitlistedBooking bookingId =>
    fmap_result VBool (confirmWaitlistedBooking (ev_now e) bookingId s)
  | GetBookingStatus bookingId =>
    fmap_result VStatus (read (getBookingStatus bookingId) s)
  end.

(** The system after a sequence of calls, whatever each returned. *)
Definition run (es : list event) (s : t) : t :=
  foldl (λ s e, (exec e s).2) s es.

Inductive reachable : t → Prop :=
| reachable_empty : reachable empty
| reachable_exec e s : reachable s → reachable (exec e s).2.

End ConferenceBookingSystem.

Module CBS := ConferenceBookingSystem.

(** * Vocabulary of the statements and proofs *)

(** ** Relations between a system and a later one *)

(** What a helper loop may do to a booking: keep its identity, and keep
    its status or make it CANCELED. *)
Definition booking_le (b b' : Booking.t) : Prop :=
  Booking.bookingId b' = Booking.bookingId b
  ∧ Booking.userId b' = Booking.userId b
  ∧ Booking.conferenceName b' = Booking.conferenceName b
  ∧ (Booking.status b' = Booking.status b ∨ Booking.status b' = CANCELED).

(** The free-slot counter is between 0 and the total. *)
Definition slots_ok (c : Conference.t) : Prop :=
  0 ≤ Conference.availableSlots c ≤ Conference.totalSlots c.

(** What may happen to a conference: only its free-slot counter moves,
    and stays in range if it was. *)
Definition conference_le (c c' : Conference.t) : Prop :=
  Conference.name c' = Conference.name c
  ∧ Conference.startTime c' = Conference.startTime c
  ∧ Conference.endTime c' = Conference.endTime c
  ∧ Conference.totalSlots c' = Conference.totalSlots c
  ∧ (slots_ok c → slots_ok c').

(** [s'] comes from [s] by steps that leave the ledgers alone, change
    conferences and bookings only as above, and add no id to any queue. *)
Record evolves (s s' : CBS.t) : Prop := Evolves {
  ev_users : CBS.users s' = CBS.users s;
  ev_conferences : ∀ nm,
    option_Forall2 conference_le (CBS.conferences s !! nm) (CBS.conferences s' !! nm);
  ev_bookings : ∀ id,
    option_Forall2 booking_le (CBS.bookings s !! id) (CBS.bookings s' !! id);
  ev_waitlists : ∀ nm x, x ∈ CBS.waitlist_of s' nm → x ∈ CBS.waitlist_of s nm
}.

(** Every queued id has an entry in the booking table. *)
Definition queues_in_table (s : CBS.t) : Prop :=
  ∀ nm x, x ∈ CBS.waitlist_of s nm → is_Some (CBS.bookings s !! x).

(** The overlap test between two conferences. *)
Definition overlap (c1 c2 : Conference.t) : bool :=
  Conference.isTimeOverlapping c1 (Conference.startTime c2) (Conference.endTime c2).

(** ** Invariants *)

(** What every system reached from the empty one satisfies. *)
Record Inv (s : CBS.t) : Prop := MkInv {
  (** a ledger never stores CANCELED, and its ids are in the booking table *)
  inv_ledger : ∀ uid u id st,
    CBS.users s !! uid = Some u → User.bookingStatuses u !! id = Some st →
    st ≠ CANCELED ∧ is_Some (CBS.bookings s !! id);
  (** a booking names a registered conference and a registered user, and
      while it is live its id is in that user's ledger *)
  inv_booking : ∀ id b,
    CBS.bookings s !! id = Some b →
    is_Some (CBS.conferences s !! Booking.conferenceName b)
    ∧ ∃ u, CBS.users s !! Booking.userId b = Some u
           ∧ (Booking.status b ≠ CANCELED → is_Some (User.bookingStatuses u !! id));
  inv_queues : queues_in_table s;
  (** a conference is stored under its own name, its counter in range *)
  inv_conference : ∀ nm c,
    CBS.conferences s !! nm = Some c → Conference.name c = nm ∧ slots_ok c;
  (** two confirmed bookings of one user never overlap in time *)
  inv_no_overlap : ∀ id1 id2 b1 b2 c1 c2,
    id1 ≠ id2 →
    CBS.bookings s !! id1 = Some b1 → CBS.bookings s !! id2 = Some b2 →
    Booking.userId b1 = Booking.userId b2 →
    Booking.status b1 = CONFIRMED → Booking.status b2 = CONFIRMED →
    CBS.conferences s !! Booking.conferenceName b1 = Some c1 →
    CBS.conferences s !! Booking.conferenceName b2 = Some c2 →
    overlap c1 c2 = false
}.

(** The user [uid] holds booking [b] under id [id]: the id is active in
    the user's ledger and the booking table stores [b] for it. *)
Definition holds (s : CBS.t) (uid id : string) (b : Booking.t) : Prop :=
  ∃ u st, CBS.users s !! uid = Some u
          ∧ User.bookingStatuses u !! id = Some st ∧ st ≠ CANCELED
          ∧ CBS.bookings s !! id = Some b.

(** The user holds a CONFIRMED booking whose conference overlaps [c]. *)
Definition holds_confirmed_overlapping (s : CBS.t) (uid : string)
    (c : Conference.t) : Prop :=
  ∃ id b c', holds s uid id b ∧ Booking.status b = CONFIRMED
             ∧ CBS.conferences s !! Booking.conferenceName b = Some c'
             ∧ overlap c' c = true.

(** The last three statements of [bookConference]: store the booking,
    record it in the ledger, return the id. *)
Definition commit_booking (uid id : string) (nb : Booking.t) (s : CBS.t)
    : (exn + string) * CBS.t :=
  let s1 := match CBS.bookings s !! id with
            | Some _ => s
            | None => CBS.set_bookings (<[id := nb]> (CBS.bookings s)) s
            end in
  match CBS.users s1 !! uid with
  | Some u =>
    (inr id,
     CBS.set_users (<[uid := User.addBooking id (Booking.status nb) u]> (CBS.users s1)) s1)
  | None => (inl out_of_range, s1)
  end.

(** The id [bookConference] generates at clock reading [now]. *)
Definition new_id (now : Z) (uid cn : string) : string :=
  Booking.bookingId (Booking.new now (mkTimestamp 0) uid cn).

(** The last statements of [cancelBooking]. *)
Definition commit_cancel (id uid : string) (s : CBS.t) : (exn + bool) * CBS.t :=
  match CBS.bookings s !! id with
  | None => (inl out_of_range, s)
  | Some b =>
    let s1 := CBS.set_bookings (<[id := Booking.setStatus CANCELED b]> (CBS.bookings s)) s in
    match CBS.users s1 !! uid with
    | Some u =>
      (inr true, CBS.set_users (<[uid := User.removeBooking id u]> (CBS.users s1)) s1)
    | None => (inl out_of_range, s1)
    end
  end.

(** The number of CONFIRMED bookings a table holds for a conference. *)
Definition count_confirmed (m : gmap string Booking.t) (cn : string) : nat :=
  length (filter (λ p, Booking.status p.2 = CONFIRMED
                       ∧ Booking.conferenceName p.2 = cn)
                 (map_to_list m)).

(** The same count on the booking table of a system. *)
Definition confirmed_count (s : CBS.t) (cn : string) : nat :=
  count_confirmed (CBS.bookings s) cn.

(** 1 when [P] holds, 0 otherwise. *)
Definition one_if (P : Prop) `{Decision P} : nat := if decide P then 1%nat else 0%nat.

(** Every queued id names a booking of that conference that is not
    CONFIRMED. *)
Definition queue_waiting (s : CBS.t) : Prop :=
  ∀ nm x, x ∈ CBS.waitlist_of s nm →
    ∃ b, CBS.bookings s !! x = Some b
         ∧ Booking.status b ≠ CONFIRMED ∧ Booking.conferenceName b = nm.

(** No CONFIRMED booking loses its status between [s] and [s']. *)
Definition keeps_confirmed (s s' : CBS.t) : Prop :=
  ∀ id b, CBS.bookings s !! id = Some b → Booking.status b = CONFIRMED →
    ∃ b', CBS.bookings s' !! id = Some b' ∧ Booking.status b' = CONFIRMED.

(** The accounting invariant: taken slots are confirmed bookings, and
    queues hold only bookings that wait. *)
Record Acct (s : CBS.t) : Prop := MkAcct {
  acct_count : ∀ nm c,
    CBS.conferences s !! nm = Some c →
    Z.of_nat (confirmed_count s nm)
    = Conference.totalSlots c - Conference.availableSlots c;
  acct_queue : queue_waiting s
}.

(** The slot accounting of claim C1. *)
Definition slot_accounting (s : CBS.t) : Prop :=
  ∀ nm c, CBS.conferences s !! nm = Some c →
    0 ≤ Conference.availableSlots c ≤ Conference.totalSlots c
    ∧ Z.of_nat (confirmed_count s nm)
      = Conference.totalSlots c - Conference.availableSlots c.

(** Every [bookConference] call of the sequence generates an id that is
    not yet a key of the booking table at the moment of the call. *)
Fixpoint fresh_ids (es : list CBS.event) (s : CBS.t) : Prop :=
  match es with
  | [] => True
  | e :: es' =>
    match CBS.ev_call e with
    | CBS.BookConference uid cn => CBS.bookings s !! new_id (CBS.ev_now e) uid cn = None
    | _ => True
    end
    ∧ fresh_ids es' (CBS.exec e s).2
  end.

(** ** Errors *)

(** The message of the one failure that follows a mutation. *)
Definition msg_confirm_started : string :=
  "Cannot confirm booking after conference has started".

(** The two conflict errors of [bookConference]. *)
Definition Conflict {A : Type} (r : exn + A) : Prop :=
  (∃ id, r = inl (runtime_error (CBS.msg_active_booking id)))
  ∨ r = inl (runtime_error "User has a conflicting booking").

(** The booking table has a live booking of this user for this conference. *)
Definition has_active_booking (s : CBS.t) (uid cn : string) : Prop :=
  ∃ id b, CBS.bookings s !! id = Some b
          ∧ Booking.userId b = uid ∧ Booking.conferenceName b = cn
          ∧ Booking.status b ≠ CANCELED.

(** A WAITLISTED booking is in the queue of its conference. *)
Definition waitlisted_queued (s : CBS.t) : Prop :=
  ∀ id b, CBS.bookings s !! id = Some b → Booking.status b = WAITLISTED →
          id ∈ CBS.waitlist_of s (Booking.conferenceName b).

(** The same with the queue of [cn] replaced by the list [l]: the shape of
    the property while a loop is rebuilding that queue. *)
Definition queued_or (s : CBS.t) (cn : string) (l : list string) : Prop :=
  ∀ id b, CBS.bookings s !! id = Some b → Booking.status b = WAITLISTED →
          if decide (Booking.conferenceName b = cn) then id ∈ l
          else id ∈ CBS.waitlist_of s (Booking.conferenceName b).

(** The user has, in the booking table, a CONFIRMED booking of its own
    whose conference overlaps [c]. *)
Definition has_confirmed_overlapping (s : CBS.t) (uid : string)
    (c : Conference.t) : Prop :=
  ∃ id b c', CBS.bookings s !! id = Some b
             ∧ Booking.userId b = uid ∧ Booking.status b = CONFIRMED
             ∧ CBS.conferences s !! Booking.conferenceName b = Some c'
             ∧ overlap c' c = true.

(** Every id in a ledger names a booking of the ledger's own user. *)
Definition ledger_own (s : CBS.t) : Prop :=
  ∀ uid u id st,
    CBS.users s !! uid = Some u → User.bookingStatuses u !! id = Some st →
    ∃ b, CBS.bookings s !! id = Some b ∧ Booking.userId b = uid.

(** ** Executions used as examples *)

(** A call at clock reading [now]; an uninitialised deadline reads 0
    unless stated otherwise. *)
Definition call_at (now : Z) (c : CBS.call) : CBS.event :=
  CBS.Event now (mkTimestamp 0) c.

(** Conference "C" with a single slot, running from 10000 to 20000, and
    the users "A", "B" and "D". *)
Definition one_slot_setup : list CBS.event :=
  [ call_at 0 (CBS.AddConference "C" "NY" ["C++"] (mkTimestamp 10000) (mkTimestamp 20000) 1);
    call_at 0 (CBS.AddUser "A" []);
    call_at 0 (CBS.AddUser "B" []);
    call_at 0 (CBS.AddUser "D" []) ].

(** "A" books the slot and cancels within the same second. *)
Definition book_and_cancel : list CBS.event :=
  one_slot_setup
  ++ [ call_at 100 (CBS.BookConference "A" "C");
       call_at 100 (CBS.CancelBooking "A_C_100") ].

(** ... and books again, still within that second. *)
Definition rebook_same_second : list CBS.event :=
  book_and_cancel ++ [ call_at 100 (CBS.BookConference "A" "C") ].

(** "A" holds the slot and "B" is waitlisted. *)
Definition slot_taken_one_waiting : list CBS.event :=
  one_slot_setup
  ++ [ call_at 100 (CBS.BookConference "A" "C");
       call_at 101 (CBS.BookConference "B" "C") ].

(** ... then "A" cancels, which notifies "B": deadline 102 + 3600. *)
Definition slot_freed_one_waiting : list CBS.event :=
  slot_taken_one_waiting ++ [ call_at 102 (CBS.CancelBooking "A_C_100") ].

(** ... and "B" confirms in time. *)
Definition promoted : list CBS.event :=
  slot_freed_one_waiting ++ [ call_at 103 (CBS.ConfirmWaitlistedBooking "B_C_101") ].

(** "A" holds the slot; "B" and then "D" are waitlisted, the deadline
    field of "D"'s booking happening to hold 5000; then "A" cancels. *)
Definition two_waiting_slot_freed : list CBS.event :=
  one_slot_setup
  ++ [ call_at 100 (CBS.BookConference "A" "C");
       call_at 101 (CBS.BookConference "B" "C");
       CBS.Event 102 (mkTimestamp 5000) (CBS.BookConference "D" "C");
       call_at 103 (CBS.CancelBooking "A_C_100") ].

(** Two overlapping conferences; "A" fills "C1", "B" is waitlisted on
    "C1" and then books "C2", which evicts "B" from the queue of "C1". *)
Definition evicted : list CBS.event :=
  [ call_at 0 (CBS.AddConference "C1" "NY" [] (mkTimestamp 10000) (mkTimestamp 20000) 1);
    call_at 0 (CBS.AddConference "C2" "NY" [] (mkTimestamp 15000) (mkTimestamp 25000) 1);
    call_at 0 (CBS.AddUser "A" []);
    call_at 0 (CBS.AddUser "B" []);
    call_at 100 (CBS.BookConference "A" "C1");
    call_at 101 (CBS.BookConference "B" "C1");
    call_at 102 (CBS.BookConference "B" "C2") ].

(** Two conferences back to back, both booked by "A". *)
Definition back_to_back : list CBS.event :=
  [ call_at 0 (CBS.AddConference "C1" "NY" [] (mkTimestamp 10000) (mkTimestamp 20000) 1);
    call_at 0 (CBS.AddConference "C2" "NY" [] (mkTimestamp 20000) (mkTimestamp 30000) 1);
    call_at 0 (CBS.AddUser "A" []);
    call_at 100 (CBS.BookConference "A" "C1");
    call_at 100 (CBS.BookConference "A" "C2") ].

(** Conferences "c" and "d" overlap, "x_c" comes later; "u_x" books "c"
    and "u" books "x_c" within second 7: both ids read "u_x_c_7". *)
Definition shared_id : list CBS.event :=
  [ call_at 0 (CBS.AddConference "c" "NY" [] (mkTimestamp 10000) (mkTimestamp 20000) 1);
    call_at 0 (CBS.AddConference "x_c" "NY" [] (mkTimestamp 30000) (mkTimestamp 40000) 1);
    call_at 0 (CBS.AddConference "d" "NY" [] (mkTimestamp 15000) (mkTimestamp 25000) 1);
    call_at 0 (CBS.AddUser "u_x" []);
    call_at 0 (CBS.AddUser "u" []);
    call_at 7 (CBS.BookConference "u_x" "c");
    call_at 7 (CBS.BookConference "u" "x_c") ].

(** The same two bookings when both conferences are already full: "A"
    holds the slot of "c" and "B" the slot of "x_c". *)
Definition shared_id_waitlisted : list CBS.event :=
  [ call_at 0 (CBS.AddConference "c" "NY" [] (mkTimestamp 10000) (mkTimestamp 20000) 1);
    call_at 0 (CBS.AddConference "x_c" "NY" [] (mkTimestamp 30000) (mkTimestamp 40000) 1);
    call_at 0 (CBS.AddUser "A" []);
    call_at 0 (CBS.AddUser "B" []);
    call_at 0 (CBS.AddUser "u_x" []);
    call_at 0 (CBS.AddUser "u" []);
    call_at 1 (CBS.BookConference "A" "c");
    call_at 1 (CBS.BookConference "B" "x_c");
    call_at 7 (CBS.BookConference "u_x" "c");
    call_at 7 (CBS.BookConference "u" "x_c") ].

(** The lockstep of claim C4: what a ledger says about an id is what the
    booking table says. *)
Definition ledger_lockstep (s : CBS.t) : Prop :=
  ∀ uid u id st,
    CBS.users s !! uid = Some u → User.bookingStatuses u !! id = Some st →
    ∃ b, CBS.bookings s !! id = Some b ∧ Booking.status b = st.

(** ** Vocabulary of the further properties *)

(** The life of a booking from one system to a later one: its id, user and
    conference stay, and its status stays, becomes CANCELED, or goes from
    WAITLISTED to CONFIRMED. *)
Definition booking_step (b b' : Booking.t) : Prop :=
  Booking.bookingId b' = Booking.bookingId b
  ∧ Booking.userId b' = Booking.userId b
  ∧ Booking.conferenceName b' = Booking.conferenceName b
  ∧ (Booking.status b' = Booking.status b
     ∨ Booking.status b' = CANCELED
     ∨ (Booking.status b = WAITLISTED ∧ Booking.status b' = CONFIRMED)).

(** A conference from one system to a later one: all but the free-slot
    counter stays. *)
Definition conference_step (c c' : Conference.t) : Prop :=
  Conference.name c' = Conference.name c
  ∧ Conference.location c' = Conference.location c
  ∧ Conference.topics c' = Conference.topics c
  ∧ Conference.startTime c' = Conference.startTime c
  ∧ Conference.endTime c' = Conference.endTime c
  ∧ Conference.totalSlots c' = Conference.totalSlots c.

(** A user from one system to a later one: all but the ledger stays. *)
Definition user_step (u u' : User.t) : Prop :=
  User.userId u' = User.userId u
  ∧ User.interestedTopics u' = User.interestedTopics u.

(** Nothing registered is ever dropped: conferences, bookings and users
    stay under their keys and change only as above. *)
Record grows (s s' : CBS.t) : Prop := Grows {
  gr_conferences : ∀ nm c,
    CBS.conferences s !! nm = Some c →
    ∃ c', CBS.conferences s' !! nm = Some c' ∧ conference_step c c';
  gr_bookings : ∀ id b,
    CBS.bookings s !! id = Some b →
    ∃ b', CBS.bookings s' !! id = Some b' ∧ booking_step b b';
  gr_users : ∀ uid u,
    CBS.users s !! uid = Some u →
    ∃ u', CBS.users s' !! uid = Some u' ∧ user_step u u'
}.

(** What the four checks of the [Conference] constructor let through: the
    duration it compares with 12 hours is the machine's difference. *)
Definition passes_checks (topics : list string) (start end_ : Timestamp)
    (slots : Z) : Prop :=
  (length topics ≤ 10)%nat
  ∧ 0 < slots
  ∧ wrap_time_t (time end_ - time start) ≤ 12 * 3600
  ∧ time start < time end_.

(** A stored conference is one the constructor let through. *)
Definition conference_limits (c : Conference.t) : Prop :=
  passes_checks (Conference.topics c) (Conference.startTime c)
    (Conference.endTime c) (Conference.totalSlots c).

(** Every stored conference is within the limits of its constructor, every
    stored user is under its own id and within the limit of 50 topics,
    and every stored booking is under its own id. *)
Record Limits (s : CBS.t) : Prop := MkLimits {
  lim_conferences : ∀ nm c,
    CBS.conferences s !! nm = Some c → conference_limits c;
  lim_users : ∀ uid u,
    CBS.users s !! uid = Some u →
    User.userId u = uid ∧ (length (User.interestedTopics u) ≤ 50)%nat;
  lim_bookings : ∀ id b,
    CBS.bookings s !! id = Some b → Booking.bookingId b = id
}.

(** The booking table records [x] as a booking of user [uid]. *)
Definition booked_by (s : CBS.t) (uid x : string) : Prop :=
  Booking.userId <$> CBS.bookings s !! x = Some uid.

Global Instance booked_by_dec (s : CBS.t) (uid x : string) :
  Decision (booked_by s uid x).
Proof. unfold booked_by. apply _. Defined.

(** The conference stored under [nm] is another one than [c] and overlaps
    it in time: the conferences [removeFromOverlappingWaitlists] visits. *)
Definition overlaps_other (s : CBS.t) (c : Conference.t) (nm : string) : Prop :=
  nm ≠ Conference.name c
  ∧ ∃ c0, CBS.conferences s !! nm = Some c0 ∧ overlap c0 c = true.

(** The id [x] is one that [removeFromOverlappingWaitlists uid c] evicts:
    a booking of [uid] queued on a conference the loop visits. *)
Definition is_evicted (s : CBS.t) (uid : string) (c : Conference.t) (x : string)
    : Prop :=
  booked_by s uid x
  ∧ ∃ nm, overlaps_other s c nm ∧ x ∈ CBS.waitlist_of s nm.

(** A call returned a value or threw a [runtime_error]. *)
Definition value_or_runtime_error {A : Type} (r : exn + A) : Prop :=
  (∃ a, r = inr a) ∨ (∃ what, r = inl (runtime_error what)).

(** * Properties *)

(** ** Map iteration *)

Lemma elem_of_map_items {A : Type} (m : gmap string A) (k : string) (v : A) :
  (k, v) ∈ map_items m ↔ m !! k = Some v.
Proof.
  unfold map_items. rewrite merge_sort_Permutation.
  apply elem_of_map_to_list.
Qed.

Lemma elem_of_getActiveBookings (u : User.t) (id : string) :
  id ∈ User.getActiveBookings u ↔
  ∃ st, User.bookingStatuses u !! id = Some st ∧ st ≠ CANCELED.
Proof.
  unfold User.getActiveBookings. rewrite list_elem_of_fmap. split.
  - intros [[k st] [-> Hin]]. apply list_elem_of_filter in Hin as [Hne Hin].
    apply elem_of_map_items in Hin. exists st. auto.
  - intros [st [Hl Hne]]. exists (id, st). split; [done|].
    apply list_elem_of_filter. split; [done|]. by apply elem_of_map_items.
Qed.

(** ** The overlap test *)

Lemma isTimeOverlapping_spec (c : Conference.t) (start end_ : Timestamp) :
  Conference.isTimeOverlapping c start end_ = true ↔
  ¬ (time end_ ≤ time (Conference.startTime c)
     ∨ time start >= time (Conference.endTime c)).
Proof.
  unfold Conference.isTimeOverlapping.
  rewrite negb_true_iff, orb_false_iff, Z.leb_gt, Z.geb_leb, Z.leb_gt. lia.
Qed.

Lemma isTimeOverlapping_sym (c1 c2 : Conference.t) :
  Conference.isTimeOverlapping c1 (Conference.startTime c2) (Conference.endTime c2)
  = Conference.isTimeOverlapping c2 (Conference.startTime c1) (Conference.endTime c1).
Proof.
  apply eq_true_iff_eq. rewrite !isTimeOverlapping_spec. lia.
Qed.

(** ** What the helper loops may change

    Evicting, bulk cancelling, notifying the head of a queue and moving
    slots all stay inside one relation between the system before and
    after: ledgers are untouched, a conference keeps everything but its
    free-slot counter, a booking keeps its identity and either keeps its
    status or becomes CANCELED, and no queue gains an id. *)

Lemma booking_le_refl (b : Booking.t) : booking_le b b.
Proof. unfold booking_le; auto. Qed.

Lemma booking_le_trans (b1 b2 b3 : Booking.t) :
  booking_le b1 b2 → booking_le b2 b3 → booking_le b1 b3.
Proof.
  unfold booking_le. intros (Ha&Hb&Hc&Hd) (Ha'&Hb'&Hc'&Hd').
  repeat split; try congruence. destruct Hd' as [Hd'|Hd']; [|by right].
  rewrite Hd'. exact Hd.
Qed.

Lemma conference_le_refl (c : Conference.t) : conference_le c c.
Proof. unfold conference_le; auto. Qed.

Lemma conference_le_trans (c1 c2 c3 : Conference.t) :
  conference_le c1 c2 → conference_le c2 c3 → conference_le c1 c3.
Proof.
  unfold conference_le. intros (Ha&Hb&Hc&Hd&He) (Ha'&Hb'&Hc'&Hd'&He').
  split_and!; try congruence; auto.
Qed.

Lemma option_Forall2_refl' {A : Type} (R : A → A → Prop) (o : option A) :
  (∀ x, R x x) → option_Forall2 R o o.
Proof. intros HR. destruct o; constructor; auto. Qed.

Lemma option_Forall2_trans' {A : Type} (R : A → A → Prop) (o1 o2 o3 : option A) :
  (∀ x y z, R x y → R y z → R x z) →
  option_Forall2 R o1 o2 → option_Forall2 R o2 o3 → option_Forall2 R o1 o3.
Proof.
  intros HR H1 H2. destruct H1; inversion H2; subst; constructor; eauto.
Qed.

Lemma evolves_refl (s : CBS.t) : evolves s s.
Proof.
  split; auto.
  - intros nm. apply option_Forall2_refl', conference_le_refl.
  - intros id. apply option_Forall2_refl', booking_le_refl.
Qed.

Lemma evolves_trans (s1 s2 s3 : CBS.t) :
  evolves s1 s2 → evolves s2 s3 → evolves s1 s3.
Proof.
  intros [U1 C1 B1 W1] [U2 C2 B2 W2]. split.
  - congruence.
  - intros nm. eapply option_Forall2_trans'; [apply conference_le_trans|..]; eauto.
  - intros id. eapply option_Forall2_trans'; [apply booking_le_trans|..]; eauto.
  - eauto.
Qed.

Lemma waitlist_of_assign (s : CBS.t) (cn nm : string) (q : list string) :
  CBS.waitlist_of (CBS.set_waitlists (<[cn := q]> (CBS.waitlists s)) s) nm
  = if decide (cn = nm) then q else CBS.waitlist_of s nm.
Proof.
  unfold CBS.waitlist_of. simpl. rewrite lookup_insert.
  destruct (decide (cn = nm)); done.
Qed.

Lemma waitlist_of_touch (s : CBS.t) (cn nm : string) :
  CBS.waitlist_of
    (CBS.set_waitlists (<[cn := CBS.waitlist_of s cn]> (CBS.waitlists s)) s) nm
  = CBS.waitlist_of s nm.
Proof.
  rewrite waitlist_of_assign. destruct (decide (cn = nm)); by subst.
Qed.

Lemma evolves_waitlists (s : CBS.t) (W : gmap string (list string)) :
  (∀ nm x, x ∈ default [] (W !! nm) → x ∈ CBS.waitlist_of s nm) →
  evolves s (CBS.set_waitlists W s).
Proof.
  intros HW. destruct (evolves_refl s) as [U C B _]. split; auto.
Qed.

Lemma evolves_assign (s : CBS.t) (cn : string) (q : list string) :
  (∀ x, x ∈ q → x ∈ CBS.waitlist_of s cn) →
  evolves s (CBS.set_waitlists (<[cn := q]> (CBS.waitlists s)) s).
Proof.
  intros Hq. apply evolves_waitlists. intros nm x.
  rewrite lookup_insert. destruct (decide (cn = nm)); subst; auto.
Qed.

Lemma evolves_touch (s : CBS.t) (cn : string) :
  evolves s (CBS.set_waitlists (<[cn := CBS.waitlist_of s cn]> (CBS.waitlists s)) s).
Proof. apply evolves_assign. auto. Qed.

Lemma evolves_booking (s : CBS.t) (id : string) (b b' : Booking.t) :
  CBS.bookings s !! id = Some b → booking_le b b' →
  evolves s (CBS.set_bookings (<[id := b']> (CBS.bookings s)) s).
Proof.
  intros Hb Hle. destruct (evolves_refl s) as [U C B W]. split; auto.
  intros id'. simpl. rewrite lookup_insert. destruct (decide (id = id')).
  - subst. rewrite Hb. by constructor.
  - apply option_Forall2_refl', booking_le_refl.
Qed.

Lemma evolves_conference (s : CBS.t) (nm : string) (c c' : Conference.t) :
  CBS.conferences s !! nm = Some c → conference_le c c' →
  evolves s (CBS.set_conferences (<[nm := c']> (CBS.conferences s)) s).
Proof.
  intros Hc Hle. destruct (evolves_refl s) as [U C B W]. split; auto.
  intros nm'. simpl. rewrite lookup_insert. destruct (decide (nm = nm')).
  - subst. rewrite Hc. by constructor.
  - apply option_Forall2_refl', conference_le_refl.
Qed.

Lemma booking_le_canceled (b : Booking.t) :
  booking_le b (Booking.setStatus CANCELED b).
Proof. unfold booking_le; simpl; auto. Qed.

Lemma booking_le_deadline (b : Booking.t) (d : Timestamp) :
  booking_le b (Booking.setConfirmationDeadline d b).
Proof. unfold booking_le; simpl; auto. Qed.

Lemma conference_le_decrease (c : Conference.t) :
  conference_le c (Conference.decreaseAvailableSlots c).2.
Proof.
  unfold Conference.decreaseAvailableSlots, conference_le, slots_ok.
  destruct (Z.gtb_spec (Conference.availableSlots c) 0); simpl;
    repeat split; auto; lia.
Qed.

Lemma conference_le_increase (c : Conference.t) :
  conference_le c (Conference.increaseAvailableSlots c).
Proof.
  unfold Conference.increaseAvailableSlots, conference_le, slots_ok.
  destruct (Z.ltb_spec (Conference.availableSlots c) (Conference.totalSlots c));
    simpl; repeat split; auto; lia.
Qed.

(** ** The primitive updates, unfolded *)

Lemma booking_setStatus_unfold (id : string) (st : BookingStatus) (s : CBS.t) :
  CBS.booking_setStatus id st s =
  match CBS.bookings s !! id with
  | Some b =>
    (inr tt, CBS.set_bookings (<[id := Booking.setStatus st b]> (CBS.bookings s)) s)
  | None => (inl out_of_range, s)
  end.
Proof.
  unfold CBS.booking_setStatus, CBS.bind, CBS.read, CBS.bookings_at, CBS.modify.
  by destruct (CBS.bookings s !! id).
Qed.

Lemma booking_setConfirmationDeadline_unfold (id : string) (d : Timestamp) (s : CBS.t) :
  CBS.booking_setConfirmationDeadline id d s =
  match CBS.bookings s !! id with
  | Some b =>
    (inr tt,
     CBS.set_bookings (<[id := Booking.setConfirmationDeadline d b]> (CBS.bookings s)) s)
  | None => (inl out_of_range, s)
  end.
Proof.
  unfold CBS.booking_setConfirmationDeadline, CBS.bind, CBS.read, CBS.bookings_at,
    CBS.modify.
  by destruct (CBS.bookings s !! id).
Qed.

Lemma user_addBooking_unfold (uid id : string) (st : BookingStatus) (s : CBS.t) :
  CBS.user_addBooking uid id st s =
  match CBS.users s !! uid with
  | Some u =>
    (inr tt, CBS.set_users (<[uid := User.addBooking id st u]> (CBS.users s)) s)
  | None => (inl out_of_range, s)
  end.
Proof.
  unfold CBS.user_addBooking, CBS.bind, CBS.read, CBS.users_at, CBS.modify.
  by destruct (CBS.users s !! uid).
Qed.

Lemma user_removeBooking_unfold (uid id : string) (s : CBS.t) :
  CBS.user_removeBooking uid id s =
  match CBS.users s !! uid with
  | Some u =>
    (inr tt, CBS.set_users (<[uid := User.removeBooking id u]> (CBS.users s)) s)
  | None => (inl out_of_range, s)
  end.
Proof.
  unfold CBS.user_removeBooking, CBS.bind, CBS.read, CBS.users_at, CBS.modify.
  by destruct (CBS.users s !! uid).
Qed.

(** ** The eviction loop *)

Lemma evict_loop_spec (uid cn : string) (wl : list string) :
  ∀ (acc : list string) (s : CBS.t) r s',
  (∀ x, x ∈ wl → x ∈ CBS.waitlist_of s cn) →
  CBS.evict_loop uid cn wl acc s = (r, s') →
  evolves s s'
  ∧ CBS.conferences s' = CBS.conferences s
  ∧ (∀ nm, nm ≠ cn → CBS.waitlist_of s' nm = CBS.waitlist_of s nm)
  ∧ match r with
    | inr q => ∀ x, x ∈ q → x ∈ acc ∨ x ∈ wl
    | inl e => e = out_of_range ∧ ¬ (∀ x, x ∈ wl → is_Some (CBS.bookings s !! x))
    end.
Proof.
  induction wl as [|a rest IH]; intros acc s r s' Hsub Hrun; simpl in Hrun.
  - unfold CBS.ret in Hrun. injection Hrun as <- <-.
    split_and!; auto using evolves_refl.
  - unfold CBS.bind at 1, CBS.waitlists_assign, CBS.modify in Hrun.
    set (s1 := CBS.set_waitlists (<[cn := rest]> (CBS.waitlists s)) s) in *.
    assert (E1 : evolves s s1).
    { apply evolves_assign. intros x Hx. apply Hsub. by right. }
    assert (W1 : ∀ nm, nm ≠ cn → CBS.waitlist_of s1 nm = CBS.waitlist_of s nm).
    { intros nm Hne. unfold s1. rewrite waitlist_of_assign.
      destruct (decide (cn = nm)); congruence. }
    assert (R1 : ∀ x, x ∈ rest → x ∈ CBS.waitlist_of s1 cn).
    { intros x Hx. unfold s1. rewrite waitlist_of_assign.
      by destruct (decide (cn = cn)). }
    unfold CBS.bind at 1, CBS.read, CBS.bookings_at in Hrun.
    change (CBS.bookings s1) with (CBS.bookings s) in Hrun.
    destruct (CBS.bookings s !! a) as [b|] eqn:Hb.
    + destruct (decide (Booking.userId b ≠ uid)) as [Hne|Heq].
      * destruct (IH _ _ _ _ R1 Hrun) as (E2 & C2 & W2 & Hr).
        split_and!.
        -- eapply evolves_trans; eauto.
        -- rewrite C2. done.
        -- intros nm Hnm. rewrite W2, W1; auto.
        -- destruct r as [e|q].
           ++ destruct Hr as [-> Hr]. split; [done|]. intros Hall. apply Hr.
              intros x Hx. apply Hall. by right.
           ++ intros x Hx. destruct (Hr x Hx) as [Hacc|Hrest].
              ** apply elem_of_app in Hacc as [?|Hacc]; [by left|].
                 apply list_elem_of_singleton in Hacc. subst. right. by left.
              ** right. by right.
      * unfold CBS.bind at 1 in Hrun. rewrite booking_setStatus_unfold in Hrun.
        change (CBS.bookings s1) with (CBS.bookings s) in Hrun. rewrite Hb in Hrun.
        set (s2 := CBS.set_bookings _ s1) in *.
        assert (E2 : evolves s1 s2).
        { exact (evolves_booking s1 a b _ Hb (booking_le_canceled b)). }
        assert (R2 : ∀ x, x ∈ rest → x ∈ CBS.waitlist_of s2 cn) by exact R1.
        destruct (IH _ _ _ _ R2 Hrun) as (E3 & C3 & W3 & Hr).
        split_and!.
        -- eapply evolves_trans; [exact E1|]. eapply evolves_trans; eauto.
        -- rewrite C3. done.
        -- intros nm Hnm. rewrite W3; auto. by apply W1.
        -- destruct r as [e|q].
           ++ destruct Hr as [-> Hr]. split; [done|]. intros Hall. apply Hr.
              intros x Hx. unfold s2. simpl. rewrite lookup_insert.
              destruct (decide (a = x)); [done|]. apply Hall. by right.
           ++ intros x Hx. destruct (Hr x Hx) as [Hacc|Hrest]; [by left|].
              right. by right.
    + injection Hrun as <- <-. split_and!; auto.
      intros Hall. destruct (Hall a) as [? Hs]; [by left|].
      congruence.
Qed.

Lemma evolves_is_Some_booking (s s' : CBS.t) (id : string) :
  evolves s s' → is_Some (CBS.bookings s !! id) ↔ is_Some (CBS.bookings s' !! id).
Proof.
  intros E. pose proof (ev_bookings _ _ E id) as H.
  inversion H; split; intros [? ?]; eauto; congruence.
Qed.

Lemma evolves_queues_in_table (s s' : CBS.t) :
  evolves s s' → queues_in_table s → queues_in_table s'.
Proof.
  intros E Hq nm x Hx. apply (evolves_is_Some_booking s s' x E).
  eapply Hq, (ev_waitlists _ _ E), Hx.
Qed.

Lemma evict_from_spec (uid cn : string) (s : CBS.t) r s' :
  CBS.evict_from uid cn s = (r, s') →
  evolves s s'
  ∧ CBS.conferences s' = CBS.conferences s
  ∧ (∀ nm, nm ≠ cn → CBS.waitlist_of s' nm = CBS.waitlist_of s nm)
  ∧ (∀ e, r = inl e → e = out_of_range ∧ ¬ queues_in_table s).
Proof.
  unfold CBS.evict_from, CBS.bind at 1, CBS.waitlists_ref. intros Hrun.
  set (s1 := CBS.set_waitlists _ s) in *.
  assert (E1 : evolves s s1) by apply evolves_touch.
  assert (W1 : ∀ nm, CBS.waitlist_of s1 nm = CBS.waitlist_of s nm).
  { intros nm. apply waitlist_of_touch. }
  unfold CBS.bind at 1 in Hrun.
  destruct (CBS.evict_loop uid cn (CBS.waitlist_of s cn) [] s1) as [r2 s2] eqn:Hloop.
  apply evict_loop_spec in Hloop as (E2 & C2 & W2 & Hr); [|intros x; by rewrite W1].
  destruct r2 as [e|q].
  - injection Hrun as <- <-. split_and!.
    + eapply evolves_trans; eauto.
    + by rewrite C2.
    + intros nm Hnm. rewrite W2, W1; auto.
    + intros e' [= <-]. destruct Hr as [-> Hr]. split; [done|].
      intros Hq. apply Hr. intros x Hx. eapply Hq, Hx.
  - unfold CBS.waitlists_assign, CBS.modify in Hrun. injection Hrun as <- <-.
    split_and!.
    + eapply evolves_trans; [exact E1|].
      destruct E2 as [U2 Cf2 B2 Wl2]. split; auto.
      intros nm x. rewrite waitlist_of_assign. destruct (decide (cn = nm)).
      * subst nm. intros Hx. destruct (Hr x Hx) as [Hx'|Hx'].
        -- by apply elem_of_nil in Hx'.
        -- by rewrite W1.
      * apply Wl2.
    + simpl. by rewrite C2.
    + intros nm Hnm. rewrite waitlist_of_assign.
      destruct (decide (cn = nm)); [congruence|]. rewrite W2, W1; auto.
    + intros e [=].
Qed.

Lemma evict_all_spec (uid : string) (cns : list string) :
  ∀ (s : CBS.t) r s',
  CBS.evict_all uid cns s = (r, s') →
  evolves s s'
  ∧ CBS.conferences s' = CBS.conferences s
  ∧ (∀ nm, nm ∉ cns → CBS.waitlist_of s' nm = CBS.waitlist_of s nm)
  ∧ (∀ e, r = inl e → e = out_of_range ∧ ¬ queues_in_table s).
Proof.
  induction cns as [|cn rest IH]; intros s r s' Hrun; simpl in Hrun.
  - unfold CBS.ret in Hrun. injection Hrun as <- <-.
    split_and!; auto using evolves_refl. intros e [=].
  - unfold CBS.bind at 1 in Hrun.
    destruct (CBS.evict_from uid cn s) as [r1 s1] eqn:H1.
    apply evict_from_spec in H1 as (E1 & C1 & W1 & Hr1).
    destruct r1 as [e|[]].
    + injection Hrun as <- <-. split_and!; auto.
      intros nm Hnm. apply W1. intros ->. apply Hnm. by left.
    + apply IH in Hrun as (E2 & C2 & W2 & Hr2). split_and!.
      * eapply evolves_trans; eauto.
      * congruence.
      * intros nm Hnm. rewrite W2, W1; auto.
        -- intros ->. apply Hnm. by left.
        -- intros Hin. apply Hnm. by right.
      * intros e He. destruct (Hr2 e He) as [-> Hq]. split; [done|].
        intros Hq'. apply Hq. eapply evolves_queues_in_table; eauto.
Qed.

Lemma not_elem_of_overlappingConferences (c : Conference.t) (s : CBS.t) :
  Conference.name c ∉ CBS.overlappingConferences c s.
Proof.
  unfold CBS.overlappingConferences. rewrite list_elem_of_fmap.
  intros [[k v] [Hk Hin]]. apply list_elem_of_filter in Hin as [[Hne _] _].
  simpl in *. congruence.
Qed.

Lemma removeFromOverlappingWaitlists_spec (uid : string) (c : Conference.t)
    (s : CBS.t) r s' :
  CBS.removeFromOverlappingWaitlists uid c s = (r, s') →
  evolves s s'
  ∧ CBS.conferences s' = CBS.conferences s
  ∧ CBS.waitlist_of s' (Conference.name c) = CBS.waitlist_of s (Conference.name c)
  ∧ (∀ e, r = inl e → e = out_of_range ∧ ¬ queues_in_table s).
Proof.
  unfold CBS.removeFromOverlappingWaitlists. intros Hrun.
  apply evict_all_spec in Hrun as (E & C & W & Hr). split_and!; auto.
  apply W, not_elem_of_overlappingConferences.
Qed.

(** ** Bulk cancellation and the promotion trigger *)

Lemma cancelAll_loop_spec (cn : string) (wl : list string) :
  ∀ (s : CBS.t) r s',
  (∀ x, x ∈ wl → x ∈ CBS.waitlist_of s cn) →
  CBS.cancelAll_loop cn wl s = (r, s') →
  evolves s s'
  ∧ CBS.conferences s' = CBS.conferences s
  ∧ (∀ nm, nm ≠ cn → CBS.waitlist_of s' nm = CBS.waitlist_of s nm)
  ∧ match r with
    | inr _ =>
      (wl ≠ [] → CBS.waitlist_of s' cn = [])
      ∧ ∀ id, CBS.bookings s' !! id =
              if decide (id ∈ wl)
              then Booking.setStatus CANCELED <$> CBS.bookings s !! id
              else CBS.bookings s !! id
    | inl e => e = out_of_range ∧ ¬ (∀ x, x ∈ wl → is_Some (CBS.bookings s !! x))
    end.
Proof.
  induction wl as [|a rest IH]; intros s r s' Hsub Hrun; simpl in Hrun.
  - unfold CBS.ret in Hrun. injection Hrun as <- <-.
    split_and!; auto using evolves_refl; done.
  - unfold CBS.bind at 1, CBS.waitlists_assign, CBS.modify in Hrun.
    set (s1 := CBS.set_waitlists (<[cn := rest]> (CBS.waitlists s)) s) in *.
    assert (E1 : evolves s s1).
    { apply evolves_assign. intros x Hx. apply Hsub. by right. }
    assert (W1 : ∀ nm, nm ≠ cn → CBS.waitlist_of s1 nm = CBS.waitlist_of s nm).
    { intros nm Hne. unfold s1. rewrite waitlist_of_assign.
      destruct (decide (cn = nm)); congruence. }
    assert (Q1 : CBS.waitlist_of s1 cn = rest).
    { unfold s1. rewrite waitlist_of_assign. by destruct (decide (cn = cn)). }
    unfold CBS.bind at 1 in Hrun. rewrite booking_setStatus_unfold in Hrun.
    destruct (CBS.bookings s1 !! a) as [b|] eqn:Hb.
    + set (s2 := CBS.set_bookings _ s1) in *.
      assert (E2 : evolves s1 s2).
      { exact (evolves_booking s1 a b _ Hb (booking_le_canceled b)). }
      assert (R2 : ∀ x, x ∈ rest → x ∈ CBS.waitlist_of s2 cn).
      { intros x Hx. change (CBS.waitlist_of s2 cn) with (CBS.waitlist_of s1 cn).
        by rewrite Q1. }
      destruct (IH _ _ _ R2 Hrun) as (E3 & C3 & W3 & Hr).
      split_and!.
      * eapply evolves_trans; [exact E1|]. eapply evolves_trans; eauto.
      * by rewrite C3.
      * intros nm Hnm. rewrite W3; auto. by apply W1.
      * destruct r as [e|[]].
        -- destruct Hr as [-> Hr]. split; [done|]. intros Hall. apply Hr.
           intros x Hx. unfold s2. simpl. rewrite lookup_insert.
           destruct (decide (a = x)); [done|]. apply Hall. by right.
        -- destruct Hr as [Hq Hbk]. split.
           ++ intros _. destruct rest as [|a' rest'].
              ** simpl in Hrun. unfold CBS.ret in Hrun. injection Hrun as <-.
                 change (CBS.waitlist_of s2 cn) with (CBS.waitlist_of s1 cn).
                 by rewrite Q1.
              ** by apply Hq.
           ++ intros id. rewrite Hbk. unfold s2. simpl.
              change (CBS.bookings s1) with (CBS.bookings s) in *.
              rewrite lookup_insert.
              destruct (decide (a = id)) as [->|Hne].
              ** rewrite Hb. destruct (decide (id ∈ rest)), (decide (id ∈ id :: rest)) as [|Hn];
                   try done; exfalso; apply Hn; by left.
              ** destruct (decide (id ∈ rest)) as [Hin|Hnin],
                          (decide (id ∈ a :: rest)) as [Hin'|Hnin']; try done.
                 --- exfalso. apply Hnin'. by right.
                 --- apply elem_of_cons in Hin' as [?|?]; congruence.
    + injection Hrun as <- <-. split_and!; auto.
      intros Hall. destruct (Hall a) as [? Hs]; [by left|].
      change (CBS.bookings s1) with (CBS.bookings s) in Hb. congruence.
Qed.

Lemma cancelAllWaitlistedBookings_spec (cn : string) (s : CBS.t) r s' :
  CBS.cancelAllWaitlistedBookings cn s = (r, s') →
  evolves s s'
  ∧ CBS.conferences s' = CBS.conferences s
  ∧ (∀ nm, nm ≠ cn → CBS.waitlist_of s' nm = CBS.waitlist_of s nm)
  ∧ match r with
    | inr _ =>
      CBS.waitlist_of s' cn = []
      ∧ ∀ id, CBS.bookings s' !! id =
              if decide (id ∈ CBS.waitlist_of s cn)
              then Booking.setStatus CANCELED <$> CBS.bookings s !! id
              else CBS.bookings s !! id
    | inl e => e = out_of_range ∧ ¬ queues_in_table s
    end.
Proof.
  unfold CBS.cancelAllWaitlistedBookings, CBS.bind at 1, CBS.waitlists_ref.
  intros Hrun. set (s1 := CBS.set_waitlists _ s) in *.
  assert (E1 : evolves s s1) by apply evolves_touch.
  assert (W1 : ∀ nm, CBS.waitlist_of s1 nm = CBS.waitlist_of s nm).
  { intros nm. apply waitlist_of_touch. }
  apply cancelAll_loop_spec in Hrun as (E2 & C2 & W2 & Hr); [|intros x; by rewrite W1].
  split_and!.
  - eapply evolves_trans; eauto.
  - by rewrite C2.
  - intros nm Hnm. rewrite W2, W1; auto.
  - destruct r as [e|[]].
    + destruct Hr as [-> Hr]. split; [done|]. intros Hq. apply Hr.
      intros x Hx. eapply Hq, Hx.
    + destruct Hr as [Hq Hbk]. split; [|exact Hbk].
      destruct (CBS.waitlist_of s cn) as [|a rest] eqn:Hwl.
      * assert (E : evolves s1 s') by exact E2.
        destruct (CBS.waitlist_of s' cn) as [|y ?] eqn:Hw'; [done|].
        assert (Hy : y ∈ CBS.waitlist_of s1 cn).
        { apply (ev_waitlists _ _ E). rewrite Hw'. by left. }
        rewrite W1, Hwl in Hy. by apply elem_of_nil in Hy.
      * by apply Hq.
Qed.

Lemma processWaitlist_spec (now : Z) (cn : string) (s : CBS.t) r s' :
  CBS.processWaitlist now cn s = (r, s') →
  evolves s s'
  ∧ CBS.conferences s' = CBS.conferences s
  ∧ (∀ nm, CBS.waitlist_of s' nm = CBS.waitlist_of s nm)
  ∧ match r with
    | inr _ =>
      match CBS.waitlist_of s cn with
      | [] => CBS.bookings s' = CBS.bookings s
      | h :: _ =>
        ∃ b, CBS.bookings s !! h = Some b
             ∧ CBS.bookings s' =
               <[h := Booking.setConfirmationDeadline (mkTimestamp (now + 3600)) b]>
                 (CBS.bookings s)
      end
    | inl e => e = out_of_range ∧ ¬ queues_in_table s
    end.
Proof.
  unfold CBS.processWaitlist, CBS.bind at 1, CBS.waitlists_ref.
  intros Hrun. set (s1 := CBS.set_waitlists _ s) in *.
  assert (E1 : evolves s s1) by apply evolves_touch.
  assert (W1 : ∀ nm, CBS.waitlist_of s1 nm = CBS.waitlist_of s nm).
  { intros nm. apply waitlist_of_touch. }
  destruct (CBS.waitlist_of s cn) as [|h rest] eqn:Hwl.
  - unfold CBS.ret in Hrun. injection Hrun as <- <-. split_and!; auto.
  - unfold CBS.setWaitlistConfirmationDeadline in Hrun.
    rewrite booking_setConfirmationDeadline_unfold in Hrun.
    change (CBS.bookings s1) with (CBS.bookings s) in Hrun.
    destruct (CBS.bookings s !! h) as [b|] eqn:Hb; injection Hrun as <- <-.
    + split_and!; eauto.
      eapply evolves_trans; [exact E1|].
      exact (evolves_booking s1 h b _ Hb (booking_le_deadline b _)).
    + split_and!; auto. intros Hq. destruct (Hq cn h) as [? Hs]; [|congruence].
      rewrite Hwl. by left.
Qed.

(** ** The invariant of reachable systems *)

Lemma overlap_sym (c1 c2 : Conference.t) : overlap c1 c2 = overlap c2 c1.
Proof. apply isTimeOverlapping_sym. Qed.

Lemma evolves_booking_inv (s s' : CBS.t) (id : string) (b' : Booking.t) :
  evolves s s' → CBS.bookings s' !! id = Some b' →
  ∃ b, CBS.bookings s !! id = Some b ∧ booking_le b b'.
Proof.
  intros E Hb. pose proof (ev_bookings _ _ E id) as H. rewrite Hb in H.
  inversion H; subst. eauto.
Qed.

Lemma evolves_booking_fwd (s s' : CBS.t) (id : string) (b : Booking.t) :
  evolves s s' → CBS.bookings s !! id = Some b →
  ∃ b', CBS.bookings s' !! id = Some b' ∧ booking_le b b'.
Proof.
  intros E Hb. pose proof (ev_bookings _ _ E id) as H. rewrite Hb in H.
  inversion H; subst. eauto.
Qed.

Lemma evolves_conference_inv (s s' : CBS.t) (nm : string) (c' : Conference.t) :
  evolves s s' → CBS.conferences s' !! nm = Some c' →
  ∃ c, CBS.conferences s !! nm = Some c ∧ conference_le c c'.
Proof.
  intros E Hc. pose proof (ev_conferences _ _ E nm) as H. rewrite Hc in H.
  inversion H; subst. eauto.
Qed.

Lemma evolves_conference_fwd (s s' : CBS.t) (nm : string) (c : Conference.t) :
  evolves s s' → CBS.conferences s !! nm = Some c →
  ∃ c', CBS.conferences s' !! nm = Some c' ∧ conference_le c c'.
Proof.
  intros E Hc. pose proof (ev_conferences _ _ E nm) as H. rewrite Hc in H.
  inversion H; subst. eauto.
Qed.

Lemma conference_le_overlap (c1 c1' c2 c2' : Conference.t) :
  conference_le c1 c1' → conference_le c2 c2' → overlap c1' c2' = overlap c1 c2.
Proof.
  unfold conference_le, overlap, Conference.isTimeOverlapping.
  intros (_&S1&E1&_) (_&S2&E2&_). by rewrite S1, E1, S2, E2.
Qed.

Lemma booking_le_confirmed (b b' : Booking.t) :
  booking_le b b' → Booking.status b' = CONFIRMED → Booking.status b = CONFIRMED.
Proof. intros (_&_&_&[H|H]) H'; congruence. Qed.

Lemma Inv_empty : Inv CBS.empty.
Proof.
  split; unfold CBS.empty; simpl.
  - intros uid u id st H. by rewrite lookup_empty in H.
  - intros id b H. by rewrite lookup_empty in H.
  - intros nm x. unfold CBS.waitlist_of; simpl. rewrite lookup_empty. simpl.
    intros H. by apply elem_of_nil in H.
  - intros nm c H. by rewrite lookup_empty in H.
  - intros id1 id2 b1 b2 c1 c2 _ H. by rewrite lookup_empty in H.
Qed.

Lemma Inv_evolves (s s' : CBS.t) : Inv s → evolves s s' → Inv s'.
Proof.
  intros [IL IB IQ IC IO] E. split.
  - intros uid u id st Hu Hl. rewrite (ev_users _ _ E) in Hu.
    destruct (IL _ _ _ _ Hu Hl) as [Hne Hs]. split; [done|].
    by apply (evolves_is_Some_booking s s' id E).
  - intros id b' Hb'.
    destruct (evolves_booking_inv _ _ _ _ E Hb') as (b & Hb & _ & HU & HC & HS).
    destruct (IB _ _ Hb) as [[c Hc] (u & Hu & Hled)]. split.
    + rewrite HC. destruct (evolves_conference_fwd _ _ _ _ E Hc) as (c' & Hc' & _).
      eauto.
    + exists u. rewrite HU, (ev_users _ _ E). split; [done|].
      intros Hne. apply Hled. destruct HS as [HS|HS]; congruence.
  - eapply evolves_queues_in_table; eauto.
  - intros nm c' Hc'.
    destruct (evolves_conference_inv _ _ _ _ E Hc') as (c & Hc & HN & _ & _ & _ & HS).
    destruct (IC _ _ Hc) as [Hn Hs]. split; [congruence|auto].
  - intros id1 id2 b1' b2' c1' c2' Hne Hb1' Hb2' HU S1 S2 Hc1' Hc2'.
    destruct (evolves_booking_inv _ _ _ _ E Hb1') as (b1 & Hb1 & L1).
    destruct (evolves_booking_inv _ _ _ _ E Hb2') as (b2 & Hb2 & L2).
    destruct (evolves_conference_inv _ _ _ _ E Hc1') as (c1 & Hc1 & LC1).
    destruct (evolves_conference_inv _ _ _ _ E Hc2') as (c2 & Hc2 & LC2).
    rewrite (conference_le_overlap c1 c1' c2 c2' LC1 LC2).
    pose proof (booking_le_confirmed _ _ L1 S1).
    pose proof (booking_le_confirmed _ _ L2 S2).
    destruct L1 as (_ & U1 & N1 & _), L2 as (_ & U2 & N2 & _).
    eapply (IO id1 id2 b1 b2); eauto; congruence.
Qed.

(** ** Registration keeps the invariant *)

Lemma Conference_new_inr (nm location : string) (topics : list string)
    (start end_ : Timestamp) (slots : Z) (c : Conference.t) :
  Conference.new nm location topics start end_ slots = inr c →
  Conference.name c = nm ∧ Conference.startTime c = start
  ∧ Conference.endTime c = end_ ∧ Conference.totalSlots c = slots
  ∧ Conference.availableSlots c = slots ∧ 0 < slots
  ∧ time start < time end_ ∧ wrap_time_t (time end_ - time start) ≤ 12 * 3600
  ∧ (length topics ≤ 10)%nat.
Proof.
  unfold Conference.new.
  destruct (Nat.ltb_spec 10 (length topics)); [done|].
  destruct (Z.leb_spec slots 0); [done|].
  destruct (Z.gtb_spec (wrap_time_t (time end_ - time start)) (12 * 3600)); [done|].
  destruct (Z.geb_spec (time start) (time end_)); [done|].
  intros [= <-]. simpl. split_and!; auto; lia.
Qed.

Lemma Inv_addConference (nm location : string) (topics : list string)
    (start end_ : Timestamp) (slots : Z) (s : CBS.t) :
  Inv s → Inv (CBS.addConference nm location topics start end_ slots s).2.
Proof.
  intros I. unfold CBS.addConference.
  destruct (CBS.conferences s !! nm) eqn:Hnone; [done|].
  destruct (Conference.new nm location topics start end_ slots) as [e|c] eqn:Hnew;
    [done|].
  apply Conference_new_inr in Hnew as (Hn & _ & _ & Ht & Ha & Hpos & _).
  destruct I as [IL IB IQ IC IO]. simpl. split; simpl; auto.
  - intros id b Hb. destruct (IB _ _ Hb) as [[c' Hc'] Hu]. split; [|done].
    rewrite lookup_insert. destruct (decide (nm = Booking.conferenceName b)); eauto.
  - intros nm' c'. rewrite lookup_insert. destruct (decide (nm = nm')).
    + intros [= <-]. subst. split; [done|]. unfold slots_ok. lia.
    + apply IC.
  - intros id1 id2 b1 b2 c1 c2 Hne Hb1 Hb2 HU S1 S2.
    destruct (IB _ _ Hb1) as [[x1 Hx1] _], (IB _ _ Hb2) as [[x2 Hx2] _].
    rewrite !lookup_insert_ne by congruence. eauto.
Qed.

Lemma Inv_addUser (uid : string) (topics : list string) (s : CBS.t) :
  Inv s → Inv (CBS.addUser uid topics s).2.
Proof.
  intros I. unfold CBS.addUser.
  destruct (CBS.users s !! uid) eqn:Hnone; [done|].
  unfold User.new. destruct (50 <? length topics)%nat; [done|].
  destruct I as [IL IB IQ IC IO]. simpl. split; simpl; auto.
  - intros uid' u id st. rewrite lookup_insert. destruct (decide (uid = uid')).
    + intros [= <-]. simpl. by rewrite lookup_empty.
    + apply IL.
  - intros id b Hb. destruct (IB _ _ Hb) as [Hc (u & Hu & Hl)]. split; [done|].
    exists u. rewrite lookup_insert_ne by congruence. done.
Qed.

(** ** The conflict check *)

Lemma hasConflictingBooking_loop_false (s : CBS.t) (c : Conference.t)
    (ids : list string) :
  CBS.hasConflictingBooking_loop s c ids = inr false →
  ∀ id b c', id ∈ ids → CBS.bookings s !! id = Some b →
    Booking.status b = CONFIRMED →
    CBS.conferences s !! Booking.conferenceName b = Some c' →
    overlap c' c = false.
Proof.
  induction ids as [|a rest IH]; simpl; intros Hrun id b c' Hin Hb Hst Hc.
  - by apply elem_of_nil in Hin.
  - destruct (CBS.bookings s !! a) as [ba|] eqn:Ha; [|done].
    apply elem_of_cons in Hin as [->|Hin].
    + rewrite Hb in Ha. injection Ha as <-. rewrite Hst, Hc in Hrun.
      unfold overlap. by destruct (Conference.isTimeOverlapping c' _ _).
    + destruct (Booking.status ba); eauto.
      destruct (CBS.conferences s !! Booking.conferenceName ba); [|done].
      destruct (Conference.isTimeOverlapping _ _ _); [done|eauto].
Qed.

Lemma hasConflictingBooking_loop_true (s : CBS.t) (c : Conference.t)
    (ids : list string) :
  CBS.hasConflictingBooking_loop s c ids = inr true →
  ∃ id b c', id ∈ ids ∧ CBS.bookings s !! id = Some b
    ∧ Booking.status b = CONFIRMED
    ∧ CBS.conferences s !! Booking.conferenceName b = Some c'
    ∧ overlap c' c = true.
Proof.
  induction ids as [|a rest IH]; simpl; intros Hrun; [done|].
  destruct (CBS.bookings s !! a) as [ba|] eqn:Ha; [|done].
  assert (Hrest : CBS.hasConflictingBooking_loop s c rest = inr true →
                  ∃ id b c', id ∈ a :: rest ∧ CBS.bookings s !! id = Some b
                    ∧ Booking.status b = CONFIRMED
                    ∧ CBS.conferences s !! Booking.conferenceName b = Some c'
                    ∧ overlap c' c = true).
  { intros H. destruct (IH H) as (id & b & c' & Hin & ?). exists id, b, c'.
    split; [by right|done]. }
  destruct (Booking.status ba) eqn:Hst; auto.
  destruct (CBS.conferences s !! Booking.conferenceName ba) as [ca|] eqn:Hc; [|done].
  destruct (Conference.isTimeOverlapping ca _ _) eqn:Hov; auto.
  exists a, ba, ca. split_and!; auto. by left.
Qed.

Lemma hasConflictingBooking_loop_total (s : CBS.t) (c : Conference.t)
    (ids : list string) :
  (∀ id, id ∈ ids → ∃ b, CBS.bookings s !! id = Some b
                         ∧ is_Some (CBS.conferences s !! Booking.conferenceName b)) →
  ∃ r, CBS.hasConflictingBooking_loop s c ids = inr r.
Proof.
  induction ids as [|a rest IH]; simpl; intros Hall; [eauto|].
  destruct (Hall a) as (b & -> & [ca ->]); [by left|].
  destruct IH as [r Hr]; [intros id Hid; apply Hall; by right|].
  destruct (Booking.status b); eauto.
  destruct (Conference.isTimeOverlapping ca _ _); eauto.
Qed.

Lemma hasConflictingBooking_error (s : CBS.t) (uid : string) (c : Conference.t)
    (e : exn) :
  CBS.hasConflictingBooking uid c s = inl e → e = out_of_range.
Proof.
  unfold CBS.hasConflictingBooking.
  destruct (CBS.users s !! uid) as [u|]; [|by intros [= <-]].
  induction (User.getActiveBookings u) as [|a rest IH]; simpl; [done|].
  repeat case_match; auto; by intros [= <-].
Qed.

Lemma hasConflictingBooking_false (s : CBS.t) (uid : string) (c : Conference.t) :
  CBS.hasConflictingBooking uid c s = inr false →
  ¬ holds_confirmed_overlapping s uid c.
Proof.
  unfold CBS.hasConflictingBooking.
  intros Hrun (id & b & c' & (u & st & Hu & Hl & Hst & Hb) & Hconf & Hc & Hov).
  rewrite Hu in Hrun.
  assert (Hin : id ∈ User.getActiveBookings u).
  { apply elem_of_getActiveBookings. eauto. }
  rewrite (hasConflictingBooking_loop_false _ _ _ Hrun id b c') in Hov; auto.
  discriminate.
Qed.

Lemma hasConflictingBooking_true (s : CBS.t) (uid : string) (c : Conference.t) :
  CBS.hasConflictingBooking uid c s = inr true →
  holds_confirmed_overlapping s uid c.
Proof.
  unfold CBS.hasConflictingBooking.
  destruct (CBS.users s !! uid) as [u|] eqn:Hu; [|done]. intros Hrun.
  apply hasConflictingBooking_loop_true in Hrun
    as (id & b & c' & Hin & Hb & Hst & Hc & Hov).
  apply elem_of_getActiveBookings in Hin as (st & Hl & Hne).
  exists id, b, c'. split_and!; auto. exists u, st. auto.
Qed.

Lemma hasConflictingBooking_total (s : CBS.t) (uid : string) (c : Conference.t) :
  Inv s → is_Some (CBS.users s !! uid) →
  ∃ r, CBS.hasConflictingBooking uid c s = inr r.
Proof.
  intros I [u Hu]. unfold CBS.hasConflictingBooking. rewrite Hu.
  apply hasConflictingBooking_loop_total. intros id Hin.
  apply elem_of_getActiveBookings in Hin as (st & Hl & Hne).
  destruct (inv_ledger s I _ _ _ _ Hu Hl) as [_ [b Hb]].
  exists b. split; [done|]. by destruct (inv_booking s I _ _ Hb).
Qed.

(** ** [bookConference], step by step *)

Lemma bookConference_unfold (now : Z) (indet : Timestamp) (uid cn : string) (s : CBS.t) :
  CBS.bookConference now indet uid cn s =
  match CBS.users s !! uid with
  | None => (inl (runtime_error "User not found"), s)
  | Some _ =>
  match CBS.conferences s !! cn with
  | None => (inl (runtime_error "Conference not found"), s)
  | Some c =>
  if Conference.hasStarted now c then
    (inl (runtime_error "Cannot book conference that has already started"), s)
  else
  match CBS.findActiveBooking uid cn s with
  | Some (id, _) => (inl (runtime_error (CBS.msg_active_booking id)), s)
  | None =>
  match CBS.hasConflictingBooking uid c s with
  | inl e => (inl e, s)
  | inr true => (inl (runtime_error "User has a conflicting booking"), s)
  | inr false =>
    let nb := Booking.new now indet uid cn in
    if Conference.availableSlots c >? 0 then
      let c' := Conference.set_availableSlots (Conference.availableSlots c - 1) c in
      match CBS.removeFromOverlappingWaitlists uid c'
              (CBS.set_conferences (<[cn := c']> (CBS.conferences s)) s) with
      | (inl e, s1) => (inl e, s1)
      | (inr _, s1) =>
        commit_booking uid (new_id now uid cn) (Booking.setStatus CONFIRMED nb) s1
      end
    else
      commit_booking uid (new_id now uid cn) (Booking.setStatus WAITLISTED nb)
        (CBS.set_waitlists
           (<[cn := CBS.waitlist_of s cn ++ [new_id now uid cn]]> (CBS.waitlists s)) s)
  end end end end.
Proof.
  unfold CBS.bookConference.
  unfold CBS.bind at 1, CBS.read at 1, CBS.validateUserExists.
  destruct (CBS.users s !! uid) as [u|] eqn:Hu; [|done].
  unfold CBS.bind at 1, CBS.read at 1, CBS.validateConferenceExists.
  destruct (CBS.conferences s !! cn) as [c|] eqn:Hc; [|done].
  unfold CBS.bind at 1, CBS.read at 1, CBS.conferences_at. rewrite Hc.
  destruct (Conference.hasStarted now c); [done|].
  unfold CBS.bind at 1, CBS.read at 1.
  destruct (CBS.findActiveBooking uid cn s) as [[id ?]|]; [done|].
  unfold CBS.bind at 1, CBS.read at 1.
  destruct (CBS.hasConflictingBooking uid c s) as [e|[]]; [done|done|].
  unfold Conference.decreaseAvailableSlots.
  destruct (Conference.availableSlots c >? 0).
  - unfold CBS.bind at 1. unfold CBS.bind at 1, CBS.conference_put, CBS.modify.
    unfold CBS.bind at 1.
    destruct (CBS.removeFromOverlappingWaitlists uid _ _) as [[e|[]] s1]; [done|].
    unfold CBS.bind, CBS.ret, CBS.bookings_emplace, CBS.modify. cbv beta iota.
    rewrite user_addBooking_unfold. unfold commit_booking, new_id. simpl.
    destruct (CBS.bookings s1 !! _); simpl; destruct (CBS.users s1 !! uid); done.
  - unfold CBS.bind at 1. unfold CBS.bind at 1, CBS.waitlists_ref.
    unfold CBS.bind at 1, CBS.waitlists_assign, CBS.modify.
    unfold CBS.bind, CBS.ret, CBS.bookings_emplace, CBS.modify. cbv beta iota.
    rewrite user_addBooking_unfold. unfold commit_booking, new_id. simpl.
    rewrite insert_insert_eq.
    destruct (CBS.bookings s !! _); simpl; rewrite Hu; done.
Qed.

(** ** [cancelBooking] and [confirmWaitlistedBooking], step by step *)

Lemma cancelBooking_unfold (now : Z) (id : string) (s : CBS.t) :
  CBS.cancelBooking now id s =
  match CBS.bookings s !! id with
  | None => (inl (runtime_error "Booking not found"), s)
  | Some b =>
  if decide (Booking.status b = CANCELED) then
    (inl (runtime_error "Booking is already canceled"), s)
  else
  let cn := Booking.conferenceName b in
  match CBS.conferences s !! cn with
  | None => (inl out_of_range, s)
  | Some c =>
  if Conference.hasStarted now c then
    (inl (runtime_error "Cannot cancel booking after conference has started"), s)
  else
    match
      match Booking.status b with
      | CONFIRMED =>
        CBS.processWaitlist now cn
          (CBS.set_conferences
             (<[cn := Conference.increaseAvailableSlots c]> (CBS.conferences s)) s)
      | WAITLISTED =>
        (inr tt,
         CBS.set_waitlists
           (<[cn := filter (λ currentId, currentId ≠ id) (CBS.waitlist_of s cn)]>
              (CBS.waitlists s)) s)
      | CANCELED => (inr tt, s)
      end
    with
    | (inl e, s1) => (inl e, s1)
    | (inr _, s1) => commit_cancel id (Booking.userId b) s1
    end
  end end.
Proof.
  unfold CBS.cancelBooking.
  destruct (CBS.bookings s !! id) as [b|] eqn:Hb; [|done].
  destruct (decide (Booking.status b = CANCELED)); [done|].
  unfold CBS.bind at 1, CBS.read at 1, CBS.conferences_at.
  destruct (CBS.conferences s !! Booking.conferenceName b) as [c|] eqn:Hc; [|done].
  destruct (Conference.hasStarted now c); [done|].
  unfold CBS.bind at 1.
  assert (Hcommit : ∀ s1,
    CBS.bind (CBS.booking_setStatus id CANCELED)
      (λ _, CBS.bind (CBS.user_removeBooking (Booking.userId b) id)
              (λ _, CBS.ret true)) s1
    = commit_cancel id (Booking.userId b) s1).
  { intros s1. unfold CBS.bind at 1. rewrite booking_setStatus_unfold.
    unfold commit_cancel. destruct (CBS.bookings s1 !! id); [|done].
    unfold CBS.bind. rewrite user_removeBooking_unfold.
    by destruct (CBS.users _ !! _). }
  destruct (Booking.status b).
  - unfold CBS.bind at 1, CBS.conference_put, CBS.modify.
    destruct (CBS.processWaitlist now _ _) as [[e|[]] s1]; [done|]. apply Hcommit.
  - unfold CBS.bind at 1, CBS.waitlists_ref.
    unfold CBS.waitlists_assign, CBS.modify. cbv beta iota.
    rewrite Hcommit. simpl. by rewrite insert_insert_eq.
  - unfold CBS.ret at 1. apply Hcommit.
Qed.

Lemma confirmWaitlistedBooking_unfold (now : Z) (id : string) (s : CBS.t) :
  CBS.confirmWaitlistedBooking now id s =
  match CBS.bookings s !! id with
  | None => (inl (runtime_error "Booking not found"), s)
  | Some b =>
  if decide (Booking.status b ≠ WAITLISTED) then
    (inl (runtime_error "Booking is not in waitlisted state"), s)
  else
  let cn := Booking.conferenceName b in
  match CBS.conferences s !! cn with
  | None => (inl out_of_range, s)
  | Some c =>
  if Conference.hasStarted now c then
    match CBS.cancelAllWaitlistedBookings cn s with
    | (inl e, s1) => (inl e, s1)
    | (inr _, s1) =>
      (inl (runtime_error "Cannot confirm booking after conference has started"), s1)
    end
  else if now >? time (Booking.confirmationDeadline b) then
    let s1 :=
      CBS.set_waitlists
        (<[cn := filter (λ currentId, currentId ≠ id) (CBS.waitlist_of s cn)
                 ++ (if bool_decide (id ∈ CBS.waitlist_of s cn) then [id] else [])]>
           (CBS.waitlists s)) s in
    if Conference.hasSlotAvailable c then
      match CBS.processWaitlist now cn s1 with
      | (inl e, s2) => (inl e, s2)
      | (inr _, s2) => (inr false, s2)
      end
    else (inr false, s1)
  else
  match CBS.hasConflictingBooking (Booking.userId b) c s with
  | inl e => (inl e, s)
  | inr true => (inl (runtime_error "User now has a conflicting booking"), s)
  | inr false =>
    if Conference.availableSlots c >? 0 then
      let c' := Conference.set_availableSlots (Conference.availableSlots c - 1) c in
      let s1 :=
        CBS.set_bookings (<[id := Booking.setStatus CONFIRMED b]> (CBS.bookings s))
          (CBS.set_waitlists
             (<[cn := filter (λ currentId, currentId ≠ id) (CBS.waitlist_of s cn)]>
                (CBS.waitlists s))
             (CBS.set_conferences (<[cn := c']> (CBS.conferences s)) s)) in
      match CBS.removeFromOverlappingWaitlists (Booking.userId b) c' s1 with
      | (inl e, s2) => (inl e, s2)
      | (inr _, s2) => (inr true, s2)
      end
    else (inl (runtime_error "No slots available"), s)
  end end end.
Proof.
  unfold CBS.confirmWaitlistedBooking.
  destruct (CBS.bookings s !! id) as [b|] eqn:Hb; [|done].
  destruct (decide (Booking.status b ≠ WAITLISTED)); [done|].
  unfold CBS.bind at 1, CBS.read at 1, CBS.conferences_at.
  destruct (CBS.conferences s !! Booking.conferenceName b) as [c|] eqn:Hc; [|done].
  destruct (Conference.hasStarted now c).
  { unfold CBS.bind, CBS.throw.
    by destruct (CBS.cancelAllWaitlistedBookings _ s) as [[e|[]] s1]. }
  destruct (now >? time (Booking.confirmationDeadline b)).
  { unfold CBS.bind at 1, CBS.waitlists_ref.
    unfold CBS.bind at 1, CBS.waitlists_assign, CBS.modify. cbv beta iota zeta.
    simpl CBS.waitlists. rewrite insert_insert_eq.
    destruct (Conference.hasSlotAvailable c).
    - unfold CBS.bind, CBS.ret.
      by destruct (CBS.processWaitlist now _ _) as [[e|[]] s2].
    - done. }
  unfold CBS.bind at 1, CBS.read at 1.
  destruct (CBS.hasConflictingBooking _ c s) as [e|[]]; [done|done|].
  unfold Conference.decreaseAvailableSlots.
  destruct (Conference.availableSlots c >? 0); [|done].
  cbv beta iota. change (negb true) with false. cbv beta iota.
  unfold CBS.bind at 1, CBS.conference_put, CBS.modify.
  unfold CBS.bind at 1, CBS.waitlists_ref.
  unfold CBS.bind at 1, CBS.waitlists_assign, CBS.modify. cbv beta iota zeta.
  unfold CBS.bind at 1. rewrite booking_setStatus_unfold.
  simpl CBS.bookings. rewrite Hb. simpl CBS.waitlists. rewrite insert_insert_eq.
  unfold CBS.bind, CBS.ret. reflexivity.
Qed.

(** ** The committing steps keep the invariant *)

Lemma holds_confirmed_overlapping_evolves (s s' : CBS.t) (uid : string)
    (c c' : Conference.t) :
  evolves s s' → conference_le c c' →
  holds_confirmed_overlapping s' uid c' → holds_confirmed_overlapping s uid c.
Proof.
  intros E Lc (id & b' & cb' & (u & st & Hu & Hl & Hst & Hb') & Hconf & Hcb' & Hov).
  destruct (evolves_booking_inv _ _ _ _ E Hb') as (b & Hb & Lb).
  destruct (evolves_conference_inv _ _ _ _ E Hcb') as (cb & Hcb & Lcb).
  exists id, b, cb. split_and!.
  - exists u, st. rewrite <- (ev_users _ _ E). auto.
  - eapply booking_le_confirmed; eauto.
  - destruct Lb as (_ & _ & <- & _). done.
  - by rewrite <- (conference_le_overlap cb cb' c c').
Qed.

Lemma Inv_holds (s : CBS.t) (id : string) (b : Booking.t) :
  Inv s → CBS.bookings s !! id = Some b → Booking.status b ≠ CANCELED →
  holds s (Booking.userId b) id b.
Proof.
  intros I Hb Hst. destruct (inv_booking s I _ _ Hb) as [_ (u & Hu & Hl)].
  destruct (Hl Hst) as [st Hst']. exists u, st. split_and!; auto.
  by destruct (inv_ledger s I _ _ _ _ Hu Hst').
Qed.

Lemma Inv_commit_booking (s0 s : CBS.t) (uid id : string) (nb : Booking.t)
    (c : Conference.t) :
  Inv s0 →
  CBS.conferences s = CBS.conferences s0 → CBS.users s = CBS.users s0 →
  CBS.bookings s = CBS.bookings s0 →
  (∀ nm x, x ∈ CBS.waitlist_of s nm → x ∈ CBS.waitlist_of s0 nm ∨ x = id) →
  is_Some (CBS.users s0 !! uid) →
  CBS.conferences s0 !! Booking.conferenceName nb = Some c →
  Booking.userId nb = uid → Booking.status nb ≠ CANCELED →
  (Booking.status nb = CONFIRMED → ¬ holds_confirmed_overlapping s0 uid c) →
  Inv (commit_booking uid id nb s).2.
Proof.
  intros I EC EU EB EW [u Hu] Hc HU Hst Hfree.
  unfold commit_booking.
  set (s1 := match CBS.bookings s !! id with
             | Some _ => s
             | None => CBS.set_bookings (<[id := nb]> (CBS.bookings s)) s
             end).
  assert (U1 : CBS.users s1 = CBS.users s0).
  { unfold s1. destruct (CBS.bookings s !! id); simpl; done. }
  assert (C1 : CBS.conferences s1 = CBS.conferences s0).
  { unfold s1. destruct (CBS.bookings s !! id); simpl; done. }
  assert (W1 : ∀ nm, CBS.waitlist_of s1 nm = CBS.waitlist_of s nm).
  { intros nm. unfold s1. destruct (CBS.bookings s !! id); simpl; done. }
  assert (Bold : ∀ x b, CBS.bookings s0 !! x = Some b → CBS.bookings s1 !! x = Some b).
  { intros x b Hb. unfold s1. destruct (CBS.bookings s !! id) eqn:Hid; simpl.
    - by rewrite EB.
    - rewrite lookup_insert_ne; [by rewrite EB|]. intros ->. congruence. }
  assert (Bnew : ∀ x b, CBS.bookings s1 !! x = Some b →
            CBS.bookings s0 !! x = Some b
            ∨ (x = id ∧ b = nb ∧ CBS.bookings s0 !! id = None)).
  { intros x b. unfold s1. destruct (CBS.bookings s !! id) eqn:Hid; simpl.
    - rewrite EB. auto.
    - rewrite lookup_insert. destruct (decide (id = x)).
      + intros [= <-]. right. rewrite <- EB. auto.
      + rewrite EB. auto. }
  assert (Bid : is_Some (CBS.bookings s1 !! id)).
  { unfold s1. destruct (CBS.bookings s !! id) eqn:Hid; simpl.
    - rewrite Hid. eauto.
    - rewrite lookup_insert_eq. eauto. }
  rewrite U1, Hu. simpl. destruct I as [IL IB IQ IC IO].
  split; simpl.
  - intros uid' u' id' st'. rewrite lookup_insert.
    destruct (decide (uid = uid')) as [<-|Hne].
    + intros [= <-]. simpl. rewrite lookup_insert.
      destruct (decide (id = id')) as [<-|Hne'].
      * intros [= <-]. done.
      * intros Hl. destruct (IL _ _ _ _ Hu Hl) as [? [b Hb]]. split; [done|].
        rewrite (Bold _ _ Hb). eauto.
    + intros Hu' Hl. destruct (IL _ _ _ _ Hu' Hl) as [? [b Hb]]. split; [done|].
      rewrite (Bold _ _ Hb). eauto.
  - intros id' b' Hb'. rewrite C1.
    destruct (Bnew _ _ Hb') as [Hold|(-> & -> & Hnone)].
    + destruct (IB _ _ Hold) as [Hcb (u' & Hu' & Hl')]. split; [done|].
      rewrite lookup_insert. destruct (decide (uid = Booking.userId b')) as [Heq|Hne].
      * exists (User.addBooking id (Booking.status nb) u). split; [done|].
        intros Hst'. simpl. rewrite lookup_insert.
        destruct (decide (id = id')); [eauto|].
        rewrite <- Heq in Hu'. assert (u' = u) by congruence. subst u'.
        by apply Hl'.
      * eauto.
    + split; [rewrite Hc; eauto|].
      exists (User.addBooking id (Booking.status nb) u).
      rewrite HU, lookup_insert_eq. split; [done|].
      intros _. simpl. rewrite lookup_insert_eq. eauto.
  - intros nm x Hx. simpl in Hx.
    change (x ∈ CBS.waitlist_of s1 nm) in Hx. rewrite W1 in Hx.
    destruct (EW _ _ Hx) as [Hold| ->]; [|done].
    destruct (IQ _ _ Hold) as [b Hb]. simpl. rewrite (Bold _ _ Hb). eauto.
  - rewrite C1. apply IC.
  - intros id1 id2 b1 b2 c1 c2 Hne Hb1 Hb2 HUeq S1 S2. rewrite C1. intros Hc1 Hc2.
    destruct (Bnew _ _ Hb1) as [Ho1|(-> & -> & Hn1)],
             (Bnew _ _ Hb2) as [Ho2|(-> & -> & Hn2)].
    + eapply (IO id1 id2); eauto.
    + assert (c2 = c) by congruence. subst c2.
      destruct (overlap c1 c) eqn:Hov; [|done].
      exfalso. apply (Hfree S2). exists id1, b1, c1. split_and!; auto.
      rewrite <- HU, <- HUeq.
      apply (Inv_holds s0); [by split|done|congruence].
    + assert (c1 = c) by congruence. subst c1.
      rewrite overlap_sym. destruct (overlap c2 c) eqn:Hov; [|done].
      exfalso. apply (Hfree S1). exists id2, b2, c2. split_and!; auto.
      rewrite <- HU, HUeq.
      apply (Inv_holds s0); [by split|done|congruence].
    + done.
Qed.

Lemma Inv_set_confirmed (s : CBS.t) (id : string) (b : Booking.t) (c : Conference.t) :
  Inv s → CBS.bookings s !! id = Some b → Booking.status b ≠ CANCELED →
  CBS.conferences s !! Booking.conferenceName b = Some c →
  ¬ holds_confirmed_overlapping s (Booking.userId b) c →
  Inv (CBS.set_bookings (<[id := Booking.setStatus CONFIRMED b]> (CBS.bookings s)) s).
Proof.
  intros I Hb Hst Hc Hfree. pose proof I as [IL IB IQ IC IO].
  assert (Bnew : ∀ x bx,
            <[id := Booking.setStatus CONFIRMED b]> (CBS.bookings s) !! x = Some bx →
            (x = id ∧ bx = Booking.setStatus CONFIRMED b)
            ∨ (x ≠ id ∧ CBS.bookings s !! x = Some bx)).
  { intros x bx. rewrite lookup_insert. destruct (decide (id = x)).
    - intros [= <-]. auto.
    - auto. }
  assert (Hother : ∀ x bx cx, x ≠ id → CBS.bookings s !! x = Some bx →
            Booking.userId bx = Booking.userId b → Booking.status bx = CONFIRMED →
            CBS.conferences s !! Booking.conferenceName bx = Some cx →
            overlap cx c = false).
  { intros x bx cx Hne Hbx HU Sx Hcx. destruct (overlap cx c) eqn:Hov; [|done].
    exfalso. apply Hfree. exists x, bx, cx. split_and!; auto.
    rewrite <- HU. apply Inv_holds; auto. congruence. }
  split; simpl; auto.
  - intros uid u x st Hu Hl. destruct (IL _ _ _ _ Hu Hl) as [? Hs]. split; [done|].
    rewrite lookup_insert. destruct (decide (id = x)); eauto.
  - intros x bx Hbx. destruct (Bnew _ _ Hbx) as [[-> ->]|[Hne Hold]]; simpl.
    + destruct (IB _ _ Hb) as [Hcb (u & Hu & Hl)]. eauto.
    + by apply IB.
  - intros nm x Hx. simpl. rewrite lookup_insert.
    destruct (decide (id = x)); [eauto|]. eapply IQ, Hx.
  - intros id1 id2 b1 b2 c1 c2 Hne Hb1 Hb2 HU S1 S2 Hc1 Hc2.
    destruct (Bnew _ _ Hb1) as [[-> ->]|[Hne1 Ho1]],
             (Bnew _ _ Hb2) as [[-> ->]|[Hne2 Ho2]]; simpl in *.
    + done.
    + assert (c1 = c) by congruence. subst c1. rewrite overlap_sym.
      eapply Hother; eauto.
    + assert (c2 = c) by congruence. subst c2. eapply Hother; eauto.
    + eapply (IO id1 id2); eauto.
Qed.

Lemma Inv_commit_cancel (s : CBS.t) (id : string) (b : Booking.t) :
  Inv s → CBS.bookings s !! id = Some b →
  Inv (commit_cancel id (Booking.userId b) s).2.
Proof.
  intros I Hb. unfold commit_cancel. rewrite Hb. simpl.
  destruct (inv_booking s I _ _ Hb) as [_ (u & Hu & _)]. rewrite Hu. simpl.
  assert (E : evolves s
            (CBS.set_bookings (<[id := Booking.setStatus CANCELED b]> (CBS.bookings s)) s)).
  { apply evolves_booking with b; [done|]. apply booking_le_canceled. }
  apply (Inv_evolves _ _ I) in E. destruct E as [IL IB IQ IC IO].
  simpl in *. split; simpl; auto.
  - intros uid u' x st. rewrite lookup_insert.
    destruct (decide (Booking.userId b = uid)) as [<-|Hne]; [|apply IL].
    intros [= <-] Hl. apply (IL _ _ _ _ Hu).
    unfold User.removeBooking in Hl.
    destruct (User.bookingStatuses u !! id); [|done]. simpl in Hl.
    apply lookup_delete_Some in Hl as [_ Hl]. done.
  - intros x bx Hbx. destruct (IB _ _ Hbx) as [Hcx (ux & Hux & Hlx)].
    split; [done|]. rewrite lookup_insert.
    destruct (decide (Booking.userId b = Booking.userId bx)) as [Heq|Hne]; [|eauto].
    exists (User.removeBooking id u). split; [done|]. intros Hst.
    rewrite <- Heq in Hux. assert (ux = u) by congruence. subst ux.
    assert (Hxid : x ≠ id).
    { intros ->. rewrite lookup_insert_eq in Hbx. injection Hbx as <-.
      simpl in Hst. done. }
    unfold User.removeBooking. destruct (User.bookingStatuses u !! id); [|auto].
    simpl. rewrite lookup_delete_ne by done. auto.
Qed.

(** ** Every call keeps the invariant *)

Lemma conference_le_reserve (c : Conference.t) :
  (Conference.availableSlots c >? 0) = true →
  conference_le c (Conference.set_availableSlots (Conference.availableSlots c - 1) c).
Proof.
  intros H. pose proof (conference_le_decrease c) as L.
  unfold Conference.decreaseAvailableSlots in L. by rewrite H in L.
Qed.

Lemma Inv_bookConference (now : Z) (indet : Timestamp) (uid cn : string) (s : CBS.t) :
  Inv s → Inv (CBS.bookConference now indet uid cn s).2.
Proof.
  intros I. rewrite bookConference_unfold.
  destruct (CBS.users s !! uid) as [u|] eqn:Hu; [|done].
  destruct (CBS.conferences s !! cn) as [c|] eqn:Hc; [|done].
  destruct (Conference.hasStarted now c); [done|].
  destruct (CBS.findActiveBooking uid cn s) as [[id ?]|]; [done|].
  destruct (CBS.hasConflictingBooking uid c s) as [e|[]] eqn:Hconf; [done|done|].
  apply hasConflictingBooking_false in Hconf.
  cbv zeta. destruct (Conference.availableSlots c >? 0) eqn:Hav.
  - set (c' := Conference.set_availableSlots _ c).
    set (sA := CBS.set_conferences _ s).
    assert (EA : evolves s sA).
    { apply evolves_conference with c; [done|]. by apply conference_le_reserve. }
    destruct (CBS.removeFromOverlappingWaitlists uid c' sA) as [r1 s1] eqn:Hrm.
    apply removeFromOverlappingWaitlists_spec in Hrm as (E1 & C1 & _).
    assert (E : evolves s s1) by (eapply evolves_trans; eauto).
    pose proof (Inv_evolves _ _ I E) as I1.
    destruct r1 as [e|[]]; [done|].
    destruct (evolves_conference_fwd _ _ _ _ E Hc) as (c1 & Hc1 & Lc).
    eapply (Inv_commit_booking s1 s1); eauto.
    + rewrite (ev_users _ _ E), Hu. eauto.
    + intros _ Hh. apply Hconf.
      eapply holds_confirmed_overlapping_evolves; eauto.
  - eapply (Inv_commit_booking s); eauto; try done.
    intros nm x. rewrite waitlist_of_assign. destruct (decide (cn = nm)); [|auto].
    subst nm. intros Hx. apply elem_of_app in Hx as [Hx|Hx]; [auto|].
    apply list_elem_of_singleton in Hx. auto.
Qed.

Lemma Inv_cancelBooking (now : Z) (id : string) (s : CBS.t) :
  Inv s → Inv (CBS.cancelBooking now id s).2.
Proof.
  intros I. rewrite cancelBooking_unfold.
  destruct (CBS.bookings s !! id) as [b|] eqn:Hb; [|done].
  destruct (decide (Booking.status b = CANCELED)); [done|].
  cbv zeta.
  destruct (CBS.conferences s !! Booking.conferenceName b) as [c|] eqn:Hc; [|done].
  destruct (Conference.hasStarted now c); [done|].
  destruct (Booking.status b) eqn:Hst; [| |done].
  - set (sA := CBS.set_conferences _ s).
    assert (EA : evolves s sA).
    { apply evolves_conference with c; [done|]. apply conference_le_increase. }
    destruct (CBS.processWaitlist now _ sA) as [r1 s1] eqn:Hp.
    apply processWaitlist_spec in Hp as (E1 & _).
    assert (E : evolves s s1) by (eapply evolves_trans; eauto).
    pose proof (Inv_evolves _ _ I E) as I1.
    destruct r1 as [e|[]]; [done|].
    destruct (evolves_booking_fwd _ _ _ _ E Hb) as (b1 & Hb1 & _ & HU & _).
    rewrite <- HU. by apply Inv_commit_cancel.
  - set (sA := CBS.set_waitlists _ s).
    assert (EA : evolves s sA).
    { apply evolves_assign. intros x Hx. by apply list_elem_of_filter in Hx as [_ ?]. }
    apply Inv_commit_cancel; [|done]. eapply Inv_evolves; eauto.
Qed.

Lemma Inv_promote (id : string) (b : Booking.t) (c : Conference.t) (s : CBS.t) :
  Inv s → CBS.bookings s !! id = Some b → Booking.status b = WAITLISTED →
  CBS.conferences s !! Booking.conferenceName b = Some c →
  CBS.hasConflictingBooking (Booking.userId b) c s = inr false →
  (Conference.availableSlots c >? 0) = true →
  Inv (CBS.set_bookings (<[id := Booking.setStatus CONFIRMED b]> (CBS.bookings s))
         (CBS.set_waitlists
            (<[Booking.conferenceName b :=
                 filter (λ currentId, currentId ≠ id)
                   (CBS.waitlist_of s (Booking.conferenceName b))]>
               (CBS.waitlists s))
            (CBS.set_conferences
               (<[Booking.conferenceName b :=
                    Conference.set_availableSlots (Conference.availableSlots c - 1) c]>
                  (CBS.conferences s)) s))).
Proof.
  intros I Hb Hst Hc Hconf Hav. apply hasConflictingBooking_false in Hconf.
  set (c' := Conference.set_availableSlots _ c).
  set (sA := CBS.set_conferences _ s).
  set (sB := CBS.set_waitlists _ sA).
  assert (EA : evolves s sA).
  { apply evolves_conference with c; [done|]. by apply conference_le_reserve. }
  assert (EB : evolves sA sB).
  { refine (evolves_assign sA _ _ _).
    intros x Hx. by apply list_elem_of_filter in Hx as [_ ?]. }
  assert (E : evolves s sB) by (eapply evolves_trans; eauto).
  apply (Inv_set_confirmed sB id b c'); auto.
  - eapply Inv_evolves; eauto.
  - congruence.
  - simpl. by rewrite lookup_insert_eq.
  - intros Hh. apply Hconf.
    eapply holds_confirmed_overlapping_evolves; eauto.
    by apply conference_le_reserve.
Qed.

Lemma Inv_confirmWaitlistedBooking (now : Z) (id : string) (s : CBS.t) :
  Inv s → Inv (CBS.confirmWaitlistedBooking now id s).2.
Proof.
  intros I. rewrite confirmWaitlistedBooking_unfold.
  destruct (CBS.bookings s !! id) as [b|] eqn:Hb; [|done].
  destruct (decide (Booking.status b ≠ WAITLISTED)) as [|Hst]; [done|].
  apply dec_stable in Hst. cbv zeta.
  destruct (CBS.conferences s !! Booking.conferenceName b) as [c|] eqn:Hc; [|done].
  destruct (Conference.hasStarted now c).
  { destruct (CBS.cancelAllWaitlistedBookings _ s) as [r1 s1] eqn:Hca.
    apply cancelAllWaitlistedBookings_spec in Hca as (E1 & _).
    pose proof (Inv_evolves _ _ I E1). by destruct r1 as [e|[]]. }
  destruct (now >? time (Booking.confirmationDeadline b)).
  { set (sA := CBS.set_waitlists _ s).
    assert (EA : evolves s sA).
    { apply evolves_assign. intros x Hx. apply elem_of_app in Hx as [Hx|Hx].
      - by apply list_elem_of_filter in Hx as [_ ?].
      - case_bool_decide; [|by apply elem_of_nil in Hx].
        apply list_elem_of_singleton in Hx. by subst. }
    pose proof (Inv_evolves _ _ I EA) as IA.
    destruct (Conference.hasSlotAvailable c); [|done].
    destruct (CBS.processWaitlist now _ sA) as [r1 s1] eqn:Hp.
    apply processWaitlist_spec in Hp as (E1 & _).
    pose proof (Inv_evolves _ _ IA E1). by destruct r1 as [e|[]]. }
  destruct (CBS.hasConflictingBooking _ c s) as [e|[]] eqn:Hconf; [done|done|].
  destruct (Conference.availableSlots c >? 0) eqn:Hav; [|done].
  pose proof (Inv_promote id b c s I Hb Hst Hc Hconf Hav) as IC.
  set (c' := Conference.set_availableSlots _ c) in *.
  set (sC := CBS.set_bookings _ _) in *.
  destruct (CBS.removeFromOverlappingWaitlists _ c' sC) as [r1 s1] eqn:Hrm.
  apply removeFromOverlappingWaitlists_spec in Hrm as (E1 & _).
  pose proof (Inv_evolves _ _ IC E1). by destruct r1 as [e|[]].
Qed.

Lemma Inv_exec (e : CBS.event) (s : CBS.t) : Inv s → Inv (CBS.exec e s).2.
Proof.
  intros I. unfold CBS.exec, CBS.fmap_result. destruct (CBS.ev_call e); simpl.
  - by apply Inv_addConference.
  - by apply Inv_addUser.
  - by apply Inv_bookConference.
  - by apply Inv_cancelBooking.
  - by apply Inv_confirmWaitlistedBooking.
  - done.
Qed.

Lemma reachable_Inv (s : CBS.t) : CBS.reachable s → Inv s.
Proof.
  induction 1 as [|e s _ IH]; [apply Inv_empty|by apply Inv_exec].
Qed.

Lemma reachable_run (es : list CBS.event) (s : CBS.t) :
  CBS.reachable s → CBS.reachable (CBS.run es s).
Proof.
  revert s. induction es as [|e es IH]; intros s Hs; simpl; [done|].
  apply IH. by constructor.
Qed.

(** ** Counting confirmed bookings *)

Lemma one_if_True (P : Prop) `{Decision P} : P → one_if P = 1%nat.
Proof. intros HP. unfold one_if. by rewrite decide_True. Qed.

Lemma one_if_False (P : Prop) `{Decision P} : ¬ P → one_if P = 0%nat.
Proof. intros HP. unfold one_if. by rewrite decide_False. Qed.

Lemma count_confirmed_insert (m : gmap string Booking.t) (id : string)
    (b : Booking.t) (cn : string) :
  m !! id = None →
  count_confirmed (<[id := b]> m) cn
  = (one_if (Booking.status b = CONFIRMED ∧ Booking.conferenceName b = cn)
     + count_confirmed m cn)%nat.
Proof.
  intros H. unfold count_confirmed. rewrite (map_to_list_insert m id b H).
  rewrite filter_cons. unfold one_if. simpl.
  by destruct (decide (Booking.status b = CONFIRMED ∧ Booking.conferenceName b = cn)).
Qed.

Lemma count_confirmed_lookup (m : gmap string Booking.t) (id : string)
    (b : Booking.t) (cn : string) :
  m !! id = Some b →
  count_confirmed m cn
  = (one_if (Booking.status b = CONFIRMED ∧ Booking.conferenceName b = cn)
     + count_confirmed (delete id m) cn)%nat.
Proof.
  intros H. rewrite <- (insert_delete_id m id b H) at 1.
  apply count_confirmed_insert, lookup_delete_eq.
Qed.

Lemma count_confirmed_update (m : gmap string Booking.t) (id : string)
    (b b' : Booking.t) (cn : string) :
  m !! id = Some b →
  (count_confirmed (<[id := b']> m) cn
   + one_if (Booking.status b = CONFIRMED ∧ Booking.conferenceName b = cn)
   = count_confirmed m cn
     + one_if (Booking.status b' = CONFIRMED ∧ Booking.conferenceName b' = cn))%nat.
Proof.
  intros H. rewrite <- (insert_delete_eq m id b').
  rewrite count_confirmed_insert by apply lookup_delete_eq.
  rewrite (count_confirmed_lookup m id b cn H). lia.
Qed.

Lemma count_confirmed_ext (cn : string) (m : gmap string Booking.t) :
  ∀ m' : gmap string Booking.t,
  (∀ id, option_Forall2
           (λ b b', (Booking.status b = CONFIRMED ∧ Booking.conferenceName b = cn)
                    ↔ (Booking.status b' = CONFIRMED ∧ Booking.conferenceName b' = cn))
           (m !! id) (m' !! id)) →
  count_confirmed m cn = count_confirmed m' cn.
Proof.
  induction m as [|i x m Hi IH] using map_ind; intros m' H.
  - assert (m' = ∅) as ->; [|done].
    apply map_empty. intros id. specialize (H id). rewrite lookup_empty in H.
    by inversion H.
  - pose proof (H i) as Hx. rewrite lookup_insert_eq in Hx.
    inversion Hx as [? x' Hiff Heq1 Heq2|]; subst. symmetry in Heq2.
    rewrite (count_confirmed_insert m i x cn Hi).
    rewrite (count_confirmed_lookup m' i x' cn Heq2).
    rewrite (IH (delete i m')).
    + unfold one_if. repeat case_decide; tauto || done.
    + intros id. destruct (decide (i = id)) as [<-|Hne].
      * rewrite Hi, lookup_delete_eq. constructor.
      * rewrite lookup_delete_ne by done. specialize (H id).
        by rewrite lookup_insert_ne in H.
Qed.

Lemma count_confirmed_none (cn : string) (m : gmap string Booking.t) :
  (∀ id b, m !! id = Some b → Booking.conferenceName b ≠ cn) →
  count_confirmed m cn = 0%nat.
Proof.
  intros H. unfold count_confirmed.
  assert (Hall : Forall (λ p, Booking.conferenceName p.2 ≠ cn) (map_to_list m)).
  { apply Forall_forall. intros [k v] Hin. apply elem_of_map_to_list in Hin.
    simpl. eauto. }
  induction Hall as [|p l Hp _ IH]; [done|].
  rewrite filter_cons. destruct (decide _) as [[_ Hc]|]; [done|exact IH].
Qed.

(** ** Slot accounting, as long as booking ids do not collide *)

Lemma keeps_confirmed_refl (s : CBS.t) : keeps_confirmed s s.
Proof. intros id b Hb Hst. eauto. Qed.

Lemma keeps_confirmed_trans (s1 s2 s3 : CBS.t) :
  keeps_confirmed s1 s2 → keeps_confirmed s2 s3 → keeps_confirmed s1 s3.
Proof.
  intros K1 K2 id b Hb Hst. destruct (K1 _ _ Hb Hst) as (b' & Hb' & Hst'). eauto.
Qed.

Lemma keeps_confirmed_same_bookings (s s' : CBS.t) :
  CBS.bookings s' = CBS.bookings s → keeps_confirmed s s'.
Proof. intros E id b Hb Hst. rewrite E. eauto. Qed.

Lemma keeps_confirmed_update (s : CBS.t) (id : string) (b b' : Booking.t) :
  CBS.bookings s !! id = Some b →
  (Booking.status b = CONFIRMED → Booking.status b' = CONFIRMED) →
  keeps_confirmed s (CBS.set_bookings (<[id := b']> (CBS.bookings s)) s).
Proof.
  intros Hb Himp x bx Hbx Hst. simpl. rewrite lookup_insert.
  destruct (decide (id = x)) as [<-|]; [|eauto].
  assert (bx = b) by congruence. subst bx. eauto.
Qed.

Lemma queue_waiting_evolves (s s' : CBS.t) :
  evolves s s' → queue_waiting s → queue_waiting s'.
Proof.
  intros E Q nm x Hx. apply (ev_waitlists _ _ E) in Hx.
  destruct (Q _ _ Hx) as (b & Hb & Hst & Hc).
  destruct (evolves_booking_fwd _ _ _ _ E Hb) as (b' & Hb' & _ & _ & HC & HS).
  exists b'. split_and!; [done| |congruence].
  destruct HS as [HS|HS]; congruence.
Qed.

Lemma confirmed_count_evolves (s s' : CBS.t) (cn : string) :
  evolves s s' → keeps_confirmed s s' →
  confirmed_count s' cn = confirmed_count s cn.
Proof.
  intros E K. unfold confirmed_count. symmetry. apply count_confirmed_ext.
  intros id. pose proof (ev_bookings _ _ E id) as H.
  inversion H as [b b' Hle Hb Hb'|]; constructor.
  symmetry in Hb, Hb'. destruct Hle as (_ & _ & HC & HS). rewrite HC. split.
  - intros [Hst ?]. split; [|done].
    destruct (K _ _ Hb Hst) as (b2 & Hb2 & ?). congruence.
  - intros [Hst ?]. split; [|done]. destruct HS as [HS|HS]; congruence.
Qed.

Lemma Acct_evolves (s s' : CBS.t) :
  Acct s → evolves s s' → keeps_confirmed s s' →
  CBS.conferences s' = CBS.conferences s → Acct s'.
Proof.
  intros [AC AQ] E K C. split.
  - intros nm c. rewrite C, (confirmed_count_evolves s s' nm E K). apply AC.
  - by apply (queue_waiting_evolves s s').
Qed.

Lemma evict_loop_keeps (uid cn : string) (wl : list string) :
  ∀ (acc : list string) (s : CBS.t) r s',
  (∀ x b, x ∈ wl → CBS.bookings s !! x = Some b → Booking.status b ≠ CONFIRMED) →
  CBS.evict_loop uid cn wl acc s = (r, s') → keeps_confirmed s s'.
Proof.
  induction wl as [|a rest IH]; intros acc s r s' Hw Hrun; simpl in Hrun.
  - unfold CBS.ret in Hrun. injection Hrun as <- <-. apply keeps_confirmed_refl.
  - unfold CBS.bind at 1, CBS.waitlists_assign, CBS.modify in Hrun.
    set (s1 := CBS.set_waitlists (<[cn := rest]> (CBS.waitlists s)) s) in *.
    unfold CBS.bind at 1, CBS.read, CBS.bookings_at in Hrun.
    destruct (CBS.bookings s1 !! a) as [b|] eqn:Hb.
    + destruct (decide (Booking.userId b ≠ uid)) as [Hne|Heq].
      * apply (IH _ s1) in Hrun; [done|]. intros x bx Hx. apply Hw. by right.
      * unfold CBS.bind at 1 in Hrun. rewrite booking_setStatus_unfold, Hb in Hrun.
        set (s2 := CBS.set_bookings _ s1) in *.
        apply (IH _ s2) in Hrun.
        -- eapply keeps_confirmed_trans; [|exact Hrun].
           apply (keeps_confirmed_update s1 a b); [done|].
           intros Hst. exfalso. by apply (Hw a b); [left|..].
        -- intros x bx Hx. unfold s2. simpl. rewrite lookup_insert.
           destruct (decide (a = x)); [by intros [= <-]|].
           apply Hw. by right.
    + injection Hrun as <- <-. by apply keeps_confirmed_same_bookings.
Qed.

Lemma evict_from_keeps (uid cn : string) (s : CBS.t) r s' :
  queue_waiting s → CBS.evict_from uid cn s = (r, s') → keeps_confirmed s s'.
Proof.
  intros Q. unfold CBS.evict_from, CBS.bind at 1, CBS.waitlists_ref.
  unfold CBS.bind at 1.
  destruct (CBS.evict_loop uid cn _ [] _) as [rl s2] eqn:Hloop.
  apply evict_loop_keeps in Hloop.
  - destruct rl as [e|q]; [by intros [= <- <-]|].
    unfold CBS.waitlists_assign, CBS.modify. intros [= <- <-].
    eapply keeps_confirmed_trans; [exact Hloop|].
    by apply keeps_confirmed_same_bookings.
  - intros x b Hx Hb. destruct (Q _ _ Hx) as (b0 & Hb0 & Hst & _).
    simpl in Hb. congruence.
Qed.

Lemma evict_all_keeps (uid : string) (cns : list string) :
  ∀ (s : CBS.t) r s',
  queue_waiting s → CBS.evict_all uid cns s = (r, s') → keeps_confirmed s s'.
Proof.
  induction cns as [|cn rest IH]; intros s r s' Q Hrun; simpl in Hrun.
  - unfold CBS.ret in Hrun. injection Hrun as <- <-. apply keeps_confirmed_refl.
  - unfold CBS.bind at 1 in Hrun.
    destruct (CBS.evict_from uid cn s) as [r1 s1] eqn:H1.
    pose proof (evict_from_keeps _ _ _ _ _ Q H1) as K1.
    apply evict_from_spec in H1 as (E1 & _).
    destruct r1 as [e|[]]; [by injection Hrun as <- <-|].
    eapply keeps_confirmed_trans; [exact K1|].
    eapply IH; [|exact Hrun]. by apply (queue_waiting_evolves s s1).
Qed.

Lemma removeFromOverlappingWaitlists_keeps (uid : string) (c : Conference.t)
    (s : CBS.t) r s' :
  queue_waiting s →
  CBS.removeFromOverlappingWaitlists uid c s = (r, s') → keeps_confirmed s s'.
Proof. unfold CBS.removeFromOverlappingWaitlists. apply evict_all_keeps. Qed.

Lemma cancelAll_loop_keeps (cn : string) (wl : list string) :
  ∀ (s : CBS.t) r s',
  (∀ x b, x ∈ wl → CBS.bookings s !! x = Some b → Booking.status b ≠ CONFIRMED) →
  CBS.cancelAll_loop cn wl s = (r, s') → keeps_confirmed s s'.
Proof.
  induction wl as [|a rest IH]; intros s r s' Hw Hrun; simpl in Hrun.
  - unfold CBS.ret in Hrun. injection Hrun as <- <-. apply keeps_confirmed_refl.
  - unfold CBS.bind at 1, CBS.waitlists_assign, CBS.modify in Hrun.
    set (s1 := CBS.set_waitlists (<[cn := rest]> (CBS.waitlists s)) s) in *.
    unfold CBS.bind at 1 in Hrun. rewrite booking_setStatus_unfold in Hrun.
    destruct (CBS.bookings s1 !! a) as [b|] eqn:Hb.
    + set (s2 := CBS.set_bookings _ s1) in *.
      apply (IH s2) in Hrun.
      * eapply keeps_confirmed_trans; [|exact Hrun].
        apply (keeps_confirmed_update s1 a b); [done|].
        intros Hst. exfalso. by apply (Hw a b); [left|..].
      * intros x bx Hx. unfold s2. simpl. rewrite lookup_insert.
        destruct (decide (a = x)); [by intros [= <-]|].
        apply Hw. by right.
    + injection Hrun as <- <-. by apply keeps_confirmed_same_bookings.
Qed.

Lemma cancelAllWaitlistedBookings_keeps (cn : string) (s : CBS.t) r s' :
  queue_waiting s →
  CBS.cancelAllWaitlistedBookings cn s = (r, s') → keeps_confirmed s s'.
Proof.
  intros Q. unfold CBS.cancelAllWaitlistedBookings, CBS.bind at 1, CBS.waitlists_ref.
  intros Hrun. apply cancelAll_loop_keeps in Hrun; [done|].
  intros x b Hx Hb. destruct (Q _ _ Hx) as (b0 & Hb0 & Hst & _).
  simpl in Hb. congruence.
Qed.

Lemma processWaitlist_keeps (now : Z) (cn : string) (s : CBS.t) r s' :
  CBS.processWaitlist now cn s = (r, s') → keeps_confirmed s s'.
Proof.
  unfold CBS.processWaitlist, CBS.bind at 1, CBS.waitlists_ref.
  destruct (CBS.waitlist_of s cn) as [|h rest].
  - unfold CBS.ret. intros [= <- <-]. by apply keeps_confirmed_same_bookings.
  - unfold CBS.setWaitlistConfirmationDeadline.
    rewrite booking_setConfirmationDeadline_unfold. simpl.
    destruct (CBS.bookings s !! h) as [b|] eqn:Hb; intros [= <- <-].
    + intros x bx Hbx Hst. simpl. rewrite lookup_insert.
      destruct (decide (h = x)) as [<-|]; [|eauto].
      assert (bx = b) by congruence. subst bx. eauto.
    + by apply keeps_confirmed_same_bookings.
Qed.

Lemma Acct_empty : Acct CBS.empty.
Proof.
  split.
  - intros nm c H. unfold CBS.empty in H. simpl in H. by rewrite lookup_empty in H.
  - intros nm x. unfold CBS.waitlist_of, CBS.empty. simpl. rewrite lookup_empty.
    simpl. intros H. by apply elem_of_nil in H.
Qed.

Lemma Acct_addConference (nm location : string) (topics : list string)
    (start end_ : Timestamp) (slots : Z) (s : CBS.t) :
  Inv s → Acct s → Acct (CBS.addConference nm location topics start end_ slots s).2.
Proof.
  intros I [AC AQ]. unfold CBS.addConference.
  destruct (CBS.conferences s !! nm) eqn:Hnone; [done|].
  destruct (Conference.new nm location topics start end_ slots) as [e|c] eqn:Hnew;
    [done|].
  apply Conference_new_inr in Hnew as (_ & _ & _ & Ht & Ha & _).
  simpl. split; [|exact AQ].
  intros nm' c'. simpl. rewrite lookup_insert. destruct (decide (nm = nm')) as [<-|].
  - intros [= <-]. rewrite Ht, Ha. unfold confirmed_count. simpl.
    rewrite count_confirmed_none; [lia|].
    intros id b Hb Hc. destruct (inv_booking s I _ _ Hb) as [[x Hx] _]. congruence.
  - apply AC.
Qed.

Lemma Acct_addUser (uid : string) (topics : list string) (s : CBS.t) :
  Acct s → Acct (CBS.addUser uid topics s).2.
Proof.
  intros A. unfold CBS.addUser. destruct (CBS.users s !! uid); [done|].
  unfold User.new. destruct (50 <? length topics)%nat; [done|].
  destruct A as [AC AQ]. by split.
Qed.

Lemma Acct_commit_booking (uid id : string) (nb : Booking.t) (s : CBS.t) :
  CBS.bookings s !! id = None →
  (∀ nm c, CBS.conferences s !! nm = Some c →
     Z.of_nat (one_if (Booking.status nb = CONFIRMED ∧ Booking.conferenceName nb = nm)
               + confirmed_count s nm)
     = Conference.totalSlots c - Conference.availableSlots c) →
  (∀ nm x, x ∈ CBS.waitlist_of s nm →
     (∃ b, CBS.bookings s !! x = Some b
           ∧ Booking.status b ≠ CONFIRMED ∧ Booking.conferenceName b = nm)
     ∨ (x = id ∧ Booking.status nb ≠ CONFIRMED ∧ Booking.conferenceName nb = nm)) →
  Acct (commit_booking uid id nb s).2.
Proof.
  intros Hfresh HC HQ. unfold commit_booking. rewrite Hfresh.
  set (s1 := CBS.set_bookings (<[id := nb]> (CBS.bookings s)) s).
  assert (A1 : Acct s1).
  { split.
    - intros nm c Hc. unfold confirmed_count, s1. simpl.
      rewrite count_confirmed_insert by done. by apply HC.
    - intros nm x Hx. unfold s1. simpl. rewrite lookup_insert.
      destruct (HQ nm x Hx) as [(b & Hb & ? & ?)|(-> & ? & ?)].
      + destruct (decide (id = x)) as [<-|]; [congruence|eauto].
      + destruct (decide (id = id)); [eauto|done]. }
  destruct (CBS.users s1 !! uid); simpl; [|done].
  destruct A1 as [AC AQ]. by split.
Qed.

Lemma Acct_bookConference (now : Z) (indet : Timestamp) (uid cn : string) (s : CBS.t) :
  Inv s → Acct s → CBS.bookings s !! new_id now uid cn = None →
  Acct (CBS.bookConference now indet uid cn s).2.
Proof.
  intros I A Hfresh. rewrite bookConference_unfold.
  destruct (CBS.users s !! uid) as [u|] eqn:Hu; [|done].
  destruct (CBS.conferences s !! cn) as [c|] eqn:Hc; [|done].
  destruct (Conference.hasStarted now c); [done|].
  destruct (CBS.findActiveBooking uid cn s) as [[id ?]|]; [done|].
  destruct (CBS.hasConflictingBooking uid c s) as [e|[]] eqn:Hconf; [done|done|].
  cbv zeta. destruct (Conference.availableSlots c >? 0) eqn:Hav.
  - set (c' := Conference.set_availableSlots _ c).
    set (sA := CBS.set_conferences _ s).
    assert (EA : evolves s sA).
    { apply evolves_conference with c; [done|]. by apply conference_le_reserve. }
    assert (QA : queue_waiting sA) by exact (acct_queue s A).
    destruct (CBS.removeFromOverlappingWaitlists uid c' sA) as [r1 s1] eqn:Hrm.
    pose proof (removeFromOverlappingWaitlists_keeps _ _ _ _ _ QA Hrm) as K1.
    apply removeFromOverlappingWaitlists_spec in Hrm as (E1 & C1 & _ & He).
    destruct r1 as [e|[]].
    { exfalso. destruct (He e eq_refl) as [_ Hq]. apply Hq.
      apply (inv_queues _ (Inv_evolves _ _ I EA)). }
    assert (Hcount : ∀ nm, confirmed_count s1 nm = confirmed_count s nm).
    { intros nm. by rewrite (confirmed_count_evolves sA s1 nm E1 K1). }
    assert (Q1 : queue_waiting s1) by (by apply (queue_waiting_evolves sA s1)).
    assert (E : evolves s s1) by (eapply evolves_trans; eauto).
    apply Acct_commit_booking.
    + apply eq_None_not_Some. intros Hsome.
      apply (evolves_is_Some_booking s s1 _ E) in Hsome.
      rewrite Hfresh in Hsome. by destruct Hsome.
    + intros nm c1. rewrite C1, Hcount. unfold sA. simpl. rewrite lookup_insert.
      destruct (decide (cn = nm)) as [<-|Hne].
      * intros [= <-]. simpl. rewrite one_if_True by done.
        pose proof (acct_count s A cn c Hc). lia.
      * intros Hc1. rewrite one_if_False by (intros [_ ?]; done).
        apply (acct_count s A nm c1 Hc1).
    + intros nm x Hx. left. by apply Q1.
  - apply Acct_commit_booking.
    + done.
    + intros nm c1 Hc1. rewrite one_if_False by (by intros [? _]).
      apply (acct_count s A nm c1 Hc1).
    + intros nm x. rewrite waitlist_of_assign.
      destruct (decide (cn = nm)) as [<-|]; [|left; by apply (acct_queue s A)].
      intros Hx. apply elem_of_app in Hx as [Hx|Hx].
      * left. by apply (acct_queue s A).
      * apply list_elem_of_singleton in Hx. right. by split_and!.
Qed.

Lemma Acct_commit_cancel (id uid : string) (b : Booking.t) (s : CBS.t) :
  CBS.bookings s !! id = Some b →
  (∀ nm c, CBS.conferences s !! nm = Some c →
     Z.of_nat (confirmed_count s nm)
     = Z.of_nat (one_if (Booking.status b = CONFIRMED ∧ Booking.conferenceName b = nm))
       + (Conference.totalSlots c - Conference.availableSlots c)) →
  queue_waiting s →
  Acct (commit_cancel id uid s).2.
Proof.
  intros Hb HC HQ. unfold commit_cancel. rewrite Hb. simpl.
  set (s1 := CBS.set_bookings (<[id := Booking.setStatus CANCELED b]> (CBS.bookings s)) s).
  assert (A1 : Acct s1).
  { split.
    - intros nm c Hc. specialize (HC nm c Hc). unfold confirmed_count, s1 in *. simpl.
      pose proof (count_confirmed_update (CBS.bookings s) id b
                    (Booking.setStatus CANCELED b) nm Hb) as Hu.
      rewrite (one_if_False (Booking.status (Booking.setStatus CANCELED b) = CONFIRMED
                             ∧ _)) in Hu by (by intros [? _]).
      lia.
    - apply (queue_waiting_evolves s s1); [|done].
      apply evolves_booking with b; [done|]. apply booking_le_canceled. }
  destruct (CBS.users s !! uid); simpl; [|done].
  destruct A1 as [AC AQ]. by split.
Qed.

Lemma Acct_cancelBooking (now : Z) (id : string) (s : CBS.t) :
  Inv s → Acct s → Acct (CBS.cancelBooking now id s).2.
Proof.
  intros I A. rewrite cancelBooking_unfold.
  destruct (CBS.bookings s !! id) as [b|] eqn:Hb; [|done].
  destruct (decide (Booking.status b = CANCELED)); [done|].
  cbv zeta.
  destruct (CBS.conferences s !! Booking.conferenceName b) as [c|] eqn:Hc; [|done].
  destruct (Conference.hasStarted now c); [done|].
  destruct (Booking.status b) eqn:Hst; [| |done].
  - set (cn := Booking.conferenceName b) in *.
    set (sA := CBS.set_conferences _ s).
    assert (EA : evolves s sA).
    { apply evolves_conference with c; [done|]. apply conference_le_increase. }
    assert (Hone : (1 ≤ confirmed_count s cn)%nat).
    { unfold confirmed_count. rewrite (count_confirmed_lookup _ id b cn Hb).
      rewrite one_if_True by done. lia. }
    pose proof (acct_count s A cn c Hc) as Hacc.
    assert (Hinc : Conference.increaseAvailableSlots c
                   = Conference.set_availableSlots (Conference.availableSlots c + 1) c).
    { unfold Conference.increaseAvailableSlots.
      destruct (Z.ltb_spec (Conference.availableSlots c) (Conference.totalSlots c));
        [done|lia]. }
    destruct (CBS.processWaitlist now cn sA) as [r1 s1] eqn:Hp.
    pose proof (processWaitlist_keeps _ _ _ _ _ Hp) as K1.
    apply processWaitlist_spec in Hp as (E1 & C1 & _ & Hr).
    destruct r1 as [e|[]].
    { exfalso. destruct Hr as [_ Hq]. apply Hq.
      apply (inv_queues _ (Inv_evolves _ _ I EA)). }
    assert (E : evolves s s1) by (eapply evolves_trans; eauto).
    destruct (K1 id b Hb Hst) as (b1 & Hb1 & Hst1).
    destruct (evolves_booking_fwd _ _ _ _ E Hb) as (b1' & Hb1' & _ & _ & HC1 & _).
    assert (b1' = b1) by congruence. subst b1'.
    apply (Acct_commit_cancel id _ b1); [done| |].
    + intros nm c1. rewrite C1, (confirmed_count_evolves sA s1 nm E1 K1).
      change (confirmed_count sA nm) with (confirmed_count s nm).
      unfold sA. simpl. rewrite lookup_insert, HC1, Hst1.
      destruct (decide (cn = nm)) as [<-|Hne].
      * intros [= <-]. rewrite Hinc. simpl. rewrite one_if_True by done. lia.
      * intros Hc1. rewrite one_if_False by (intros [_ ?]; done).
        pose proof (acct_count s A nm c1 Hc1). lia.
    + apply (queue_waiting_evolves s s1 E), A.
  - set (sA := CBS.set_waitlists _ s).
    assert (EA : evolves s sA).
    { apply evolves_assign. intros x Hx. by apply list_elem_of_filter in Hx as [_ ?]. }
    apply (Acct_commit_cancel id _ b); [done| |].
    + intros nm c1 Hc1. rewrite one_if_False by (intros [? _]; congruence).
      change (confirmed_count sA nm) with (confirmed_count s nm).
      pose proof (acct_count s A nm c1 Hc1). lia.
    + apply (queue_waiting_evolves s sA EA), A.
Qed.

Lemma Acct_promote (id : string) (b : Booking.t) (c : Conference.t) (s : CBS.t) :
  Acct s → CBS.bookings s !! id = Some b → Booking.status b = WAITLISTED →
  CBS.conferences s !! Booking.conferenceName b = Some c →
  Acct (CBS.set_bookings (<[id := Booking.setStatus CONFIRMED b]> (CBS.bookings s))
          (CBS.set_waitlists
             (<[Booking.conferenceName b :=
                  filter (λ currentId, currentId ≠ id)
                    (CBS.waitlist_of s (Booking.conferenceName b))]>
                (CBS.waitlists s))
             (CBS.set_conferences
                (<[Booking.conferenceName b :=
                     Conference.set_availableSlots (Conference.availableSlots c - 1) c]>
                   (CBS.conferences s)) s))).
Proof.
  intros [AC AQ] Hb Hst Hc. set (cn := Booking.conferenceName b) in *. split.
  - intros nm c1. simpl. unfold confirmed_count. simpl.
    pose proof (count_confirmed_update (CBS.bookings s) id b
                  (Booking.setStatus CONFIRMED b) nm Hb) as Hu.
    rewrite (one_if_False (Booking.status b = CONFIRMED ∧ _)) in Hu
      by (intros [? _]; congruence).
    rewrite lookup_insert. destruct (decide (cn = nm)) as [<-|Hne].
    + intros [= <-]. simpl. rewrite one_if_True in Hu by done.
      pose proof (AC cn c Hc) as Hacc. unfold confirmed_count in Hacc. lia.
    + intros Hc1. rewrite one_if_False in Hu by (intros [_ ?]; done).
      pose proof (AC nm c1 Hc1) as Hacc. unfold confirmed_count in Hacc. lia.
  - intros nm x Hx.
    assert (Hx' : x ∈ CBS.waitlist_of s nm ∧ (nm = cn → x ≠ id)).
    { revert Hx. unfold CBS.waitlist_of. simpl. rewrite lookup_insert.
      destruct (decide (cn = nm)) as [<-|]; simpl.
      - intros Hx. by apply list_elem_of_filter in Hx as [? ?].
      - intros Hx. split; [done|]. congruence. }
    destruct Hx' as [Hin Hne]. destruct (AQ _ _ Hin) as (bx & Hbx & Hsx & Hcx).
    simpl. rewrite lookup_insert. destruct (decide (id = x)) as [<-|]; [|eauto].
    exfalso. assert (bx = b) by congruence. subst bx. by apply Hne.
Qed.

Lemma Acct_confirmWaitlistedBooking (now : Z) (id : string) (s : CBS.t) :
  Inv s → Acct s → Acct (CBS.confirmWaitlistedBooking now id s).2.
Proof.
  intros I A. rewrite confirmWaitlistedBooking_unfold.
  destruct (CBS.bookings s !! id) as [b|] eqn:Hb; [|done].
  destruct (decide (Booking.status b ≠ WAITLISTED)) as [|Hst]; [done|].
  apply dec_stable in Hst. cbv zeta.
  destruct (CBS.conferences s !! Booking.conferenceName b) as [c|] eqn:Hc; [|done].
  destruct (Conference.hasStarted now c).
  { destruct (CBS.cancelAllWaitlistedBookings _ s) as [r1 s1] eqn:Hca.
    pose proof (cancelAllWaitlistedBookings_keeps _ _ _ _ (acct_queue s A) Hca) as K1.
    apply cancelAllWaitlistedBookings_spec in Hca as (E1 & C1 & _).
    pose proof (Acct_evolves s s1 A E1 K1 C1). by destruct r1 as [e|[]]. }
  destruct (now >? time (Booking.confirmationDeadline b)).
  { set (sA := CBS.set_waitlists _ s).
    assert (EA : evolves s sA).
    { apply evolves_assign. intros x Hx. apply elem_of_app in Hx as [Hx|Hx].
      - by apply list_elem_of_filter in Hx as [_ ?].
      - case_bool_decide; [|by apply elem_of_nil in Hx].
        apply list_elem_of_singleton in Hx. by subst. }
    assert (AA : Acct sA).
    { apply (Acct_evolves s sA A EA); [|done]. by apply keeps_confirmed_same_bookings. }
    destruct (Conference.hasSlotAvailable c); [|done].
    destruct (CBS.processWaitlist now _ sA) as [r1 s1] eqn:Hp.
    pose proof (processWaitlist_keeps _ _ _ _ _ Hp) as K1.
    apply processWaitlist_spec in Hp as (E1 & C1 & _).
    pose proof (Acct_evolves sA s1 AA E1 K1 C1). by destruct r1 as [e|[]]. }
  destruct (CBS.hasConflictingBooking _ c s) as [e|[]] eqn:Hconf; [done|done|].
  destruct (Conference.availableSlots c >? 0) eqn:Hav; [|done].
  pose proof (Acct_promote id b c s A Hb Hst Hc) as AC.
  set (c' := Conference.set_availableSlots _ c) in *.
  set (sC := CBS.set_bookings _ _) in *.
  destruct (CBS.removeFromOverlappingWaitlists _ c' sC) as [r1 s1] eqn:Hrm.
  pose proof (removeFromOverlappingWaitlists_keeps _ _ _ _ _ (acct_queue sC AC) Hrm) as K1.
  apply removeFromOverlappingWaitlists_spec in Hrm as (E1 & C1 & _).
  pose proof (Acct_evolves sC s1 AC E1 K1 C1). by destruct r1 as [e|[]].
Qed.

Lemma Acct_exec (e : CBS.event) (s : CBS.t) :
  Inv s → Acct s →
  match CBS.ev_call e with
  | CBS.BookConference uid cn => CBS.bookings s !! new_id (CBS.ev_now e) uid cn = None
  | _ => True
  end →
  Acct (CBS.exec e s).2.
Proof.
  intros I A. unfold CBS.exec, CBS.fmap_result. destruct (CBS.ev_call e); simpl.
  - intros _. by apply Acct_addConference.
  - intros _. by apply Acct_addUser.
  - intros Hfresh. by apply Acct_bookConference.
  - intros _. by apply Acct_cancelBooking.
  - intros _. by apply Acct_confirmWaitlistedBooking.
  - done.
Qed.

Lemma Acct_run (es : list CBS.event) :
  ∀ s, Inv s → Acct s → fresh_ids es s → Acct (CBS.run es s).
Proof.
  induction es as [|e es IH]; intros s I A Hf; simpl; [done|].
  destruct Hf as [Hf Hrest]. apply IH; [by apply Inv_exec| |done].
  by apply Acct_exec.
Qed.

(** The free-slot counter of every conference of a reachable system is
    between 0 and the total: the range half of claim C1 holds as stated. *)
Lemma slots_in_range (es : list CBS.event) (nm : string) (c : Conference.t) :
  CBS.conferences (CBS.run es CBS.empty) !! nm = Some c →
  0 ≤ Conference.availableSlots c ≤ Conference.totalSlots c.
Proof.
  intros Hc.
  assert (I : Inv (CBS.run es CBS.empty)).
  { apply reachable_Inv, reachable_run. constructor. }
  by destruct (inv_conference _ I nm c Hc).
Qed.

(** The counting half of claim C1 holds along every sequence of calls in
    which no generated booking id collides with an id already in the
    booking table. *)
Lemma slot_accounting_without_collision (es : list CBS.event) :
  fresh_ids es CBS.empty → slot_accounting (CBS.run es CBS.empty).
Proof.
  intros Hf nm c Hc. split; [by apply (slots_in_range es nm)|].
  apply (acct_count _ (Acct_run es CBS.empty Inv_empty Acct_empty Hf) nm c Hc).
Qed.

(** ** No [out_of_range] in a reachable system

    The lookups with [at] never miss in a system that satisfies the
    invariant, so every failure there is one of the [runtime_error]s. *)

Lemma commit_booking_ok (uid id : string) (nb : Booking.t) (s : CBS.t) :
  is_Some (CBS.users s !! uid) → (commit_booking uid id nb s).1 = inr id.
Proof.
  intros [u Hu]. unfold commit_booking.
  destruct (CBS.bookings s !! id); simpl; by rewrite Hu.
Qed.

Lemma commit_cancel_ok (id uid : string) (s : CBS.t) :
  is_Some (CBS.bookings s !! id) → is_Some (CBS.users s !! uid) →
  (commit_cancel id uid s).1 = inr true.
Proof.
  intros [b Hb] [u Hu]. unfold commit_cancel. rewrite Hb. simpl. by rewrite Hu.
Qed.

Lemma evolves_users_is_Some (s s' : CBS.t) (uid : string) :
  evolves s s' → is_Some (CBS.users s !! uid) → is_Some (CBS.users s' !! uid).
Proof. intros E. by rewrite (ev_users _ _ E). Qed.

Lemma exec_no_out_of_range (e : CBS.event) (s : CBS.t) :
  Inv s → (CBS.exec e s).1 ≠ inl out_of_range.
Proof.
  intros I. unfold CBS.exec, CBS.fmap_result. destruct (CBS.ev_call e); simpl.
  - unfold CBS.addConference, Conference.new. repeat case_match; simplify_eq/=; done.
  - unfold CBS.addUser, User.new. repeat case_match; simplify_eq/=; done.
  - rewrite bookConference_unfold.
    destruct (CBS.users s !! userId) as [u|] eqn:Hu; [|done].
    destruct (CBS.conferences s !! conferenceName) as [c|] eqn:Hc; [|done].
    destruct (Conference.hasStarted _ c); [done|].
    destruct (CBS.findActiveBooking _ _ s) as [[id ?]|]; [done|].
    destruct (hasConflictingBooking_total s userId c I) as [x Hx]; [eauto|].
    rewrite Hx. destruct x; [done|]. cbv zeta.
    destruct (Conference.availableSlots c >? 0) eqn:Hav.
    + set (sA := CBS.set_conferences _ s).
      assert (EA : evolves s sA).
      { apply evolves_conference with c; [done|]. by apply conference_le_reserve. }
      destruct (CBS.removeFromOverlappingWaitlists _ _ sA) as [r1 s1] eqn:Hrm.
      apply removeFromOverlappingWaitlists_spec in Hrm as (E1 & _ & _ & He).
      destruct r1 as [e1|[]].
      { exfalso. destruct (He e1 eq_refl) as [_ Hq]. apply Hq.
        apply (inv_queues _ (Inv_evolves _ _ I EA)). }
      rewrite commit_booking_ok; [done|].
      apply (evolves_users_is_Some sA s1 _ E1). simpl. rewrite Hu. eauto.
    + rewrite commit_booking_ok; [done|]. simpl. rewrite Hu. eauto.
  - rewrite cancelBooking_unfold.
    destruct (CBS.bookings s !! bookingId) as [b|] eqn:Hb; [|done].
    destruct (decide (Booking.status b = CANCELED)); [done|]. cbv zeta.
    destruct (inv_booking s I _ _ Hb) as [[c Hc] (u & Hu & _)]. rewrite Hc.
    destruct (Conference.hasStarted _ c); [done|].
    destruct (Booking.status b) eqn:Hst; [| |done].
    + set (sA := CBS.set_conferences _ s).
      assert (EA : evolves s sA).
      { apply evolves_conference with c; [done|]. apply conference_le_increase. }
      destruct (CBS.processWaitlist _ _ sA) as [r1 s1] eqn:Hp.
      apply processWaitlist_spec in Hp as (E1 & _ & _ & Hr).
      destruct r1 as [e1|[]].
      { exfalso. destruct Hr as [_ Hq]. apply Hq.
        apply (inv_queues _ (Inv_evolves _ _ I EA)). }
      rewrite commit_cancel_ok; [done| |].
      * apply (evolves_is_Some_booking sA s1 _ E1). simpl. rewrite Hb. eauto.
      * apply (evolves_users_is_Some sA s1 _ E1). simpl. rewrite Hu. eauto.
    + rewrite commit_cancel_ok; [done| |]; simpl; [rewrite Hb|rewrite Hu]; eauto.
  - rewrite confirmWaitlistedBooking_unfold.
    destruct (CBS.bookings s !! bookingId) as [b|] eqn:Hb; [|done].
    destruct (decide (Booking.status b ≠ WAITLISTED)) as [|Hst]; [done|].
    apply dec_stable in Hst. cbv zeta.
    destruct (inv_booking s I _ _ Hb) as [[c Hc] (u & Hu & _)]. rewrite Hc.
    destruct (Conference.hasStarted _ c).
    { destruct (CBS.cancelAllWaitlistedBookings _ s) as [r1 s1] eqn:Hca.
      apply cancelAllWaitlistedBookings_spec in Hca as (_ & _ & _ & Hr).
      destruct r1 as [e1|[]]; [|done]. exfalso. destruct Hr as [_ Hq].
      apply Hq, I. }
    destruct (_ >? time (Booking.confirmationDeadline b)).
    { set (sA := CBS.set_waitlists _ s).
      assert (EA : evolves s sA).
      { apply evolves_assign. intros x Hx. apply elem_of_app in Hx as [Hx|Hx].
        - by apply list_elem_of_filter in Hx as [_ ?].
        - case_bool_decide; [|by apply elem_of_nil in Hx].
          apply list_elem_of_singleton in Hx. by subst. }
      destruct (Conference.hasSlotAvailable c); [|done].
      destruct (CBS.processWaitlist _ _ sA) as [r1 s1] eqn:Hp.
      apply processWaitlist_spec in Hp as (_ & _ & _ & Hr).
      destruct r1 as [e1|[]]; [|done]. exfalso. destruct Hr as [_ Hq].
      apply Hq. apply (inv_queues _ (Inv_evolves _ _ I EA)). }
    destruct (hasConflictingBooking_total s (Booking.userId b) c I) as [x Hx];
      [eauto|].
    rewrite Hx. destruct x; [done|].
    destruct (Conference.availableSlots c >? 0) eqn:Hav; [|done].
    pose proof (Inv_promote bookingId b c s I Hb Hst Hc Hx Hav) as IC.
    destruct (CBS.removeFromOverlappingWaitlists _ _ _) as [r1 s1] eqn:Hrm.
    apply removeFromOverlappingWaitlists_spec in Hrm as (_ & _ & _ & He).
    destruct r1 as [e1|[]]; [|done]. exfalso.
    destruct (He e1 eq_refl) as [_ Hq]. apply Hq, IC.
  - unfold CBS.read, CBS.getBookingStatus. simpl.
    destruct (CBS.bookings s !! bookingId) as [b|] eqn:Hb; [|done].
    destruct (inv_booking s I _ _ Hb) as [[c Hc] _]. rewrite Hc.
    by destruct (Booking.status b).
Qed.

(** * The claims *)

(** ** C8: the overlap test *)

(** C8. [isTimeOverlapping] answers true exactly when it is not the case
    that the given window ends at or before the conference starts or
    starts at or after the conference ends; between two conferences the
    test gives the same answer in both directions; and a window that ends
    exactly when the conference starts, or starts exactly when it ends,
    does not overlap it. *)
Theorem C8_overlap_test :
  (∀ (c : Conference.t) (start end_ : Timestamp),
     Conference.isTimeOverlapping c start end_ = true ↔
     ¬ (time end_ ≤ time (Conference.startTime c)
        ∨ time start >= time (Conference.endTime c)))
  ∧ (∀ c1 c2 : Conference.t,
       Conference.isTimeOverlapping c1 (Conference.startTime c2) (Conference.endTime c2)
       = Conference.isTimeOverlapping c2 (Conference.startTime c1) (Conference.endTime c1))
  ∧ (∀ (c : Conference.t) (start : Timestamp),
       Conference.isTimeOverlapping c start (Conference.startTime c) = false)
  ∧ (∀ (c : Conference.t) (end_ : Timestamp),
       Conference.isTimeOverlapping c (Conference.endTime c) end_ = false).
Proof.
  split_and!.
  - apply isTimeOverlapping_spec.
  - apply isTimeOverlapping_sym.
  - intros c start. apply not_true_iff_false. rewrite isTimeOverlapping_spec. lia.
  - intros c end_. apply not_true_iff_false. rewrite isTimeOverlapping_spec. lia.
Qed.

(** ** C2: confirmed bookings of one user never overlap *)

(** C2. After any sequence of calls on the empty system, two different
    bookings of the same user that are both CONFIRMED belong to
    conferences whose time windows do not overlap. *)
Theorem C2_confirmed_never_overlap (es : list CBS.event)
    (id1 id2 : string) (b1 b2 : Booking.t) (c1 c2 : Conference.t) :
  let s := CBS.run es CBS.empty in
  id1 ≠ id2 →
  CBS.bookings s !! id1 = Some b1 → CBS.bookings s !! id2 = Some b2 →
  Booking.userId b1 = Booking.userId b2 →
  Booking.status b1 = CONFIRMED → Booking.status b2 = CONFIRMED →
  CBS.conferences s !! Booking.conferenceName b1 = Some c1 →
  CBS.conferences s !! Booking.conferenceName b2 = Some c2 →
  Conference.isTimeOverlapping c1 (Conference.startTime c2) (Conference.endTime c2)
  = false.
Proof.
  intros s. apply (inv_no_overlap s).
  apply reachable_Inv, reachable_run. constructor.
Qed.

(** ** C3: what a failing call leaves behind *)

Lemma commit_booking_error (uid id : string) (nb : Booking.t) (s : CBS.t)
    (e : exn) (s' : CBS.t) :
  commit_booking uid id nb s = (inl e, s') → e = out_of_range.
Proof.
  unfold commit_booking.
  destruct (CBS.users _ !! uid); intros [= <- <-]; done.
Qed.

Lemma commit_cancel_error (id uid : string) (s : CBS.t) (e : exn) (s' : CBS.t) :
  commit_cancel id uid s = (inl e, s') → e = out_of_range.
Proof.
  unfold commit_cancel. destruct (CBS.bookings s !! id); [|by intros [= <- <-]].
  simpl. destruct (CBS.users s !! uid); by intros [= <- <-].
Qed.

Lemma bookConference_failure (now : Z) (indet : Timestamp) (uid cn : string)
    (s s' : CBS.t) (what : string) :
  CBS.bookConference now indet uid cn s = (inl (runtime_error what), s') →
  s' = s ∧ what ≠ msg_confirm_started.
Proof.
  rewrite bookConference_unfold.
  destruct (CBS.users s !! uid) as [u|]; [|by intros [= <- <-]].
  destruct (CBS.conferences s !! cn) as [c|]; [|by intros [= <- <-]].
  destruct (Conference.hasStarted now c); [by intros [= <- <-]|].
  destruct (CBS.findActiveBooking uid cn s) as [[id ?]|]; [by intros [= <- <-]|].
  destruct (CBS.hasConflictingBooking uid c s) as [e|[]] eqn:Hconf.
  { apply hasConflictingBooking_error in Hconf as ->. done. }
  { by intros [= <- <-]. }
  cbv zeta. destruct (Conference.availableSlots c >? 0).
  - destruct (CBS.removeFromOverlappingWaitlists _ _ _) as [[e|[]] s1] eqn:Hrm.
    + apply removeFromOverlappingWaitlists_spec in Hrm as (_ & _ & _ & He).
      destruct (He e eq_refl) as [-> _]. done.
    + intros Hcb. by apply commit_booking_error in Hcb.
  - intros Hcb. by apply commit_booking_error in Hcb.
Qed.

Lemma cancelBooking_failure (now : Z) (id : string) (s s' : CBS.t) (what : string) :
  CBS.cancelBooking now id s = (inl (runtime_error what), s') →
  s' = s ∧ what ≠ msg_confirm_started.
Proof.
  rewrite cancelBooking_unfold.
  destruct (CBS.bookings s !! id) as [b|]; [|by intros [= <- <-]].
  destruct (decide (Booking.status b = CANCELED)); [by intros [= <- <-]|].
  cbv zeta.
  destruct (CBS.conferences s !! Booking.conferenceName b) as [c|]; [|done].
  destruct (Conference.hasStarted now c); [by intros [= <- <-]|].
  destruct (Booking.status b).
  - destruct (CBS.processWaitlist now _ _) as [[e|[]] s1] eqn:Hp.
    + apply processWaitlist_spec in Hp as (_ & _ & _ & -> & _). done.
    + intros Hcc. by apply commit_cancel_error in Hcc.
  - intros Hcc. by apply commit_cancel_error in Hcc.
  - intros Hcc. by apply commit_cancel_error in Hcc.
Qed.

Lemma confirmWaitlistedBooking_failure (now : Z) (id : string) (s s' : CBS.t)
    (what : string) :
  CBS.confirmWaitlistedBooking now id s = (inl (runtime_error what), s') →
  (what ≠ msg_confirm_started ∧ s' = s)
  ∨ (what = msg_confirm_started
     ∧ ∃ b c, CBS.bookings s !! id = Some b ∧ Booking.status b = WAITLISTED
         ∧ CBS.conferences s !! Booking.conferenceName b = Some c
         ∧ Conference.hasStarted now c = true
         ∧ CBS.conferences s' = CBS.conferences s
         ∧ CBS.users s' = CBS.users s
         ∧ CBS.waitlist_of s' (Booking.conferenceName b) = []
         ∧ (∀ nm, nm ≠ Booking.conferenceName b →
                  CBS.waitlist_of s' nm = CBS.waitlist_of s nm)
         ∧ (∀ x, CBS.bookings s' !! x =
                 if decide (x ∈ CBS.waitlist_of s (Booking.conferenceName b))
                 then Booking.setStatus CANCELED <$> CBS.bookings s !! x
                 else CBS.bookings s !! x)).
Proof.
  rewrite confirmWaitlistedBooking_unfold.
  destruct (CBS.bookings s !! id) as [b|] eqn:Hb; [|by intros [= <- <-]; left].
  destruct (decide (Booking.status b ≠ WAITLISTED)) as [|Hst];
    [by intros [= <- <-]; left|].
  apply dec_stable in Hst. cbv zeta.
  destruct (CBS.conferences s !! Booking.conferenceName b) as [c|] eqn:Hc; [|done].
  destruct (Conference.hasStarted now c) eqn:Hs.
  { destruct (CBS.cancelAllWaitlistedBookings _ s) as [[e|[]] s1] eqn:Hca.
    - apply cancelAllWaitlistedBookings_spec in Hca as (_ & _ & _ & -> & _). done.
    - intros [= <- <-]. right. split; [done|].
      apply cancelAllWaitlistedBookings_spec in Hca as (E & C & W & Q & B).
      exists b, c. split_and!; auto. apply (ev_users _ _ E). }
  destruct (now >? time (Booking.confirmationDeadline b)).
  { destruct (Conference.hasSlotAvailable c); [|done].
    destruct (CBS.processWaitlist now _ _) as [[e|[]] s1] eqn:Hp; [|done].
    apply processWaitlist_spec in Hp as (_ & _ & _ & -> & _). done. }
  destruct (CBS.hasConflictingBooking _ c s) as [e|[]] eqn:Hconf.
  { apply hasConflictingBooking_error in Hconf as ->. done. }
  { by intros [= <- <-]; left. }
  destruct (Conference.availableSlots c >? 0); [|by intros [= <- <-]; left].
  cbv zeta.
  destruct (CBS.removeFromOverlappingWaitlists _ _ _) as [[e|[]] s1] eqn:Hrm; [|done].
  apply removeFromOverlappingWaitlists_spec in Hrm as (_ & _ & _ & He).
  destruct (He e eq_refl) as [-> _]. done.
Qed.

(** C3, as amended. A call that fails with a [runtime_error] leaves the
    four tables exactly as they were, with one exception:
    [confirmWaitlistedBooking] failing because the conference has started.
    That call leaves the conference table and the ledgers as they were,
    empties the waitlist of the booking's conference, leaves the other
    waitlists alone, and sets every booking whose id was queued there to
    CANCELED, changing no other booking. *)
Theorem C3_failing_call_state (e : CBS.event) (s : CBS.t) (what : string) :
  (CBS.exec e s).1 = inl (runtime_error what) →
  (what ≠ msg_confirm_started → (CBS.exec e s).2 = s)
  ∧ (what = msg_confirm_started →
     ∃ id b,
       CBS.ev_call e = CBS.ConfirmWaitlistedBooking id
       ∧ CBS.bookings s !! id = Some b
       ∧ CBS.conferences (CBS.exec e s).2 = CBS.conferences s
       ∧ CBS.users (CBS.exec e s).2 = CBS.users s
       ∧ CBS.waitlist_of (CBS.exec e s).2 (Booking.conferenceName b) = []
       ∧ (∀ nm, nm ≠ Booking.conferenceName b →
                CBS.waitlist_of (CBS.exec e s).2 nm = CBS.waitlist_of s nm)
       ∧ (∀ x, CBS.bookings (CBS.exec e s).2 !! x =
               if decide (x ∈ CBS.waitlist_of s (Booking.conferenceName b))
               then Booking.setStatus CANCELED <$> CBS.bookings s !! x
               else CBS.bookings s !! x)).
Proof.
  unfold CBS.exec, CBS.fmap_result. destruct (CBS.ev_call e) eqn:Hcall; simpl.
  - unfold CBS.addConference. destruct (CBS.conferences s !! nm).
    + simpl. intros [= <-]. split; [done|by compute].
    + destruct (Conference.new _ _ _ _ _ _) as [e'|c] eqn:Hnew; simpl; [|done].
      intros [= ->]. split; [done|]. intros ->. exfalso. revert Hnew.
      unfold Conference.new. repeat case_match; by compute.
  - unfold CBS.addUser. destruct (CBS.users s !! userId).
    + simpl. intros [= <-]. split; [done|by compute].
    + unfold User.new. destruct (50 <? length topics)%nat; simpl; [|done].
      intros [= <-]. split; [done|by compute].
  - destruct (CBS.bookConference _ _ _ _ s) as [[e'|v] s'] eqn:Hrun; simpl; [|done].
    intros [= ->]. by destruct (bookConference_failure _ _ _ _ _ _ _ Hrun) as [-> ?].
  - destruct (CBS.cancelBooking _ _ s) as [[e'|v] s'] eqn:Hrun; simpl; [|done].
    intros [= ->]. by destruct (cancelBooking_failure _ _ _ _ _ Hrun) as [-> ?].
  - destruct (CBS.confirmWaitlistedBooking _ _ s) as [[e'|v] s'] eqn:Hrun; simpl;
      [|done].
    intros [= ->]. apply confirmWaitlistedBooking_failure in Hrun
      as [[Hne ->]|[-> (b & c & Hb & _ & _ & _ & HC & HU & HQ & HW & HB)]].
    + done.
    + split; [done|]. intros _. exists bookingId, b. split_and!; auto.
  - unfold CBS.read, CBS.getBookingStatus. simpl.
    destruct (CBS.bookings s !! bookingId) as [b|]; [|by intros [= <-]].
    destruct (Booking.status b); try done.
    by destruct (CBS.conferences s !! Booking.conferenceName b).
Qed.

(** ** C7: when [bookConference] reports a conflict *)

Lemma findActiveBooking_Some (s : CBS.t) (uid cn id : string) (b : Booking.t) :
  CBS.findActiveBooking uid cn s = Some (id, b) → has_active_booking s uid cn.
Proof.
  unfold CBS.findActiveBooking. intros H. apply find_some in H as [Hin Hp].
  apply list_elem_of_In, elem_of_map_items in Hin.
  apply bool_decide_eq_true in Hp as (? & ? & ?). by exists id, b.
Qed.

Lemma findActiveBooking_None (s : CBS.t) (uid cn : string) :
  CBS.findActiveBooking uid cn s = None → ¬ has_active_booking s uid cn.
Proof.
  unfold CBS.findActiveBooking. intros H (id & b & Hb & HU & HC & HS).
  assert (Hin : In (id, b) (map_items (CBS.bookings s))).
  { by apply list_elem_of_In, elem_of_map_items. }
  pose proof (find_none _ _ H (id, b) Hin) as Hp. simpl in Hp.
  apply bool_decide_eq_false in Hp. by apply Hp.
Qed.

Lemma commit_booking_not_Conflict (uid id : string) (nb : Booking.t) (s : CBS.t) :
  ¬ Conflict (commit_booking uid id nb s).1.
Proof.
  unfold commit_booking. destruct (CBS.users _ !! uid); simpl;
    intros [[x Hx]|Hx]; discriminate.
Qed.

Lemma bookConference_Conflict (now : Z) (indet : Timestamp) (uid cn : string)
    (s : CBS.t) (c : Conference.t) :
  Inv s → is_Some (CBS.users s !! uid) → CBS.conferences s !! cn = Some c →
  Conference.hasStarted now c = false →
  Conflict (CBS.bookConference now indet uid cn s).1 ↔
  has_active_booking s uid cn ∨ holds_confirmed_overlapping s uid c.
Proof.
  intros I [u Hu] Hc Hs. rewrite bookConference_unfold, Hu, Hc, Hs.
  destruct (CBS.findActiveBooking uid cn s) as [[id b]|] eqn:Hf.
  { split; [|left; eauto]. intros _. left. eapply findActiveBooking_Some, Hf. }
  apply findActiveBooking_None in Hf.
  destruct (hasConflictingBooking_total s uid c I) as [r Hr]; [eauto|].
  rewrite Hr. destruct r.
  { split; [|by right]. intros _. right. by apply hasConflictingBooking_true. }
  apply hasConflictingBooking_false in Hr. cbv zeta.
  split; [|intros [?|?]; done]. intros HC. exfalso.
  destruct (Conference.availableSlots c >? 0).
  - destruct (CBS.removeFromOverlappingWaitlists _ _ _) as [[e|[]] s1] eqn:Hrm.
    + apply removeFromOverlappingWaitlists_spec in Hrm as (_ & _ & _ & He).
      destruct (He e eq_refl) as [-> _]. destruct HC as [[x Hx]|Hx]; discriminate.
    + by apply commit_booking_not_Conflict in HC.
  - by apply commit_booking_not_Conflict in HC.
Qed.

(** With "holds" read through the ledger, the two conflict errors are
    raised exactly when the booking table has a non-CANCELED booking of
    that user for that conference, or the user holds (has in the ledger)
    a booking that the table shows CONFIRMED for a conference whose
    window overlaps the requested one. Every CONFIRMED booking that the
    table records for the user counts as held; and a user with no live
    booking for the conference who holds no CONFIRMED booking at all,
    whatever WAITLISTED bookings are held, never gets a conflict. *)
Lemma conflict_exactly_when_by_ledger (es : list CBS.event) (now : Z) (indet : Timestamp)
    (uid cn : string) (u : User.t) (c : Conference.t) :
  let s := CBS.run es CBS.empty in
  CBS.users s !! uid = Some u →
  CBS.conferences s !! cn = Some c →
  Conference.hasStarted now c = false →
  (Conflict (CBS.bookConference now indet uid cn s).1 ↔
   has_active_booking s uid cn ∨ holds_confirmed_overlapping s uid c)
  ∧ (∀ id b c',
       CBS.bookings s !! id = Some b → Booking.userId b = uid →
       Booking.status b = CONFIRMED →
       CBS.conferences s !! Booking.conferenceName b = Some c' →
       Conference.isTimeOverlapping c' (Conference.startTime c) (Conference.endTime c)
       = true →
       Conflict (CBS.bookConference now indet uid cn s).1)
  ∧ (¬ has_active_booking s uid cn →
     (∀ id b, holds s uid id b → Booking.status b ≠ CONFIRMED) →
     ¬ Conflict (CBS.bookConference now indet uid cn s).1).
Proof.
  intros s Hu Hc Hs.
  assert (I : Inv s) by (apply reachable_Inv, reachable_run; constructor).
  pose proof (bookConference_Conflict now indet uid cn s c I
                ltac:(eauto) Hc Hs) as Hiff.
  split_and!; [exact Hiff| |].
  - intros id b c' Hb HU Hst Hc' Hov. apply Hiff. right.
    exists id, b, c'. split_and!; auto.
    rewrite <- HU. apply Inv_holds; [done..|congruence].
  - intros Hna Hw HC. apply Hiff in HC as [HC|HC]; [done|].
    destruct HC as (id & b & c' & Hh & Hst & _). by apply (Hw id b).
Qed.

(** *** Without a collision the ledger names the user's own bookings

    As long as no generated id is already a key of the booking table,
    every id of a ledger names a booking of the ledger's user, and the
    conflict errors are raised exactly when the table has such a booking
    of the user. *)

Lemma ledger_own_helper (s s' : CBS.t) : evolves s s' → ledger_own s → ledger_own s'.
Proof.
  intros E L uid u id st Hu Hl. rewrite (ev_users _ _ E) in Hu.
  destruct (L _ _ _ _ Hu Hl) as (b & Hb & HU).
  destruct (evolves_booking_fwd _ _ _ _ E Hb) as (b' & Hb' & (_ & HU' & _)).
  exists b'. split; [done|congruence].
Qed.

Lemma ledger_own_update_booking (s : CBS.t) (id : string) (b b' : Booking.t) :
  CBS.bookings s !! id = Some b → Booking.userId b' = Booking.userId b →
  ledger_own s → ledger_own (CBS.set_bookings (<[id := b']> (CBS.bookings s)) s).
Proof.
  intros Hb HU L uid u id' st Hu Hl. simpl in *.
  destruct (L _ _ _ _ Hu Hl) as (b0 & Hb0 & HU0).
  destruct (decide (id = id')) as [<-|Hne].
  - rewrite lookup_insert_eq. exists b'. split; [done|congruence].
  - rewrite lookup_insert_ne by done. eauto.
Qed.

Lemma ledger_own_commit_booking (uid id : string) (nb : Booking.t) (s : CBS.t) :
  CBS.bookings s !! id = None → Booking.userId nb = uid →
  ledger_own s → ledger_own (commit_booking uid id nb s).2.
Proof.
  intros Hfresh HU L. unfold commit_booking. rewrite Hfresh. cbv zeta.
  set (s1 := CBS.set_bookings (<[id := nb]> (CBS.bookings s)) s).
  assert (L1 : ledger_own s1).
  { intros uid' u' id' st' Hu' Hl'. destruct (L _ _ _ _ Hu' Hl') as (b & Hb & HUb).
    exists b. split; [|done]. unfold s1. simpl. rewrite lookup_insert_ne; [done|].
    intros <-. congruence. }
  destruct (CBS.users s1 !! uid) as [u|] eqn:Hu; cbn [snd]; [|exact L1].
  intros uid' u' id' st' Hu' Hl'. simpl in Hu'. simpl.
  destruct (decide (uid = uid')) as [<-|Hne].
  - rewrite lookup_insert_eq in Hu'. injection Hu' as <-.
    unfold User.addBooking in Hl'. simpl in Hl'.
    destruct (decide (id = id')) as [<-|Hne'].
    + rewrite lookup_insert_eq. eauto.
    + rewrite lookup_insert_ne in Hl' by done.
      destruct (L1 _ _ _ _ Hu Hl') as (b & Hb & HUb). eauto.
  - rewrite lookup_insert_ne in Hu' by done.
    destruct (L1 _ _ _ _ Hu' Hl') as (b & Hb & HUb). eauto.
Qed.

Lemma removeBooking_lookup (id id' : string) (st : BookingStatus) (u : User.t) :
  User.bookingStatuses (User.removeBooking id u) !! id' = Some st →
  User.bookingStatuses u !! id' = Some st.
Proof.
  unfold User.removeBooking. destruct (User.bookingStatuses u !! id); [|done].
  simpl. intros H. apply lookup_delete_Some in H as [_ H]. done.
Qed.

Lemma ledger_own_commit_cancel (id uid : string) (s : CBS.t) :
  ledger_own s → ledger_own (commit_cancel id uid s).2.
Proof.
  intros L. unfold commit_cancel.
  destruct (CBS.bookings s !! id) as [b|] eqn:Hb; [|done]. cbv zeta.
  set (s1 := CBS.set_bookings (<[id := Booking.setStatus CANCELED b]> (CBS.bookings s)) s).
  assert (L1 : ledger_own s1) by (by apply (ledger_own_update_booking s id b)).
  destruct (CBS.users s1 !! uid) as [u|] eqn:Hu; cbn [snd]; [|exact L1].
  intros uid' u' id' st' Hu' Hl'.
  change (∃ b0, CBS.bookings s1 !! id' = Some b0 ∧ Booking.userId b0 = uid').
  simpl in Hu'. destruct (decide (uid = uid')) as [<-|Hne].
  - rewrite lookup_insert_eq in Hu'. injection Hu' as <-.
    apply removeBooking_lookup in Hl'. by apply (L1 _ _ _ _ Hu Hl').
  - rewrite lookup_insert_ne in Hu' by done. by apply (L1 _ _ _ _ Hu' Hl').
Qed.

Lemma ledger_own_empty : ledger_own CBS.empty.
Proof. intros uid u id st H. unfold CBS.empty in H. simpl in H. by rewrite lookup_empty in H. Qed.

Lemma ledger_own_addUser (uid : string) (topics : list string) (s : CBS.t) :
  ledger_own s → ledger_own (CBS.addUser uid topics s).2.
Proof.
  intros L. unfold CBS.addUser. destruct (CBS.users s !! uid); [done|].
  unfold User.new. destruct (_ <? _)%nat; [done|].
  intros uid' u' id' st' Hu' Hl'. simpl in *.
  destruct (decide (uid = uid')) as [<-|Hne].
  - rewrite lookup_insert_eq in Hu'. injection Hu' as <-. simpl in Hl'.
    by rewrite lookup_empty in Hl'.
  - rewrite lookup_insert_ne in Hu' by done. by apply (L _ _ _ _ Hu' Hl').
Qed.

Lemma ledger_own_addConference (nm location : string) (topics : list string)
    (start end_ : Timestamp) (slots : Z) (s : CBS.t) :
  ledger_own s → ledger_own (CBS.addConference nm location topics start end_ slots s).2.
Proof.
  intros L. unfold CBS.addConference. destruct (CBS.conferences s !! nm); [done|].
  by destruct (Conference.new _ _ _ _ _ _).
Qed.

Lemma ledger_own_bookConference (now : Z) (indet : Timestamp) (uid cn : string)
    (s : CBS.t) :
  CBS.bookings s !! new_id now uid cn = None →
  ledger_own s → ledger_own (CBS.bookConference now indet uid cn s).2.
Proof.
  intros Hfresh L. rewrite bookConference_unfold.
  destruct (CBS.users s !! uid) as [u|] eqn:Hu; [|done].
  destruct (CBS.conferences s !! cn) as [c|] eqn:Hc; [|done].
  destruct (Conference.hasStarted now c); [done|].
  destruct (CBS.findActiveBooking uid cn s) as [[id ?]|]; [done|].
  destruct (CBS.hasConflictingBooking uid c s) as [e|[]]; [done|done|].
  cbv zeta. destruct (Conference.availableSlots c >? 0).
  - destruct (CBS.removeFromOverlappingWaitlists _ _ _) as [r s1] eqn:Hrun.
    apply removeFromOverlappingWaitlists_spec in Hrun as (E & _).
    assert (L1 : ledger_own s1) by (by apply (ledger_own_helper _ _ E)).
    destruct r; [done|]. apply ledger_own_commit_booking; [|done..].
    destruct (CBS.bookings s1 !! new_id now uid cn) eqn:H1; [|done].
    destruct (evolves_booking_inv _ _ _ _ E H1) as (b0 & Hb0 & _).
    simpl in Hb0. congruence.
  - by apply ledger_own_commit_booking.
Qed.

Lemma ledger_own_cancelBooking (now : Z) (id : string) (s : CBS.t) :
  ledger_own s → ledger_own (CBS.cancelBooking now id s).2.
Proof.
  intros L. rewrite cancelBooking_unfold.
  destruct (CBS.bookings s !! id) as [b|] eqn:Hb; [|done].
  destruct (decide (Booking.status b = CANCELED)); [done|]. cbv zeta.
  destruct (CBS.conferences s !! Booking.conferenceName b) as [c|] eqn:Hc; [|done].
  destruct (Conference.hasStarted now c); [done|].
  destruct (Booking.status b).
  - destruct (CBS.processWaitlist _ _ _) as [r s1] eqn:Hrun.
    apply processWaitlist_spec in Hrun as (E & _).
    assert (L1 : ledger_own s1) by (by apply (ledger_own_helper _ _ E)).
    destruct r; [done|]. by apply ledger_own_commit_cancel.
  - by apply ledger_own_commit_cancel.
  - by apply ledger_own_commit_cancel.
Qed.

Lemma ledger_own_confirmWaitlistedBooking (now : Z) (id : string) (s : CBS.t) :
  ledger_own s → ledger_own (CBS.confirmWaitlistedBooking now id s).2.
Proof.
  intros L. rewrite confirmWaitlistedBooking_unfold.
  destruct (CBS.bookings s !! id) as [b|] eqn:Hb; [|done].
  destruct (decide (Booking.status b ≠ WAITLISTED)); [done|]. cbv zeta.
  destruct (CBS.conferences s !! Booking.conferenceName b) as [c|] eqn:Hc; [|done].
  destruct (Conference.hasStarted now c).
  { destruct (CBS.cancelAllWaitlistedBookings _ _) as [r s1] eqn:Hrun.
    apply cancelAllWaitlistedBookings_spec in Hrun as (E & _).
    destruct r; by apply (ledger_own_helper _ _ E). }
  destruct (now >? time (Booking.confirmationDeadline b)).
  { destruct (Conference.hasSlotAvailable c); [|done].
    destruct (CBS.processWaitlist _ _ _) as [r s1] eqn:Hrun.
    apply processWaitlist_spec in Hrun as (E & _).
    assert (L1 : ledger_own s1) by (by apply (ledger_own_helper _ _ E)).
    by destruct r. }
  destruct (CBS.hasConflictingBooking _ c s) as [e|[]]; [done|done|].
  destruct (Conference.availableSlots c >? 0); [|done].
  destruct (CBS.removeFromOverlappingWaitlists _ _ _) as [r s1] eqn:Hrun.
  apply removeFromOverlappingWaitlists_spec in Hrun as (E & _).
  assert (L1 : ledger_own s1).
  { apply (ledger_own_helper _ _ E).
    exact (ledger_own_update_booking s id b (Booking.setStatus CONFIRMED b)
             Hb eq_refl L). }
  by destruct r.
Qed.

Lemma ledger_own_run (es : list CBS.event) :
  ∀ s, ledger_own s → fresh_ids es s → ledger_own (CBS.run es s).
Proof.
  induction es as [|e es IH]; intros s L Hf; simpl; [done|].
  destruct Hf as [Hf Hrest]. apply IH; [|done].
  revert Hf. unfold CBS.exec, CBS.fmap_result. destruct (CBS.ev_call e); simpl.
  - intros _. by apply ledger_own_addConference.
  - intros _. by apply ledger_own_addUser.
  - intros Hf. by apply ledger_own_bookConference.
  - intros _. by apply ledger_own_cancelBooking.
  - intros _. by apply ledger_own_confirmWaitlistedBooking.
  - done.
Qed.

(** What claim C7 says holds along every sequence of calls in which no
    generated booking id is already a key of the booking table. *)
Lemma conflict_exactly_when_without_collision (es : list CBS.event) (now : Z)
    (indet : Timestamp) (uid cn : string) (u : User.t) (c : Conference.t) :
  fresh_ids es CBS.empty →
  let s := CBS.run es CBS.empty in
  CBS.users s !! uid = Some u →
  CBS.conferences s !! cn = Some c →
  Conference.hasStarted now c = false →
  Conflict (CBS.bookConference now indet uid cn s).1 ↔
  has_active_booking s uid cn ∨ has_confirmed_overlapping s uid c.
Proof.
  intros Hf s Hu Hc Hs.
  assert (I : Inv s) by (apply reachable_Inv, reachable_run; constructor).
  assert (L : ledger_own s) by (by apply ledger_own_run; [apply ledger_own_empty|]).
  rewrite (bookConference_Conflict now indet uid cn s c I ltac:(eauto) Hc Hs).
  assert (Heq : holds_confirmed_overlapping s uid c ↔ has_confirmed_overlapping s uid c).
  { split.
    - intros (id & b & c' & (u0 & st & Hu0 & Hl & Hst & Hb) & Hconf & Hc' & Hov).
      destruct (L _ _ _ _ Hu0 Hl) as (b0 & Hb0 & HU0).
      assert (b0 = b) as -> by congruence.
      exists id, b, c'. split_and!; auto.
    - intros (id & b & c' & Hb & HU & Hconf & Hc' & Hov).
      exists id, b, c'. split_and!; auto.
      rewrite <- HU. apply Inv_holds; [done..|congruence]. }
  by rewrite Heq.
Qed.

(** ** A waitlisted booking sits in the queue of its conference *)

Lemma waitlisted_queued_or (s : CBS.t) (cn : string) :
  waitlisted_queued s → queued_or s cn (CBS.waitlist_of s cn).
Proof.
  intros W id b Hb Hst. pose proof (W id b Hb Hst).
  destruct (decide (Booking.conferenceName b = cn)); by subst.
Qed.

Lemma queued_or_assign (s : CBS.t) (cn : string) (l q : list string) :
  queued_or s cn l →
  queued_or (CBS.set_waitlists (<[cn := q]> (CBS.waitlists s)) s) cn l.
Proof.
  intros Q id b Hb Hst. specialize (Q id b Hb Hst).
  destruct (decide (Booking.conferenceName b = cn)) as [|Hne]; [done|].
  rewrite waitlist_of_assign. destruct (decide (cn = Booking.conferenceName b)); done.
Qed.

Lemma queued_or_finish (s : CBS.t) (cn : string) (q : list string) :
  queued_or s cn q →
  waitlisted_queued (CBS.set_waitlists (<[cn := q]> (CBS.waitlists s)) s).
Proof.
  intros Q id b Hb Hst. specialize (Q id b Hb Hst).
  rewrite waitlist_of_assign.
  destruct (decide (Booking.conferenceName b = cn)) as [->|Hne].
  - by destruct (decide (cn = cn)).
  - destruct (decide (cn = Booking.conferenceName b)); done.
Qed.

Lemma evict_loop_queued (uid cn : string) (wl : list string) :
  ∀ (acc : list string) (s : CBS.t) (q : list string) (s' : CBS.t),
  queued_or s cn (acc ++ wl) →
  CBS.evict_loop uid cn wl acc s = (inr q, s') →
  queued_or s' cn q.
Proof.
  induction wl as [|a rest IH]; intros acc s q s' Q Hrun; simpl in Hrun.
  - unfold CBS.ret in Hrun. injection Hrun as <- <-. by rewrite app_nil_r in Q.
  - unfold CBS.bind at 1, CBS.waitlists_assign, CBS.modify in Hrun.
    apply (queued_or_assign s cn _ rest) in Q.
    set (s1 := CBS.set_waitlists (<[cn := rest]> (CBS.waitlists s)) s) in *.
    unfold CBS.bind at 1, CBS.read, CBS.bookings_at in Hrun.
    destruct (CBS.bookings s1 !! a) as [b|] eqn:Hb; [|done].
    destruct (decide (Booking.userId b ≠ uid)) as [Hne|Heq].
    + apply (IH _ _ _ _) in Hrun; [done|]. by rewrite <- app_assoc.
    + unfold CBS.bind at 1 in Hrun. rewrite booking_setStatus_unfold, Hb in Hrun.
      apply (IH _ _ _ _) in Hrun; [done|].
      intros id bx Hbx Hst. simpl in Hbx. rewrite lookup_insert in Hbx.
      destruct (decide (a = id)) as [->|Hai].
      { injection Hbx as <-. done. }
      specialize (Q id bx Hbx Hst).
      destruct (decide (Booking.conferenceName bx = cn)); [|done].
      apply elem_of_app in Q as [Q|Q]; apply elem_of_app; [by left|right].
      apply elem_of_cons in Q as [->|Q]; done.
Qed.

Lemma evict_from_queued (uid cn : string) (s : CBS.t) r s' :
  queues_in_table s → waitlisted_queued s →
  CBS.evict_from uid cn s = (r, s') → waitlisted_queued s'.
Proof.
  intros IQ W Hrun. pose proof (evict_from_spec _ _ _ _ _ Hrun) as (_ & _ & _ & He).
  destruct r as [e|[]]; [by destruct (He e eq_refl) as [_ []]|].
  revert Hrun. unfold CBS.evict_from, CBS.bind at 1, CBS.waitlists_ref.
  unfold CBS.bind at 1.
  destruct (CBS.evict_loop uid cn _ [] _) as [[e|q] s2] eqn:Hloop; [done|].
  unfold CBS.waitlists_assign, CBS.modify. intros [= <-].
  apply queued_or_finish. eapply evict_loop_queued; [|exact Hloop].
  simpl. apply queued_or_assign. by apply waitlisted_queued_or.
Qed.

Lemma evict_all_queued (uid : string) (cns : list string) :
  ∀ (s : CBS.t) r s',
  queues_in_table s → waitlisted_queued s →
  CBS.evict_all uid cns s = (r, s') → waitlisted_queued s'.
Proof.
  induction cns as [|cn rest IH]; intros s r s' IQ W Hrun; simpl in Hrun.
  - unfold CBS.ret in Hrun. by injection Hrun as <- <-.
  - unfold CBS.bind at 1 in Hrun.
    destruct (CBS.evict_from uid cn s) as [r1 s1] eqn:H1.
    pose proof (evict_from_queued _ _ _ _ _ IQ W H1) as W1.
    apply evict_from_spec in H1 as (E1 & _).
    destruct r1 as [e|[]]; [by injection Hrun as <- <-|].
    eapply IH; [| |exact Hrun]; [|done].
    eapply evolves_queues_in_table; eauto.
Qed.

Lemma removeFromOverlappingWaitlists_queued (uid : string) (c : Conference.t)
    (s : CBS.t) r s' :
  queues_in_table s → waitlisted_queued s →
  CBS.removeFromOverlappingWaitlists uid c s = (r, s') → waitlisted_queued s'.
Proof. unfold CBS.removeFromOverlappingWaitlists. apply evict_all_queued. Qed.

Lemma cancelAllWaitlistedBookings_queued (cn : string) (s : CBS.t) r s' :
  queues_in_table s → waitlisted_queued s →
  CBS.cancelAllWaitlistedBookings cn s = (r, s') → waitlisted_queued s'.
Proof.
  intros IQ W Hrun.
  apply cancelAllWaitlistedBookings_spec in Hrun as (_ & _ & Hw & Hr).
  destruct r as [e|[]]; [by destruct Hr as [_ []]|]. destruct Hr as [Hq Hbk].
  intros id b Hb Hst. rewrite Hbk in Hb.
  destruct (decide (id ∈ CBS.waitlist_of s cn)) as [Hin|Hnin].
  - destruct (CBS.bookings s !! id); simplify_eq/=.
  - pose proof (W id b Hb Hst) as Hid.
    destruct (decide (Booking.conferenceName b = cn)) as [Heq|Hne].
    + exfalso. apply Hnin. by rewrite <- Heq.
    + by rewrite Hw.
Qed.

Lemma processWaitlist_queued (now : Z) (cn : string) (s : CBS.t) r s' :
  waitlisted_queued s →
  CBS.processWaitlist now cn s = (r, s') → waitlisted_queued s'.
Proof.
  intros W Hrun. apply processWaitlist_spec in Hrun as (E & _ & Hw & _).
  intros id b' Hb' Hst.
  destruct (evolves_booking_inv _ _ _ _ E Hb') as (b & Hb & _ & _ & HC & HS).
  rewrite Hw, HC. apply (W id b Hb).
  destruct HS as [HS|HS]; congruence.
Qed.

Lemma waitlisted_queued_shrink (s s' : CBS.t) :
  waitlisted_queued s →
  (∀ nm, CBS.waitlist_of s' nm = CBS.waitlist_of s nm) →
  (∀ id b', CBS.bookings s' !! id = Some b' → Booking.status b' = WAITLISTED →
            ∃ b, CBS.bookings s !! id = Some b ∧ Booking.status b = WAITLISTED
                 ∧ Booking.conferenceName b = Booking.conferenceName b') →
  waitlisted_queued s'.
Proof.
  intros W Hw Hb id b' Hb' Hst. destruct (Hb _ _ Hb' Hst) as (b & Hbs & Hs & <-).
  rewrite Hw. by apply (W id b).
Qed.

Lemma commit_booking_queued (uid id : string) (nb : Booking.t) (s : CBS.t) :
  waitlisted_queued s →
  (Booking.status nb = WAITLISTED →
   id ∈ CBS.waitlist_of s (Booking.conferenceName nb)) →
  waitlisted_queued (commit_booking uid id nb s).2.
Proof.
  intros W Hnb. unfold commit_booking.
  set (s1 := match CBS.bookings s !! id with
             | Some _ => s
             | None => CBS.set_bookings (<[id := nb]> (CBS.bookings s)) s
             end).
  assert (W1 : waitlisted_queued s1).
  { unfold s1. destruct (CBS.bookings s !! id) eqn:Hid; [done|].
    intros x b. simpl. rewrite lookup_insert. destruct (decide (id = x)) as [<-|].
    - intros [= <-]. exact Hnb.
    - apply W. }
  destruct (CBS.users s1 !! uid); simpl; [|done].
  intros x b Hb Hst. by apply (W1 x b).
Qed.

Lemma commit_cancel_queued (id uid : string) (s : CBS.t) :
  waitlisted_queued s → waitlisted_queued (commit_cancel id uid s).2.
Proof.
  intros W. unfold commit_cancel. destruct (CBS.bookings s !! id) as [b|] eqn:Hb;
    [|done]. simpl.
  assert (W1 : waitlisted_queued
                 (CBS.set_bookings (<[id := Booking.setStatus CANCELED b]> (CBS.bookings s)) s)).
  { intros x bx. simpl. rewrite lookup_insert. destruct (decide (id = x)) as [<-|].
    - by intros [= <-].
    - apply W. }
  destruct (CBS.users s !! uid); simpl; [|done].
  intros x bx Hbx Hst. by apply (W1 x bx).
Qed.

Lemma waitlisted_queued_bookConference (now : Z) (indet : Timestamp)
    (uid cn : string) (s : CBS.t) :
  Inv s → waitlisted_queued s →
  waitlisted_queued (CBS.bookConference now indet uid cn s).2.
Proof.
  intros I W. rewrite bookConference_unfold.
  destruct (CBS.users s !! uid) as [u|] eqn:Hu; [|done].
  destruct (CBS.conferences s !! cn) as [c|] eqn:Hc; [|done].
  destruct (Conference.hasStarted now c); [done|].
  destruct (CBS.findActiveBooking uid cn s) as [[id ?]|]; [done|].
  destruct (CBS.hasConflictingBooking uid c s) as [e|[]] eqn:Hconf; [done|done|].
  cbv zeta. destruct (Conference.availableSlots c >? 0) eqn:Hav.
  - set (c' := Conference.set_availableSlots _ c).
    set (sA := CBS.set_conferences _ s).
    assert (EA : evolves s sA).
    { apply evolves_conference with c; [done|]. by apply conference_le_reserve. }
    destruct (CBS.removeFromOverlappingWaitlists uid c' sA) as [r1 s1] eqn:Hrm.
    apply removeFromOverlappingWaitlists_queued in Hrm; [| |done].
    + destruct r1 as [e|[]]; [done|]. by apply commit_booking_queued.
    + apply (inv_queues _ (Inv_evolves _ _ I EA)).
  - apply commit_booking_queued.
    + intros x b Hb Hst. rewrite waitlist_of_assign.
      pose proof (W x b Hb Hst) as Hx.
      destruct (decide (cn = Booking.conferenceName b)) as [Heq|]; [|done].
      rewrite <- Heq in Hx. apply elem_of_app. by left.
    + intros _. simpl. rewrite waitlist_of_assign.
      destruct (decide (cn = cn)); [|done]. apply elem_of_app. right. by left.
Qed.

Lemma waitlisted_queued_cancelBooking (now : Z) (id : string) (s : CBS.t) :
  Inv s → waitlisted_queued s →
  waitlisted_queued (CBS.cancelBooking now id s).2.
Proof.
  intros I W. rewrite cancelBooking_unfold.
  destruct (CBS.bookings s !! id) as [b|] eqn:Hb; [|done].
  destruct (decide (Booking.status b = CANCELED)); [done|].
  cbv zeta.
  destruct (CBS.conferences s !! Booking.conferenceName b) as [c|] eqn:Hc; [|done].
  destruct (Conference.hasStarted now c); [done|].
  destruct (Booking.status b) eqn:Hst; [| |done].
  - destruct (CBS.processWaitlist now _ _) as [r1 s1] eqn:Hp.
    apply processWaitlist_queued in Hp; [|done].
    destruct r1 as [e|[]]; [done|]. by apply commit_cancel_queued.
  - unfold commit_cancel. simpl. rewrite Hb.
    destruct (inv_booking s I _ _ Hb) as [_ (u & -> & _)]. simpl.
    intros x bx. simpl. rewrite lookup_insert.
    destruct (decide (id = x)) as [<-|Hne].
    + by intros [= <-].
    + intros Hbx Hsx.
      change (x ∈ CBS.waitlist_of
                (CBS.set_waitlists
                   (<[Booking.conferenceName b :=
                        filter (λ currentId, currentId ≠ id)
                          (CBS.waitlist_of s (Booking.conferenceName b))]>
                      (CBS.waitlists s)) s)
                (Booking.conferenceName bx)).
      rewrite waitlist_of_assign.
      pose proof (W x bx Hbx Hsx) as Hx.
      destruct (decide (Booking.conferenceName b = Booking.conferenceName bx))
        as [Heq|]; [|done].
      rewrite <- Heq in Hx. apply list_elem_of_filter. split; [congruence|done].
Qed.

Lemma waitlisted_queued_confirmWaitlistedBooking (now : Z) (id : string) (s : CBS.t) :
  Inv s → waitlisted_queued s →
  waitlisted_queued (CBS.confirmWaitlistedBooking now id s).2.
Proof.
  intros I W. rewrite confirmWaitlistedBooking_unfold.
  destruct (CBS.bookings s !! id) as [b|] eqn:Hb; [|done].
  destruct (decide (Booking.status b ≠ WAITLISTED)) as [|Hst]; [done|].
  apply dec_stable in Hst. cbv zeta.
  destruct (CBS.conferences s !! Booking.conferenceName b) as [c|] eqn:Hc; [|done].
  destruct (Conference.hasStarted now c).
  { destruct (CBS.cancelAllWaitlistedBookings _ s) as [r1 s1] eqn:Hca.
    apply cancelAllWaitlistedBookings_queued in Hca; [| apply I |done].
    by destruct r1 as [e|[]]. }
  destruct (now >? time (Booking.confirmationDeadline b)).
  { set (sA := CBS.set_waitlists _ s).
    assert (WA : waitlisted_queued sA).
    { intros x bx Hbx Hsx. unfold sA. rewrite waitlist_of_assign.
      pose proof (W x bx Hbx Hsx) as Hx.
      destruct (decide (Booking.conferenceName b = Booking.conferenceName bx))
        as [Heq|]; [|done].
      rewrite <- Heq in Hx. apply elem_of_app.
      destruct (decide (x = id)) as [->|Hne].
      - right. rewrite bool_decide_eq_true_2 by done. by left.
      - left. by apply list_elem_of_filter. }
    destruct (Conference.hasSlotAvailable c); [|done].
    destruct (CBS.processWaitlist now _ sA) as [r1 s1] eqn:Hp.
    apply processWaitlist_queued in Hp; [|done]. by destruct r1 as [e|[]]. }
  destruct (CBS.hasConflictingBooking _ c s) as [e|[]] eqn:Hconf; [done|done|].
  destruct (Conference.availableSlots c >? 0) eqn:Hav; [|done].
  set (c' := Conference.set_availableSlots _ c).
  set (sA := CBS.set_conferences _ s).
  set (sB := CBS.set_waitlists _ sA).
  set (sC := CBS.set_bookings _ sB).
  assert (WC : waitlisted_queued sC).
  { intros x bx. unfold sC. simpl. rewrite lookup_insert.
    destruct (decide (id = x)) as [<-|Hne]; [by intros [= <-]|].
    intros Hbx Hsx. pose proof (W x bx Hbx Hsx) as Hx.
    unfold CBS.waitlist_of. simpl. rewrite lookup_insert.
    destruct (decide (Booking.conferenceName b = Booking.conferenceName bx))
      as [Heq|]; [|exact Hx].
    rewrite <- Heq in Hx. simpl. apply list_elem_of_filter.
    split; [congruence|done]. }
  pose proof (Inv_promote id b c s I Hb Hst Hc Hconf Hav) as IC.
  destruct (CBS.removeFromOverlappingWaitlists _ c' sC) as [r1 s1] eqn:Hrm.
  apply removeFromOverlappingWaitlists_queued in Hrm; [| apply IC |done].
  by destruct r1 as [e|[]].
Qed.

Lemma waitlisted_queued_exec (e : CBS.event) (s : CBS.t) :
  Inv s → waitlisted_queued s → waitlisted_queued (CBS.exec e s).2.
Proof.
  intros I W. unfold CBS.exec, CBS.fmap_result. destruct (CBS.ev_call e); simpl.
  - unfold CBS.addConference. repeat case_match; done.
  - unfold CBS.addUser. repeat case_match; done.
  - by apply waitlisted_queued_bookConference.
  - by apply waitlisted_queued_cancelBooking.
  - by apply waitlisted_queued_confirmWaitlistedBooking.
  - done.
Qed.

Lemma reachable_waitlisted_queued (s : CBS.t) :
  CBS.reachable s → waitlisted_queued s.
Proof.
  induction 1 as [|e s Hs IH].
  - intros id b H. unfold CBS.empty in H. simpl in H. by rewrite lookup_empty in H.
  - apply waitlisted_queued_exec; [by apply reachable_Inv|done].
Qed.

(** ** C6: a confirmation attempt after the deadline *)

Lemma confirm_after_deadline (now : Z) (id : string) (b : Booking.t)
    (c : Conference.t) (s : CBS.t) :
  Inv s → waitlisted_queued s →
  CBS.bookings s !! id = Some b → Booking.status b = WAITLISTED →
  CBS.conferences s !! Booking.conferenceName b = Some c →
  Conference.hasStarted now c = false →
  now > time (Booking.confirmationDeadline b) →
  let cn := Booking.conferenceName b in
  let r := CBS.confirmWaitlistedBooking now id s in
  r.1 = inr false
  ∧ (∃ b', CBS.bookings r.2 !! id = Some b' ∧ Booking.status b' = WAITLISTED)
  ∧ CBS.waitlist_of r.2 cn
    = filter (λ x, x ≠ id) (CBS.waitlist_of s cn) ++ [id]
  ∧ (∀ nm, nm ≠ cn → CBS.waitlist_of r.2 nm = CBS.waitlist_of s nm)
  ∧ (Conference.hasSlotAvailable c = true →
     ∃ h bh, head (CBS.waitlist_of r.2 cn) = Some h
             ∧ CBS.bookings r.2 !! h = Some bh
             ∧ Booking.confirmationDeadline bh = mkTimestamp (now + 3600))
  ∧ (Conference.hasSlotAvailable c = false → CBS.bookings r.2 = CBS.bookings s)
  ∧ CBS.conferences r.2 = CBS.conferences s
  ∧ CBS.users r.2 = CBS.users s.
Proof.
  intros I W Hb Hst Hc Hs Hlate cn r. unfold r.
  rewrite confirmWaitlistedBooking_unfold, Hb.
  destruct (decide (Booking.status b ≠ WAITLISTED)) as [|_]; [done|].
  cbv zeta. rewrite Hc, Hs.
  assert (Hgt : (now >? time (Booking.confirmationDeadline b)) = true).
  { apply Z.gtb_lt. lia. }
  rewrite Hgt. rewrite bool_decide_eq_true_2 by (by apply (W id b)).
  fold cn.
  set (q := filter (λ currentId, currentId ≠ id) (CBS.waitlist_of s cn) ++ [id]).
  set (s1 := CBS.set_waitlists (<[cn := q]> (CBS.waitlists s)) s).
  assert (Q1 : CBS.waitlist_of s1 cn = q).
  { unfold s1. rewrite waitlist_of_assign. by destruct (decide (cn = cn)). }
  assert (Qo : ∀ nm, nm ≠ cn → CBS.waitlist_of s1 nm = CBS.waitlist_of s nm).
  { intros nm Hne. unfold s1. rewrite waitlist_of_assign.
    destruct (decide (cn = nm)); congruence. }
  assert (E1 : evolves s s1).
  { apply evolves_assign. intros x Hx. apply elem_of_app in Hx as [Hx|Hx].
    - by apply list_elem_of_filter in Hx as [_ ?].
    - apply list_elem_of_singleton in Hx as ->. by apply (W id b). }
  destruct (Conference.hasSlotAvailable c) eqn:Hslot.
  - destruct (CBS.processWaitlist now cn s1) as [rp s2] eqn:Hp.
    apply processWaitlist_spec in Hp as (E2 & C2 & W2 & Hr).
    destruct rp as [e|[]].
    { destruct Hr as [_ Hr]. exfalso. apply Hr.
      apply (inv_queues _ (Inv_evolves _ _ I E1)). }
    rewrite Q1 in Hr.
    destruct (filter (λ currentId, currentId ≠ id) (CBS.waitlist_of s cn))
      as [|h0 rest] eqn:Hf; simpl in Hr.
    + destruct Hr as (b0 & Hb0 & Hbk). simpl in Hb0. rewrite Hb in Hb0.
      injection Hb0 as <-. simpl. split_and!; auto; try done.
      * rewrite Hbk, lookup_insert_eq. eauto.
      * by rewrite W2, Q1.
      * intros nm Hne. rewrite W2. by apply Qo.
      * intros _. exists id. eexists. rewrite W2, Q1. split; [done|].
        rewrite Hbk, lookup_insert_eq. done.
      * by apply (ev_users _ _ E2).
    + destruct Hr as (b0 & Hb0 & Hbk). simpl in Hb0. simpl.
      assert (Hne : h0 ≠ id).
      { assert (Hin : h0 ∈ h0 :: rest) by (by left).
        rewrite <- Hf in Hin. by apply list_elem_of_filter in Hin as [? _]. }
      split_and!; auto; try done.
      * rewrite Hbk, lookup_insert_ne by done. simpl. eauto.
      * by rewrite W2, Q1.
      * intros nm Hnm. rewrite W2. by apply Qo.
      * intros _. exists h0. eexists. rewrite W2, Q1. split; [done|].
        rewrite Hbk, lookup_insert_eq. done.
      * by apply (ev_users _ _ E2).
  - simpl. split_and!; auto; [eauto|done].
Qed.

(** C6, as amended. In a system reached by any sequence of calls, take a
    WAITLISTED booking whose conference has not started and whose
    confirmation deadline has passed ([now] is later than the deadline).
    Then [confirmWaitlistedBooking] returns [false] and raises nothing; the
    booking is still WAITLISTED; the waitlist of its conference is the old
    one with this id removed, the other ids in their old order, and this
    id appended at the tail; the other waitlists, the conference table and
    the ledgers are unchanged; and when the conference has a free slot the
    booking at the head of the new queue gets the confirmation deadline
    [now + 3600], while without a free slot no booking changes. *)
Theorem C6_confirm_after_deadline (es : list CBS.event) (now : Z) (id : string)
    (b : Booking.t) (c : Conference.t) :
  let s := CBS.run es CBS.empty in
  CBS.bookings s !! id = Some b → Booking.status b = WAITLISTED →
  CBS.conferences s !! Booking.conferenceName b = Some c →
  Conference.hasStarted now c = false →
  now > time (Booking.confirmationDeadline b) →
  let cn := Booking.conferenceName b in
  let r := CBS.confirmWaitlistedBooking now id s in
  r.1 = inr false
  ∧ (∃ b', CBS.bookings r.2 !! id = Some b' ∧ Booking.status b' = WAITLISTED)
  ∧ CBS.waitlist_of r.2 cn
    = filter (λ x, x ≠ id) (CBS.waitlist_of s cn) ++ [id]
  ∧ (∀ nm, nm ≠ cn → CBS.waitlist_of r.2 nm = CBS.waitlist_of s nm)
  ∧ (Conference.hasSlotAvailable c = true →
     ∃ h bh, head (CBS.waitlist_of r.2 cn) = Some h
             ∧ CBS.bookings r.2 !! h = Some bh
             ∧ Booking.confirmationDeadline bh = mkTimestamp (now + 3600))
  ∧ (Conference.hasSlotAvailable c = false → CBS.bookings r.2 = CBS.bookings s)
  ∧ CBS.conferences r.2 = CBS.conferences s
  ∧ CBS.users r.2 = CBS.users s.
Proof.
  intros s. apply confirm_after_deadline.
  - apply reachable_Inv, reachable_run. constructor.
  - apply reachable_waitlisted_queued, reachable_run. constructor.
Qed.

(** ** C10: a free slot goes to the caller, not to the waitlist *)



(** * The claims on concrete executions *)

(** ** C9 and C1: the booking id collides within one second *)

(** C9. There is an execution in which a user books a conference, cancels
    that booking and books the same conference again while the clock
    still reads the same second: both bookings get the same id, the
    second call returns it, the table entry under that id is still the old
    CANCELED booking, and yet the conference's free slot was taken (1
    before the call, 0 after) and the user's ledger lists the id as an
    active, CONFIRMED booking. *)
Theorem C9_same_second_rebooking :
  ∃ (s0 : CBS.t) (now : Z) (indet : Timestamp) (uid cn id : string),
    CBS.reachable s0 ∧
    let r1 := CBS.bookConference now indet uid cn s0 in
    let r2 := CBS.cancelBooking now id r1.2 in
    let r3 := CBS.bookConference now indet uid cn r2.2 in
    r1.1 = inr id ∧ r2.1 = inr true ∧ r3.1 = inr id
    ∧ CBS.bookings r3.2 !! id = CBS.bookings r2.2 !! id
    ∧ Booking.status <$> CBS.bookings r3.2 !! id = Some CANCELED
    ∧ Conference.availableSlots <$> CBS.conferences r2.2 !! cn = Some 1
    ∧ Conference.availableSlots <$> CBS.conferences r3.2 !! cn = Some 0
    ∧ (User.bookingStatuses <$> CBS.users r3.2 !! uid) ≫= (.!! id) = Some CONFIRMED
    ∧ (User.getActiveBookings <$> CBS.users r3.2 !! uid) = Some [id].
Proof.
  exists (CBS.run one_slot_setup CBS.empty), 100, (mkTimestamp 0), "A", "C", "A_C_100".
  split; [apply reachable_run; constructor|].
  vm_compute. repeat split.
Qed.

(** C1 at the failing input. After the same-second rebooking the
    conference "C" has one slot in total and none available, while the
    booking table holds no CONFIRMED booking for it: the accounting
    [confirmed = totalSlots - availableSlots] is broken in a reachable
    system. *)
Theorem C1_slot_accounting_breaks :
  let s := CBS.run rebook_same_second CBS.empty in
  (∃ c, CBS.conferences s !! "C" = Some c
        ∧ Conference.totalSlots c = 1 ∧ Conference.availableSlots c = 0)
  ∧ confirmed_count s "C" = 0%nat
  ∧ ¬ slot_accounting s.
Proof.
  intros s. split_and!.
  - eexists. vm_compute. repeat split.
  - vm_compute. reflexivity.
  - intros H.
    destruct (H "C" (Conference.Build "C" "NY" ["C++"] (mkTimestamp 10000)
                       (mkTimestamp 20000) 1 0)) as [_ Hc].
    + vm_compute. reflexivity.
    + vm_compute in Hc. discriminate.
Qed.

(** The accounting at work on an execution without collision: booking,
    waitlisting, cancellation and promotion. *)
Example slot_accounting_promoted : slot_accounting (CBS.run promoted CBS.empty).
Proof. apply slot_accounting_without_collision. vm_compute. repeat split. Qed.

(** ** C4: the ledgers against the booking table *)

(** C4 at two failing inputs. After a promotion the booking table shows
    "B"'s booking CONFIRMED while "B"'s ledger still says WAITLISTED; and
    after an eviction the table shows "B"'s booking for "C1" CANCELED while
    "B"'s ledger still lists it, as WAITLISTED. In both systems the
    lockstep between ledger and table fails. *)
Theorem C4_ledger_out_of_step :
  let s := CBS.run promoted CBS.empty in
  let s' := CBS.run evicted CBS.empty in
  (Booking.status <$> CBS.bookings s !! "B_C_101" = Some CONFIRMED
   ∧ (User.bookingStatuses <$> CBS.users s !! "B") ≫= (.!! "B_C_101")
     = Some WAITLISTED
   ∧ ¬ ledger_lockstep s)
  ∧ (Booking.status <$> CBS.bookings s' !! "B_C1_101" = Some CANCELED
     ∧ (User.bookingStatuses <$> CBS.users s' !! "B") ≫= (.!! "B_C1_101")
       = Some WAITLISTED
     ∧ ¬ ledger_lockstep s').
Proof.
  intros s s'. split; split_and!; try (vm_compute; reflexivity).
  - intros H.
    destruct (H "B" (User.Build "B" [] {["B_C_101" := WAITLISTED]}) "B_C_101" WAITLISTED)
      as (b & Hb & Hst); [vm_compute; reflexivity..|].
    vm_compute in Hb. injection Hb as <-. discriminate.
  - intros H.
    destruct (H "B" (User.Build "B" []
                       (<["B_C2_102" := CONFIRMED]> {["B_C1_101" := WAITLISTED]}))
                "B_C1_101" WAITLISTED)
      as (b & Hb & Hst); [vm_compute; reflexivity..|].
    vm_compute in Hb. injection Hb as <-. discriminate.
Qed.

(** ** C5: the order of promotion *)

(** C5 at the failing input. "B" is waitlisted before "D" and the queue is
    ["B"; "D"]. When "A" cancels, "B" is notified (deadline 103 + 3600).
    "D" then asks for confirmation at time 104: the deadline field of
    "D"'s booking (5000, never written by the program) has not passed, so
    no deadline expires, and "D" is confirmed while "B", first in the
    queue and within its deadline, stays WAITLISTED. *)
Theorem C5_second_in_queue_promoted_first :
  let s := CBS.run two_waiting_slot_freed CBS.empty in
  let r := CBS.confirmWaitlistedBooking 104 "D_C_102" s in
  CBS.waitlist_of s "C" = ["B_C_101"; "D_C_102"]
  ∧ Booking.confirmationDeadline <$> CBS.bookings s !! "B_C_101"
    = Some (mkTimestamp 3703)
  ∧ Booking.confirmationDeadline <$> CBS.bookings s !! "D_C_102"
    = Some (mkTimestamp 5000)
  ∧ r.1 = inr true
  ∧ Booking.status <$> CBS.bookings r.2 !! "D_C_102" = Some CONFIRMED
  ∧ Booking.status <$> CBS.bookings r.2 !! "B_C_101" = Some WAITLISTED
  ∧ CBS.waitlist_of r.2 "C" = ["B_C_101"].
Proof. vm_compute. repeat split. Qed.

(** ** C7: a conflict raised from another user's booking *)

(** C7. Once two users share a booking id, [bookConference] no longer
    reports a conflict exactly when the user has one. After "u_x" has
    booked "c" and "u" has booked "x_c" within the same second, the table
    holds a single booking under "u_x_c_7", that of "u_x": "u" has no
    booking in the table at all, yet booking "d", which overlaps "c", fails
    for "u" with "User has a conflicting booking". And when both
    conferences were full, so that the shared booking is WAITLISTED for
    "c" and the ledger of "u" holds its id, booking "c" for "u" reports no
    conflict and returns a second id. *)
Theorem C7_conflict_from_foreign_booking :
  let s := CBS.run shared_id CBS.empty in
  let d := Conference.Build "d" "NY" [] (mkTimestamp 15000) (mkTimestamp 25000) 1 1 in
  let s' := CBS.run shared_id_waitlisted CBS.empty in
  let c := Conference.Build "c" "NY" [] (mkTimestamp 10000) (mkTimestamp 20000) 1 0 in
  let b' := Booking.Build "u_x_c_7" "u_x" "c" WAITLISTED (mkTimestamp 0) in
  (is_Some (CBS.users s !! "u")
   ∧ CBS.conferences s !! "d" = Some d
   ∧ Conference.hasStarted 8 d = false
   ∧ CBS.bookings s
     = {[ "u_x_c_7" := Booking.Build "u_x_c_7" "u_x" "c" CONFIRMED (mkTimestamp 0) ]}
   ∧ ¬ has_active_booking s "u" "d"
   ∧ ¬ has_confirmed_overlapping s "u" d
   ∧ (CBS.bookConference 8 (mkTimestamp 0) "u" "d" s).1
     = inl (runtime_error "User has a conflicting booking"))
  ∧ (CBS.conferences s' !! "c" = Some c
     ∧ Conference.hasStarted 8 c = false
     ∧ holds s' "u" "u_x_c_7" b'
     ∧ (CBS.bookConference 8 (mkTimestamp 0) "u" "c" s').1 = inr "u_c_8"
     ∧ ¬ Conflict (CBS.bookConference 8 (mkTimestamp 0) "u" "c" s').1).
Proof.
  intros s d s' c b'.
  assert (Hbk : CBS.bookings s
                = {[ "u_x_c_7" := Booking.Build "u_x_c_7" "u_x" "c" CONFIRMED
                                    (mkTimestamp 0) ]}).
  { vm_compute. reflexivity. }
  assert (Hret : (CBS.bookConference 8 (mkTimestamp 0) "u" "c" s').1 = inr "u_c_8").
  { vm_compute. reflexivity. }
  split; split_and!.
  - vm_compute. eauto.
  - vm_compute. reflexivity.
  - vm_compute. reflexivity.
  - exact Hbk.
  - apply findActiveBooking_None. vm_compute. reflexivity.
  - intros (id & b & c' & Hb & HU & _). rewrite Hbk in Hb.
    apply lookup_singleton_Some in Hb as [_ <-]. discriminate HU.
  - vm_compute. reflexivity.
  - vm_compute. reflexivity.
  - vm_compute. reflexivity.
  - exists (User.Build "u" [] {[ "u_x_c_7" := WAITLISTED ]}), WAITLISTED.
    split_and!; [vm_compute; reflexivity..|discriminate|vm_compute; reflexivity].
  - exact Hret.
  - rewrite Hret. intros [[x Hx]|Hx]; discriminate.
Qed.

(** ** Counterexamples to the claims as stated *)

(** C3 as stated fails: with "A" holding the slot and "B" waitlisted,
    a confirmation attempt for "B" once the conference has started fails
    with a [runtime_error] and leaves a different booking table: "B"'s
    booking went from WAITLISTED to CANCELED. *)
Lemma C3_counterexample :
  let s := CBS.run slot_taken_one_waiting CBS.empty in
  let e := call_at 10000 (CBS.ConfirmWaitlistedBooking "B_C_101") in
  (CBS.exec e s).1 = inl (runtime_error msg_confirm_started)
  ∧ Booking.status <$> CBS.bookings s !! "B_C_101" = Some WAITLISTED
  ∧ Booking.status <$> CBS.bookings (CBS.exec e s).2 !! "B_C_101" = Some CANCELED
  ∧ (CBS.exec e s).2 ≠ s.
Proof.
  intros s e. split_and!; try (vm_compute; reflexivity).
  intros H.
  apply (f_equal (λ x, Booking.status <$> CBS.bookings x !! "B_C_101")) in H.
  vm_compute in H. discriminate.
Qed.

(** C6 as stated fails: "B" is WAITLISTED with deadline 3702 and the
    clock reads 10000, so the deadline has passed; but the conference has
    started, and the call raises an error instead of returning [false],
    and the booking does not remain WAITLISTED. *)
Lemma C6_counterexample :
  let s := CBS.run slot_freed_one_waiting CBS.empty in
  let r := CBS.confirmWaitlistedBooking 10000 "B_C_101" s in
  Booking.status <$> CBS.bookings s !! "B_C_101" = Some WAITLISTED
  ∧ Booking.confirmationDeadline <$> CBS.bookings s !! "B_C_101"
    = Some (mkTimestamp 3702)
  ∧ r.1 = inl (runtime_error msg_confirm_started)
  ∧ r.1 ≠ inr false
  ∧ Booking.status <$> CBS.bookings r.2 !! "B_C_101" = Some CANCELED.
Proof. vm_compute. repeat split. discriminate. Qed.


(** ** The theorems at concrete inputs *)

Lemma C2_confirmed_never_overlap_witness :
  let s := CBS.run back_to_back CBS.empty in
  let b1 := Booking.Build "A_C1_100" "A" "C1" CONFIRMED (mkTimestamp 0) in
  let b2 := Booking.Build "A_C2_100" "A" "C2" CONFIRMED (mkTimestamp 0) in
  let c1 := Conference.Build "C1" "NY" [] (mkTimestamp 10000) (mkTimestamp 20000) 1 0 in
  let c2 := Conference.Build "C2" "NY" [] (mkTimestamp 20000) (mkTimestamp 30000) 1 0 in
  (CBS.bookings s !! "A_C1_100" = Some b1 ∧ CBS.bookings s !! "A_C2_100" = Some b2
   ∧ CBS.conferences s !! "C1" = Some c1 ∧ CBS.conferences s !! "C2" = Some c2)
  ∧ Conference.isTimeOverlapping c1 (Conference.startTime c2) (Conference.endTime c2)
    = false.
Proof.
  intros s b1 b2 c1 c2. split.
  - vm_compute. repeat split.
  - apply (C2_confirmed_never_overlap back_to_back "A_C1_100" "A_C2_100" b1 b2 c1 c2);
      [discriminate | vm_compute; reflexivity ..].
Defined.

Lemma C3_failing_call_state_witness :
  let e := call_at 100 (CBS.BookConference "A" "C") in
  (CBS.exec e CBS.empty).1 = inl (runtime_error "User not found")
  ∧ (CBS.exec e CBS.empty).2 = CBS.empty.
Proof.
  intros e. split; [vm_compute; reflexivity|].
  apply (C3_failing_call_state e CBS.empty "User not found");
    [vm_compute; reflexivity | discriminate].
Defined.

Lemma C6_confirm_after_deadline_witness :
  let s := CBS.run slot_freed_one_waiting CBS.empty in
  let b := Booking.Build "B_C_101" "B" "C" WAITLISTED (mkTimestamp 3702) in
  let r := CBS.confirmWaitlistedBooking 5000 "B_C_101" s in
  CBS.bookings s !! "B_C_101" = Some b
  ∧ r.1 = inr false
  ∧ CBS.waitlist_of r.2 "C" = ["B_C_101"]
  ∧ Booking.confirmationDeadline <$> CBS.bookings r.2 !! "B_C_101"
    = Some (mkTimestamp 8600).
Proof.
  intros s b r.
  destruct (C6_confirm_after_deadline slot_freed_one_waiting 5000 "B_C_101" b
              (Conference.Build "C" "NY" ["C++"] (mkTimestamp 10000)
                 (mkTimestamp 20000) 1 1))
    as (Hret & _ & Hq & _); [vm_compute; reflexivity .. | ].
  split_and!; [vm_compute; reflexivity | exact Hret | exact Hq | vm_compute; reflexivity].
Defined.



(** * Further properties of the code *)

(** ** The leaf classes *)

Lemma wrap_time_t_small (d : Z) : - 2 ^ 63 ≤ d < 2 ^ 63 → wrap_time_t d = d.
Proof. intros H. unfold wrap_time_t. rewrite Z.mod_small; lia. Qed.

Lemma wrap_time_t_large (d : Z) :
  2 ^ 63 ≤ d < 2 ^ 64 + 2 ^ 63 → wrap_time_t d = d - 2 ^ 64.
Proof.
  intros H. unfold wrap_time_t.
  replace (d + 2 ^ 63) with (d - 2 ^ 63 + 1 * 2 ^ 64) by lia.
  rewrite Z.mod_add by lia. rewrite Z.mod_small; lia.
Qed.

(** A positive difference that the machine finds to be at most 12 hours
    is at most 12 hours, or so large that the subtraction overflowed. *)
Lemma wrap_time_t_duration (d : Z) :
  0 < d → wrap_time_t d ≤ 12 * 3600 → d ≤ 12 * 3600 ∨ 2 ^ 63 ≤ d.
Proof.
  intros Hpos Hw. destruct (Z.lt_ge_cases d (2 ^ 63)) as [Hlt|Hge]; [left|by right].
  rewrite wrap_time_t_small in Hw; lia.
Qed.

Lemma passes_checks_time_t (topics : list string) (start end_ : Timestamp)
    (slots : Z) :
  is_time_t (time start) → is_time_t (time end_) →
  passes_checks topics start end_ slots ↔
  (length topics ≤ 10)%nat ∧ 0 < slots ∧ time start < time end_
  ∧ (time end_ - time start ≤ 12 * 3600 ∨ 2 ^ 63 ≤ time end_ - time start).
Proof.
  unfold is_time_t, passes_checks. intros Hs He. split.
  - intros (Ht & Hsl & Hd & Hse). split_and!; auto.
    apply wrap_time_t_duration; [lia|done].
  - intros (Ht & Hsl & Hse & Hd). split_and!; auto.
    destruct Hd as [Hd|Hd].
    + rewrite wrap_time_t_small; lia.
    + rewrite wrap_time_t_large; lia.
Qed.

Lemma Conference_new_passes (nm location : string) (topics : list string)
    (start end_ : Timestamp) (slots : Z) (c : Conference.t) :
  Conference.new nm location topics start end_ slots = inr c ↔
  passes_checks topics start end_ slots
  ∧ c = Conference.Build nm location topics start end_ slots slots.
Proof.
  unfold Conference.new, passes_checks. split.
  - destruct (Nat.ltb_spec 10 (length topics)); [done|].
    destruct (Z.leb_spec slots 0); [done|].
    destruct (Z.gtb_spec (wrap_time_t (time end_ - time start)) (12 * 3600)); [done|].
    destruct (Z.geb_spec (time start) (time end_)); [done|].
    intros [= <-]. split_and!; auto; lia.
  - intros ((Ht & Hs & Hd & Hse) & ->).
    destruct (Nat.ltb_spec 10 (length topics)); [lia|].
    destruct (Z.leb_spec slots 0); [lia|].
    destruct (Z.gtb_spec (wrap_time_t (time end_ - time start)) (12 * 3600)); [lia|].
    destruct (Z.geb_spec (time start) (time end_)); [lia|done].
Qed.

(** X1. The constructor of [Conference], on [time_t] values: it accepts
    its arguments exactly when there are at most 10 topics, the slot count
    is positive, the start is before the end, and the duration is at most
    12 hours or is 2^63 seconds or more, in which case the subtraction of
    the duration check overflows and the check lets the conference
    through. The conference it builds has all its slots available. *)
Theorem Conference_new_accepts_exactly (nm location : string)
    (topics : list string) (start end_ : Timestamp) (slots : Z) (c : Conference.t) :
  is_time_t (time start) → is_time_t (time end_) →
  Conference.new nm location topics start end_ slots = inr c ↔
  (length topics ≤ 10)%nat ∧ 0 < slots ∧ time start < time end_
  ∧ (time end_ - time start ≤ 12 * 3600 ∨ 2 ^ 63 ≤ time end_ - time start)
  ∧ c = Conference.Build nm location topics start end_ slots slots.
Proof.
  intros Hs He. rewrite Conference_new_passes.
  rewrite (passes_checks_time_t topics start end_ slots Hs He). tauto.
Qed.

(** X2. On a conference whose counter is in range, taking a slot and
    giving it back is the identity, and so is giving one back and taking
    it again when a slot was taken; taking fails on a full house and
    giving back does nothing when no slot is taken; both keep the counter
    in range. *)
Theorem slot_counter_round_trip (c : Conference.t) :
  0 ≤ Conference.availableSlots c ≤ Conference.totalSlots c →
  (0 < Conference.availableSlots c →
   (Conference.decreaseAvailableSlots c).1 = true
   ∧ Conference.increaseAvailableSlots (Conference.decreaseAvailableSlots c).2 = c)
  ∧ (Conference.availableSlots c < Conference.totalSlots c →
     Conference.decreaseAvailableSlots (Conference.increaseAvailableSlots c) = (true, c))
  ∧ (Conference.availableSlots c = 0 →
     Conference.decreaseAvailableSlots c = (false, c))
  ∧ (Conference.availableSlots c = Conference.totalSlots c →
     Conference.increaseAvailableSlots c = c)
  ∧ 0 ≤ Conference.availableSlots (Conference.decreaseAvailableSlots c).2
      ≤ Conference.totalSlots (Conference.decreaseAvailableSlots c).2
  ∧ 0 ≤ Conference.availableSlots (Conference.increaseAvailableSlots c)
      ≤ Conference.totalSlots (Conference.increaseAvailableSlots c).
Proof.
  intros Hr. destruct c as [n l t s e tot av]. simpl in *.
  unfold Conference.decreaseAvailableSlots, Conference.increaseAvailableSlots,
    Conference.set_availableSlots. simpl.
  split_and!.
  - intros H. destruct (Z.gtb_spec av 0); [|lia]. simpl.
    destruct (Z.ltb_spec (av - 1) tot); [|lia]. split; [done|]. f_equal. lia.
  - intros H. destruct (Z.ltb_spec av tot); [|lia]. simpl.
    destruct (Z.gtb_spec (av + 1) 0); [|lia]. do 2 f_equal. lia.
  - intros ->. done.
  - intros ->. by rewrite Z.ltb_irrefl.
  - destruct (Z.gtb_spec av 0); simpl; lia.
  - destruct (Z.gtb_spec av 0); simpl; lia.
  - destruct (Z.ltb_spec av tot); simpl; lia.
  - destruct (Z.ltb_spec av tot); simpl; lia.
Qed.

(** X3. The ledger of a user: a recorded id reads back with its status;
    [updateBookingStatus] on an id that is not in the ledger changes
    nothing (it never creates an entry); recording a new id and removing
    it again gives the ledger back; after [removeBooking] the id is gone;
    and neither touches any other id. *)
Theorem ledger_round_trip (u : User.t) (id other : string) (st st' : BookingStatus) :
  User.bookingStatuses (User.addBooking id st u) !! id = Some st
  ∧ User.bookingStatuses (User.updateBookingStatus id st' (User.addBooking id st u)) !! id
    = Some st'
  ∧ User.bookingStatuses (User.removeBooking id u) !! id = None
  ∧ (User.bookingStatuses u !! id = None →
     User.updateBookingStatus id st u = u
     ∧ User.removeBooking id u = u
     ∧ User.removeBooking id (User.addBooking id st u) = u)
  ∧ (other ≠ id →
     User.bookingStatuses (User.addBooking id st u) !! other
     = User.bookingStatuses u !! other
     ∧ User.bookingStatuses (User.updateBookingStatus id st u) !! other
       = User.bookingStatuses u !! other
     ∧ User.bookingStatuses (User.removeBooking id u) !! other
       = User.bookingStatuses u !! other).
Proof.
  destruct u as [uid topics m].
  unfold User.addBooking, User.updateBookingStatus, User.removeBooking,
    User.set_bookingStatuses. simpl. split_and!.
  - by rewrite lookup_insert_eq.
  - rewrite lookup_insert_eq. simpl. by rewrite lookup_insert_eq.
  - destruct (m !! id) eqn:H; simpl; [by rewrite lookup_delete_eq|done].
  - intros H. rewrite H, lookup_insert_eq. simpl. split_and!; [done..|].
    f_equal. by rewrite delete_insert_eq, delete_id.
  - intros Hne. split_and!.
    + by rewrite lookup_insert_ne.
    + destruct (m !! id); simpl; [by rewrite lookup_insert_ne|done].
    + destruct (m !! id); simpl; [by rewrite lookup_delete_ne|done].
Qed.

Lemma NoDup_map_items_fst {A : Type} (m : gmap string A) : NoDup (map_items m).*1.
Proof.
  unfold map_items. rewrite merge_sort_Permutation. apply NoDup_fst_map_to_list.
Qed.

Lemma NoDup_filter_fst {A : Type} (P : string * A → Prop) `{∀ p, Decision (P p)}
    (l : list (string * A)) :
  NoDup l.*1 → NoDup (filter P l).*1.
Proof.
  intros Hl. eapply sublist_NoDup; [exact Hl|apply fmap_sublist, sublist_filter].
Qed.

(** X4. [getActiveBookings] lists, each once, exactly the ids the ledger
    holds with a status other than CANCELED. *)
Theorem getActiveBookings_exactly (u : User.t) :
  NoDup (User.getActiveBookings u)
  ∧ ∀ id, id ∈ User.getActiveBookings u ↔
          ∃ st, User.bookingStatuses u !! id = Some st ∧ st ≠ CANCELED.
Proof.
  split; [|apply elem_of_getActiveBookings].
  unfold User.getActiveBookings. apply NoDup_filter_fst, NoDup_map_items_fst.
Qed.

Lemma string_app_assoc (a b c : string) : (a +:+ b) +:+ c = a +:+ (b +:+ c).
Proof.
  induction a as [|x a IH]; [done|].
  change (String x ((a +:+ b) +:+ c) = String x (a +:+ (b +:+ c))). by f_equal.
Qed.

(** X5. The booking id. For one user and one conference, two clock
    readings give the same id only if they are the same reading; but the
    underscore does not separate the parts: the user [u_x] booking
    conference [c] gets the very id of the user [u] booking conference
    [x_c] in the same second. *)
Theorem booking_id_scheme :
  (∀ (now1 now2 : Z) (uid cn : string),
     new_id now1 uid cn = new_id now2 uid cn ↔ now1 = now2)
  ∧ (∀ (now : Z) (indet : Timestamp) (u x c : string),
       Booking.bookingId (Booking.new now indet (u +:+ "_" +:+ x) c)
       = Booking.bookingId (Booking.new now indet u (x +:+ "_" +:+ c))).
Proof.
  split.
  - intros now1 now2 uid cn. split; [|by intros ->].
    unfold new_id, Booking.new, to_string. simpl. intros H.
    repeat (apply String.app_inj in H; try injection H as H).
    by apply pretty_Z_inj.
  - intros now indet u x c. unfold Booking.new. simpl.
    by rewrite !string_app_assoc.
Qed.

(** ** What is registered stays *)

Lemma booking_step_refl (b : Booking.t) : booking_step b b.
Proof. unfold booking_step. auto. Qed.

Lemma booking_step_trans (b1 b2 b3 : Booking.t) :
  booking_step b1 b2 → booking_step b2 b3 → booking_step b1 b3.
Proof.
  intros (I1 & U1 & C1 & S1) (I2 & U2 & C2 & S2). unfold booking_step.
  split_and!; [congruence..|].
  destruct S2 as [S2|[S2|[S2 S2']]].
  - rewrite S2. exact S1.
  - auto.
  - destruct S1 as [S1|[S1|[S1 S1']]]; [|congruence..].
    right; right. split; congruence.
Qed.

Lemma booking_le_step (b b' : Booking.t) : booking_le b b' → booking_step b b'.
Proof. intros (? & ? & ? & [?|?]); unfold booking_step; auto 10. Qed.

Lemma conference_step_refl (c : Conference.t) : conference_step c c.
Proof. unfold conference_step. auto 10. Qed.

Lemma conference_step_trans (c1 c2 c3 : Conference.t) :
  conference_step c1 c2 → conference_step c2 c3 → conference_step c1 c3.
Proof.
  unfold conference_step. intros (? & ? & ? & ? & ? & ?) (? & ? & ? & ? & ? & ?).
  split_and!; congruence.
Qed.

Lemma conference_step_slots (n : Z) (c : Conference.t) :
  conference_step c (Conference.set_availableSlots n c).
Proof. unfold conference_step. auto 10. Qed.

Lemma conference_step_increase (c : Conference.t) :
  conference_step c (Conference.increaseAvailableSlots c).
Proof.
  unfold Conference.increaseAvailableSlots.
  destruct (_ <? _); [apply conference_step_slots|apply conference_step_refl].
Qed.

Lemma user_step_refl (u : User.t) : user_step u u.
Proof. unfold user_step. auto. Qed.

Lemma user_step_trans (u1 u2 u3 : User.t) :
  user_step u1 u2 → user_step u2 u3 → user_step u1 u3.
Proof. unfold user_step. intros [? ?] [? ?]. split; congruence. Qed.

Lemma user_step_addBooking (id : string) (st : BookingStatus) (u : User.t) :
  user_step u (User.addBooking id st u).
Proof. unfold user_step. auto. Qed.

Lemma user_step_removeBooking (id : string) (u : User.t) :
  user_step u (User.removeBooking id u).
Proof.
  unfold User.removeBooking. destruct (_ !! _); [|apply user_step_refl].
  unfold user_step. auto.
Qed.

Lemma grows_refl (s : CBS.t) : grows s s.
Proof.
  split; eauto using conference_step_refl, booking_step_refl, user_step_refl.
Qed.

Lemma grows_trans (s1 s2 s3 : CBS.t) : grows s1 s2 → grows s2 s3 → grows s1 s3.
Proof.
  intros [C1 B1 U1] [C2 B2 U2]. split.
  - intros nm c H. destruct (C1 _ _ H) as (c' & H' & L1).
    destruct (C2 _ _ H') as (c'' & H'' & L2).
    eauto using conference_step_trans.
  - intros id b H. destruct (B1 _ _ H) as (b' & H' & L1).
    destruct (B2 _ _ H') as (b'' & H'' & L2).
    eauto using booking_step_trans.
  - intros uid u H. destruct (U1 _ _ H) as (u' & H' & L1).
    destruct (U2 _ _ H') as (u'' & H'' & L2).
    eauto using user_step_trans.
Qed.

(** The helper loops: what [evolves] and the unchanged conference table
    give. *)
Lemma grows_helper (s s' : CBS.t) :
  evolves s s' → CBS.conferences s' = CBS.conferences s → grows s s'.
Proof.
  intros E C. split.
  - intros nm c H. exists c. rewrite C. eauto using conference_step_refl.
  - intros id b H. destruct (evolves_booking_fwd _ _ _ _ E H) as (b' & H' & L).
    eauto using booking_le_step.
  - intros uid u H. exists u. rewrite (ev_users _ _ E). eauto using user_step_refl.
Qed.

Lemma grows_set_waitlists (s : CBS.t) (W : gmap string (list string)) :
  grows s (CBS.set_waitlists W s).
Proof. destruct (grows_refl s) as [C B U]. by split. Qed.

Lemma grows_insert_conference (s : CBS.t) (nm : string) (c' : Conference.t) :
  (∀ c, CBS.conferences s !! nm = Some c → conference_step c c') →
  grows s (CBS.set_conferences (<[nm := c']> (CBS.conferences s)) s).
Proof.
  intros Hc. destruct (grows_refl s) as [C B U]. split; [|done..].
  intros nm' c H. simpl. destruct (decide (nm = nm')) as [->|Hne].
  - rewrite lookup_insert_eq. eauto.
  - rewrite lookup_insert_ne by done. eauto using conference_step_refl.
Qed.

Lemma grows_insert_booking (s : CBS.t) (id : string) (b' : Booking.t) :
  (∀ b, CBS.bookings s !! id = Some b → booking_step b b') →
  grows s (CBS.set_bookings (<[id := b']> (CBS.bookings s)) s).
Proof.
  intros Hb. destruct (grows_refl s) as [C B U]. split; [done| |done].
  intros id' b H. simpl. destruct (decide (id = id')) as [->|Hne].
  - rewrite lookup_insert_eq. eauto.
  - rewrite lookup_insert_ne by done. eauto using booking_step_refl.
Qed.

Lemma grows_insert_user (s : CBS.t) (uid : string) (u' : User.t) :
  (∀ u, CBS.users s !! uid = Some u → user_step u u') →
  grows s (CBS.set_users (<[uid := u']> (CBS.users s)) s).
Proof.
  intros Hu. destruct (grows_refl s) as [C B U]. split; [done..|].
  intros uid' u H. simpl. destruct (decide (uid = uid')) as [->|Hne].
  - rewrite lookup_insert_eq. eauto.
  - rewrite lookup_insert_ne by done. eauto using user_step_refl.
Qed.

Lemma grows_commit_booking (uid id : string) (nb : Booking.t) (s : CBS.t) :
  grows s (commit_booking uid id nb s).2.
Proof.
  unfold commit_booking.
  set (s1 := match CBS.bookings s !! id with
             | Some _ => s
             | None => CBS.set_bookings (<[id := nb]> (CBS.bookings s)) s
             end).
  assert (G1 : grows s s1).
  { unfold s1. destruct (CBS.bookings s !! id) eqn:Hb; [apply grows_refl|].
    apply grows_insert_booking. intros b Hb'. congruence. }
  cbv zeta. destruct (CBS.users s1 !! uid) as [u|] eqn:Hu; simpl; [|done].
  eapply grows_trans; [exact G1|]. apply grows_insert_user.
  intros u' Hu'. assert (u' = u) as -> by congruence. apply user_step_addBooking.
Qed.

Lemma grows_commit_cancel (id uid : string) (s : CBS.t) :
  grows s (commit_cancel id uid s).2.
Proof.
  unfold commit_cancel. destruct (CBS.bookings s !! id) as [b|] eqn:Hb;
    [|apply grows_refl].
  cbv zeta.
  set (s1 := CBS.set_bookings (<[id := Booking.setStatus CANCELED b]> (CBS.bookings s)) s).
  assert (G1 : grows s s1).
  { apply grows_insert_booking. intros b' Hb'. assert (b' = b) as -> by congruence.
    apply booking_le_step, booking_le_canceled. }
  destruct (CBS.users s1 !! uid) as [u|] eqn:Hu; cbn [snd]; [|exact G1].
  eapply grows_trans; [exact G1|]. apply grows_insert_user.
  intros u' Hu'. assert (u' = u) as -> by congruence. apply user_step_removeBooking.
Qed.

Lemma grows_addConference (nm location : string) (topics : list string)
    (start end_ : Timestamp) (slots : Z) (s : CBS.t) :
  grows s (CBS.addConference nm location topics start end_ slots s).2.
Proof.
  unfold CBS.addConference.
  destruct (CBS.conferences s !! nm) eqn:Hc; [apply grows_refl|].
  destruct (Conference.new _ _ _ _ _ _); [apply grows_refl|].
  apply grows_insert_conference. intros c Hc'. congruence.
Qed.

Lemma grows_addUser (uid : string) (topics : list string) (s : CBS.t) :
  grows s (CBS.addUser uid topics s).2.
Proof.
  unfold CBS.addUser.
  destruct (CBS.users s !! uid) eqn:Hu; [apply grows_refl|].
  destruct (User.new _ _); [apply grows_refl|].
  apply grows_insert_user. intros u Hu'. congruence.
Qed.

Lemma grows_bookConference (now : Z) (indet : Timestamp) (uid cn : string) (s : CBS.t) :
  grows s (CBS.bookConference now indet uid cn s).2.
Proof.
  rewrite bookConference_unfold.
  destruct (CBS.users s !! uid) as [u|] eqn:Hu; [|apply grows_refl].
  destruct (CBS.conferences s !! cn) as [c|] eqn:Hc; [|apply grows_refl].
  destruct (Conference.hasStarted now c); [apply grows_refl|].
  destruct (CBS.findActiveBooking uid cn s) as [[id ?]|]; [apply grows_refl|].
  destruct (CBS.hasConflictingBooking uid c s) as [e|[]];
    [apply grows_refl|apply grows_refl|].
  cbv zeta. destruct (Conference.availableSlots c >? 0).
  - destruct (CBS.removeFromOverlappingWaitlists _ _ _) as [r s1] eqn:Hrun.
    apply removeFromOverlappingWaitlists_spec in Hrun as (E & C & _).
    assert (G1 : grows s s1).
    { eapply grows_trans; [|by apply grows_helper].
      apply grows_insert_conference. intros c0 Hc0.
      assert (c0 = c) as -> by congruence. apply conference_step_slots. }
    destruct r; [done|].
    eapply grows_trans; [exact G1|apply grows_commit_booking].
  - eapply grows_trans; [apply grows_set_waitlists|apply grows_commit_booking].
Qed.

Lemma grows_cancelBooking (now : Z) (id : string) (s : CBS.t) :
  grows s (CBS.cancelBooking now id s).2.
Proof.
  rewrite cancelBooking_unfold.
  destruct (CBS.bookings s !! id) as [b|] eqn:Hb; [|apply grows_refl].
  destruct (decide (Booking.status b = CANCELED)); [apply grows_refl|].
  cbv zeta.
  destruct (CBS.conferences s !! Booking.conferenceName b) as [c|] eqn:Hc;
    [|apply grows_refl].
  destruct (Conference.hasStarted now c); [apply grows_refl|].
  destruct (Booking.status b).
  - destruct (CBS.processWaitlist _ _ _) as [r s1] eqn:Hrun.
    apply processWaitlist_spec in Hrun as (E & C & _).
    assert (G1 : grows s s1).
    { eapply grows_trans; [|by apply grows_helper].
      apply grows_insert_conference. intros c0 Hc0.
      assert (c0 = c) as -> by congruence. apply conference_step_increase. }
    destruct r; [done|].
    eapply grows_trans; [exact G1|apply grows_commit_cancel].
  - eapply grows_trans; [apply grows_set_waitlists|apply grows_commit_cancel].
  - apply grows_commit_cancel.
Qed.

Lemma grows_confirmWaitlistedBooking (now : Z) (id : string) (s : CBS.t) :
  grows s (CBS.confirmWaitlistedBooking now id s).2.
Proof.
  rewrite confirmWaitlistedBooking_unfold.
  destruct (CBS.bookings s !! id) as [b|] eqn:Hb; [|apply grows_refl].
  destruct (decide (Booking.status b ≠ WAITLISTED)) as [|Hw]; [apply grows_refl|].
  apply dec_stable in Hw. cbv zeta.
  destruct (CBS.conferences s !! Booking.conferenceName b) as [c|] eqn:Hc;
    [|apply grows_refl].
  destruct (Conference.hasStarted now c).
  { destruct (CBS.cancelAllWaitlistedBookings _ _) as [r s1] eqn:Hrun.
    apply cancelAllWaitlistedBookings_spec in Hrun as (E & C & _).
    destruct r; by apply grows_helper. }
  destruct (now >? time (Booking.confirmationDeadline b)).
  { destruct (Conference.hasSlotAvailable c); [|apply grows_set_waitlists].
    destruct (CBS.processWaitlist _ _ _) as [r s1] eqn:Hrun.
    apply processWaitlist_spec in Hrun as (E & C & _).
    assert (G1 : grows s s1).
    { eapply grows_trans; [apply grows_set_waitlists|by apply grows_helper]. }
    by destruct r. }
  destruct (CBS.hasConflictingBooking _ c s) as [e|[]];
    [apply grows_refl|apply grows_refl|].
  destruct (Conference.availableSlots c >? 0); [|apply grows_refl].
  destruct (CBS.removeFromOverlappingWaitlists _ _ _) as [r s1] eqn:Hrun.
  apply removeFromOverlappingWaitlists_spec in Hrun as (E & C & _).
  assert (G1 : grows s s1).
  { eapply grows_trans; [|by apply grows_helper].
    set (s0 := CBS.set_waitlists
                 (<[Booking.conferenceName b :=
                      filter (λ currentId, currentId ≠ id)
                        (CBS.waitlist_of s (Booking.conferenceName b))]>
                    (CBS.waitlists s))
                 (CBS.set_conferences
                    (<[Booking.conferenceName b :=
                         Conference.set_availableSlots
                           (Conference.availableSlots c - 1) c]>
                       (CBS.conferences s)) s)).
    assert (G0 : grows s s0).
    { eapply grows_trans; [|apply grows_set_waitlists].
      apply grows_insert_conference. intros c0 Hc0.
      assert (c0 = c) as -> by congruence. apply conference_step_slots. }
    eapply grows_trans; [exact G0|].
    refine (grows_insert_booking s0 id _ _).
    intros b0 Hb0. assert (b0 = b) as -> by (simpl in Hb0; congruence).
    unfold booking_step. simpl. auto 10. }
  by destruct r.
Qed.

Lemma grows_exec (e : CBS.event) (s : CBS.t) : grows s (CBS.exec e s).2.
Proof.
  unfold CBS.exec, CBS.fmap_result. destruct (CBS.ev_call e); simpl.
  - apply grows_addConference.
  - apply grows_addUser.
  - apply grows_bookConference.
  - apply grows_cancelBooking.
  - apply grows_confirmWaitlistedBooking.
  - apply grows_refl.
Qed.

Lemma grows_run (es : list CBS.event) (s : CBS.t) : grows s (CBS.run es s).
Proof.
  revert s. induction es as [|e es IH]; intros s; simpl; [apply grows_refl|].
  eapply grows_trans; [apply grows_exec|apply IH].
Qed.

(** X6. The life of a booking. Along any sequence of calls, from any
    system, a stored booking is never dropped and keeps its id, user and
    conference; once CANCELED it stays CANCELED, and once CONFIRMED it is
    never WAITLISTED again: its status only stays, becomes CANCELED, or
    goes from WAITLISTED to CONFIRMED. *)
Theorem booking_lifecycle (es : list CBS.event) (s : CBS.t) (id : string)
    (b : Booking.t) :
  CBS.bookings s !! id = Some b →
  ∃ b', CBS.bookings (CBS.run es s) !! id = Some b'
        ∧ Booking.bookingId b' = Booking.bookingId b
        ∧ Booking.userId b' = Booking.userId b
        ∧ Booking.conferenceName b' = Booking.conferenceName b
        ∧ (Booking.status b' = Booking.status b
           ∨ Booking.status b' = CANCELED
           ∨ (Booking.status b = WAITLISTED ∧ Booking.status b' = CONFIRMED))
        ∧ (Booking.status b = CANCELED → Booking.status b' = CANCELED)
        ∧ (Booking.status b = CONFIRMED → Booking.status b' ≠ WAITLISTED).
Proof.
  intros Hb. destruct (gr_bookings _ _ (grows_run es s) id b Hb)
    as (b' & Hb' & I & U & C & S).
  exists b'. split_and!; auto.
  - intros Hc. destruct S as [S|[S|[S _]]]; congruence.
  - intros Hc. destruct S as [S|[S|[S _]]]; congruence.
Qed.

(** X7. Registrations are permanent. Along any sequence of calls, from
    any system, a conference stays registered under its name and only its
    free-slot counter can change; a user stays registered and only the
    ledger can change. *)
Theorem registrations_are_permanent (es : list CBS.event) (s : CBS.t) :
  (∀ nm c, CBS.conferences s !! nm = Some c →
     ∃ n, CBS.conferences (CBS.run es s) !! nm
          = Some (Conference.set_availableSlots n c))
  ∧ (∀ uid u, CBS.users s !! uid = Some u →
       ∃ m, CBS.users (CBS.run es s) !! uid = Some (User.set_bookingStatuses m u)).
Proof.
  split.
  - intros nm c Hc. destruct (gr_conferences _ _ (grows_run es s) nm c Hc)
      as (c' & Hc' & N & L & T & S & E & Tot).
    exists (Conference.availableSlots c'). rewrite Hc'. f_equal.
    destruct c, c'. unfold Conference.set_availableSlots. simpl in *. congruence.
  - intros uid u Hu. destruct (gr_users _ _ (grows_run es s) uid u Hu)
      as (u' & Hu' & I & T).
    exists (User.bookingStatuses u'). rewrite Hu'. f_equal.
    destruct u, u'. unfold User.set_bookingStatuses. simpl in *. congruence.
Qed.

(** ** The exact result of an eviction *)

Lemma elem_of_overlappingConferences (c : Conference.t) (s : CBS.t) (nm : string) :
  nm ∈ CBS.overlappingConferences c s ↔ overlaps_other s c nm.
Proof.
  unfold CBS.overlappingConferences, overlaps_other, overlap.
  rewrite list_elem_of_fmap. split.
  - intros [[k v] [-> Hin]]. apply list_elem_of_filter in Hin as [[Hne Hov] Hin].
    apply elem_of_map_items in Hin. simpl in *. eauto.
  - intros [Hne (c0 & Hc0 & Hov)]. exists (nm, c0). split; [done|].
    apply list_elem_of_filter. split; [done|]. by apply elem_of_map_items.
Qed.

Lemma NoDup_overlappingConferences (c : Conference.t) (s : CBS.t) :
  NoDup (CBS.overlappingConferences c s).
Proof.
  unfold CBS.overlappingConferences. apply NoDup_filter_fst, NoDup_map_items_fst.
Qed.

Lemma booked_by_insert (s : CBS.t) (W : gmap string (list string)) (a : string)
    (b b' : Booking.t) (uid x : string) :
  CBS.bookings s !! a = Some b → Booking.userId b' = Booking.userId b →
  booked_by (CBS.set_bookings (<[a := b']> (CBS.bookings s)) (CBS.set_waitlists W s)) uid x
  ↔ booked_by s uid x.
Proof.
  intros Hb Hu. unfold booked_by. simpl. destruct (decide (a = x)) as [->|Hne].
  - rewrite lookup_insert_eq, Hb. simpl. by rewrite Hu.
  - by rewrite lookup_insert_ne.
Qed.

Lemma evict_loop_exact (uid cn : string) (wl : list string) :
  ∀ (acc : list string) (s : CBS.t),
  (∀ x, x ∈ wl → is_Some (CBS.bookings s !! x)) →
  ∃ s', CBS.evict_loop uid cn wl acc s
        = (inr (acc ++ filter (λ x, ¬ booked_by s uid x) wl), s')
    ∧ CBS.conferences s' = CBS.conferences s
    ∧ CBS.users s' = CBS.users s
    ∧ (∀ nm, nm ≠ cn → CBS.waitlist_of s' nm = CBS.waitlist_of s nm)
    ∧ (∀ x, CBS.bookings s' !! x =
            if decide (x ∈ wl ∧ booked_by s uid x)
            then Booking.setStatus CANCELED <$> CBS.bookings s !! x
            else CBS.bookings s !! x).
Proof.
  induction wl as [|a rest IH]; intros acc s Hall; simpl.
  - exists s. unfold CBS.ret. rewrite app_nil_r. split_and!; auto.
  - unfold CBS.bind at 1, CBS.waitlists_assign, CBS.modify.
    set (s1 := CBS.set_waitlists (<[cn := rest]> (CBS.waitlists s)) s).
    assert (W1 : ∀ nm, nm ≠ cn → CBS.waitlist_of s1 nm = CBS.waitlist_of s nm).
    { intros nm Hne. unfold s1. rewrite waitlist_of_assign.
      destruct (decide (cn = nm)); congruence. }
    unfold CBS.bind at 1, CBS.read, CBS.bookings_at.
    change (CBS.bookings s1) with (CBS.bookings s).
    destruct (Hall a) as [b Hb]; [by left|]. rewrite Hb.
    destruct (decide (Booking.userId b ≠ uid)) as [Hne|Heq].
    + assert (Hnb : ¬ booked_by s uid a).
      { unfold booked_by. rewrite Hb. simpl. congruence. }
      destruct (IH (acc ++ [a]) s1) as (s' & Hrun & C & U & W & B).
      { intros x Hx. apply Hall. by right. }
      exists s'. rewrite Hrun. split_and!; auto.
      * rewrite (filter_cons_True _ a rest Hnb), <- app_assoc. done.
      * intros nm Hnm. rewrite W, W1; auto.
      * intros x. rewrite B. change (CBS.bookings s1) with (CBS.bookings s).
        change (booked_by s1 uid x) with (booked_by s uid x).
        destruct (decide (x ∈ rest ∧ booked_by s uid x)) as [[Hin Hbk]|Hno].
        -- rewrite decide_True; [done|]. split; [by right|done].
        -- rewrite decide_False; [done|]. intros [Hin Hbk].
           apply elem_of_cons in Hin as [->|Hin]; [done|]. by apply Hno.
    + apply dec_stable in Heq.
      assert (Hbk : booked_by s uid a).
      { unfold booked_by. rewrite Hb. simpl. congruence. }
      unfold CBS.bind at 1. rewrite booking_setStatus_unfold.
      change (CBS.bookings s1) with (CBS.bookings s). rewrite Hb.
      set (s2 := CBS.set_bookings
                   (<[a := Booking.setStatus CANCELED b]> (CBS.bookings s)) s1).
      assert (K : ∀ x, booked_by s2 uid x ↔ booked_by s uid x).
      { intros x. apply (booked_by_insert s _ a b); done. }
      destruct (IH acc s2) as (s' & Hrun & C & U & W & B).
      { intros x Hx. unfold s2. simpl. rewrite lookup_insert.
        destruct (decide (a = x)); [done|]. apply Hall. by right. }
      exists s'. rewrite Hrun. split_and!; auto.
      * rewrite (filter_cons_False _ a rest) by (intros H; by apply H).
        assert (filter (λ x, ¬ booked_by s2 uid x) rest
                = filter (λ x, ¬ booked_by s uid x) rest) as ->; [|done].
        apply list_filter_iff. intros x. by rewrite K.
      * intros nm Hnm. rewrite W; auto. by apply W1.
      * intros x. rewrite B.
        assert (Hs2 : CBS.bookings s2 !! x =
                      if decide (a = x) then Some (Booking.setStatus CANCELED b)
                      else CBS.bookings s !! x).
        { unfold s2. simpl. by rewrite lookup_insert. }
        rewrite Hs2.
        destruct (decide (a = x)) as [<-|Hax].
        -- rewrite (decide_True (P := a ∈ a :: rest ∧ booked_by s uid a))
             by (split; [by left|done]).
           rewrite Hb. simpl. by destruct (decide (a ∈ rest ∧ booked_by s2 uid a)).
        -- destruct (decide (x ∈ rest ∧ booked_by s2 uid x)) as [[Hin Hbx]|Hno].
           ++ rewrite decide_True; [done|]. split; [by right|by apply K].
           ++ rewrite decide_False; [done|]. intros [Hin Hbx].
              apply elem_of_cons in Hin as [->|Hin]; [done|].
              apply Hno. split; [done|by apply K].
Qed.

Lemma evict_from_exact (uid cn : string) (s : CBS.t) :
  (∀ x, x ∈ CBS.waitlist_of s cn → is_Some (CBS.bookings s !! x)) →
  ∃ s', CBS.evict_from uid cn s = (inr tt, s')
    ∧ CBS.conferences s' = CBS.conferences s
    ∧ CBS.users s' = CBS.users s
    ∧ (∀ nm, CBS.waitlist_of s' nm =
             if decide (cn = nm)
             then filter (λ x, ¬ booked_by s uid x) (CBS.waitlist_of s cn)
             else CBS.waitlist_of s nm)
    ∧ (∀ x, CBS.bookings s' !! x =
            if decide (x ∈ CBS.waitlist_of s cn ∧ booked_by s uid x)
            then Booking.setStatus CANCELED <$> CBS.bookings s !! x
            else CBS.bookings s !! x).
Proof.
  intros Hall. unfold CBS.evict_from, CBS.bind at 1, CBS.waitlists_ref.
  set (s0 := CBS.set_waitlists (<[cn := CBS.waitlist_of s cn]> (CBS.waitlists s)) s).
  destruct (evict_loop_exact uid cn (CBS.waitlist_of s cn) [] s0)
    as (s1 & Hrun & C & U & W & B); [exact Hall|].
  unfold CBS.bind. rewrite Hrun. unfold CBS.waitlists_assign, CBS.modify.
  eexists. split; [reflexivity|]. split_and!; [done..| |done].
  intros nm. rewrite waitlist_of_assign. destruct (decide (cn = nm)); [done|].
  rewrite W by done. unfold s0. rewrite waitlist_of_assign.
  by destruct (decide (cn = nm)).
Qed.

Lemma evict_all_exact (uid : string) (l : list string) :
  ∀ s, NoDup l → queues_in_table s →
  ∃ s', CBS.evict_all uid l s = (inr tt, s')
    ∧ CBS.conferences s' = CBS.conferences s
    ∧ CBS.users s' = CBS.users s
    ∧ (∀ nm, CBS.waitlist_of s' nm =
             if decide (nm ∈ l)
             then filter (λ x, ¬ booked_by s uid x) (CBS.waitlist_of s nm)
             else CBS.waitlist_of s nm)
    ∧ (∀ x, booked_by s uid x → (∃ nm, nm ∈ l ∧ x ∈ CBS.waitlist_of s nm) →
            CBS.bookings s' !! x = Booking.setStatus CANCELED <$> CBS.bookings s !! x)
    ∧ (∀ x, ¬ (booked_by s uid x ∧ ∃ nm, nm ∈ l ∧ x ∈ CBS.waitlist_of s nm) →
            CBS.bookings s' !! x = CBS.bookings s !! x).
Proof.
  induction l as [|cn rest IH]; intros s Hnd Q; simpl.
  - exists s. unfold CBS.ret. split_and!; auto.
    intros x _ (nm & Hin & _). by apply elem_of_nil in Hin.
  - apply NoDup_cons in Hnd as [Hcn Hnd].
    destruct (evict_from_exact uid cn s) as (s1 & Hrun1 & C1 & U1 & W1 & B1).
    { intros x Hx. by apply (Q cn). }
    assert (K : ∀ x, booked_by s1 uid x ↔ booked_by s uid x).
    { intros x. unfold booked_by. rewrite B1.
      destruct (decide _); [|done]. by destruct (CBS.bookings s !! x). }
    assert (Wr : ∀ nm, nm ∈ rest → CBS.waitlist_of s1 nm = CBS.waitlist_of s nm).
    { intros nm Hin. rewrite W1. destruct (decide (cn = nm)); [|done]. by subst. }
    assert (Q1 : queues_in_table s1).
    { intros nm x Hx. rewrite B1. rewrite W1 in Hx.
      assert (Hx' : is_Some (CBS.bookings s !! x)).
      { destruct (decide (cn = nm)) as [->|].
        - apply list_elem_of_filter in Hx as [_ Hx]. by apply (Q nm).
        - by apply (Q nm). }
      destruct Hx' as [b Hb]. rewrite Hb. destruct (decide (_ ∧ _)); simpl; eauto. }
    destruct (IH s1 Hnd Q1) as (s' & Hrun & C & U & W & Ba & Bb).
    unfold CBS.bind. rewrite Hrun1. exists s'. split; [done|].
    split_and!; [congruence..| | |].
    + intros nm. rewrite W. destruct (decide (nm ∈ rest)) as [Hin|Hnin].
      * rewrite decide_True by (by right). rewrite Wr by done.
        apply list_filter_iff. intros x. by rewrite K.
      * rewrite W1. destruct (decide (cn = nm)) as [->|Hne].
        -- by rewrite decide_True by (by left).
        -- rewrite decide_False; [done|].
           intros [->|?]%elem_of_cons; done.
    + intros x Hbk (nm & Hin & Hx).
      destruct (decide (Exists (λ nm, x ∈ CBS.waitlist_of s nm) rest)) as [Hr|Hr].
      * apply Exists_exists in Hr as (nm' & Hin' & Hx').
        rewrite Ba; [|by apply K|exists nm'; by rewrite Wr].
        rewrite B1. destruct (decide _); [|done].
        by destruct (CBS.bookings s !! x).
      * rewrite Bb.
        -- rewrite B1. rewrite decide_True; [done|]. split; [|done].
           apply elem_of_cons in Hin as [->|Hin]; [done|].
           exfalso. apply Hr, Exists_exists. eauto.
        -- intros [_ (nm' & Hin' & Hx')]. apply Hr, Exists_exists.
           exists nm'. split; [done|]. by rewrite <- Wr.
    + intros x Hno. rewrite Bb.
      * rewrite B1. rewrite decide_False; [done|]. intros [Hx Hbk].
        apply Hno. split; [done|]. exists cn. split; [by left|done].
      * intros [Hbk (nm' & Hin' & Hx')]. apply Hno. split; [by apply K|].
        exists nm'. split; [by right|]. by rewrite <- Wr.
Qed.

Lemma removeFromOverlappingWaitlists_exact (uid : string) (c : Conference.t)
    (s : CBS.t) :
  queues_in_table s →
  ∃ s', CBS.removeFromOverlappingWaitlists uid c s = (inr tt, s')
    ∧ CBS.conferences s' = CBS.conferences s
    ∧ CBS.users s' = CBS.users s
    ∧ (∀ nm, overlaps_other s c nm →
             CBS.waitlist_of s' nm
             = filter (λ x, ¬ booked_by s uid x) (CBS.waitlist_of s nm))
    ∧ (∀ nm, ¬ overlaps_other s c nm →
             CBS.waitlist_of s' nm = CBS.waitlist_of s nm)
    ∧ (∀ x, is_evicted s uid c x →
            CBS.bookings s' !! x = Booking.setStatus CANCELED <$> CBS.bookings s !! x)
    ∧ (∀ x, ¬ is_evicted s uid c x → CBS.bookings s' !! x = CBS.bookings s !! x).
Proof.
  intros Q. unfold CBS.removeFromOverlappingWaitlists.
  destruct (evict_all_exact uid (CBS.overlappingConferences c s) s
              (NoDup_overlappingConferences c s) Q)
    as (s' & Hrun & C & U & W & Ba & Bb).
  exists s'. split_and!; auto.
  - intros nm Hnm. rewrite W. rewrite decide_True; [done|].
    by apply elem_of_overlappingConferences.
  - intros nm Hnm. rewrite W. rewrite decide_False; [done|].
    by rewrite elem_of_overlappingConferences.
  - intros x [Hbk (nm & Hnm & Hx)]. apply Ba; [done|]. exists nm.
    split; [by apply elem_of_overlappingConferences|done].
  - intros x Hno. apply Bb. intros [Hbk (nm & Hnm & Hx)]. apply Hno.
    split; [done|]. exists nm. split; [by apply elem_of_overlappingConferences|done].
Qed.

(** X8. What [removeFromOverlappingWaitlists] does, exactly. In a system
    reached by calls it never fails; in the queue of every other
    conference that overlaps [c] it drops the bookings of the user and
    keeps the rest in order; it makes the dropped bookings CANCELED; and
    it touches no other queue, no other booking, no conference and no
    ledger. *)
Theorem eviction_exactly (es : list CBS.event) (uid : string) (c : Conference.t) :
  let s := CBS.run es CBS.empty in
  let r := CBS.removeFromOverlappingWaitlists uid c s in
  r.1 = inr tt
  ∧ CBS.conferences r.2 = CBS.conferences s
  ∧ CBS.users r.2 = CBS.users s
  ∧ (∀ nm, overlaps_other s c nm →
           CBS.waitlist_of r.2 nm
           = filter (λ x, ¬ booked_by s uid x) (CBS.waitlist_of s nm))
  ∧ (∀ nm, ¬ overlaps_other s c nm → CBS.waitlist_of r.2 nm = CBS.waitlist_of s nm)
  ∧ (∀ x, is_evicted s uid c x →
          CBS.bookings r.2 !! x = Booking.setStatus CANCELED <$> CBS.bookings s !! x)
  ∧ (∀ x, ¬ is_evicted s uid c x → CBS.bookings r.2 !! x = CBS.bookings s !! x).
Proof.
  intros s r.
  assert (I : Inv s) by (apply reachable_Inv, reachable_run; constructor).
  destruct (removeFromOverlappingWaitlists_exact uid c s (inv_queues s I))
    as (s' & Hrun & H).
  unfold r. rewrite Hrun. done.
Qed.

(** ** Cancelling *)

Lemma insert_as_alter {A : Type} (f : A → A) (m : gmap string A) (k : string) (v : A) :
  m !! k = Some v → <[k := f v]> m = alter f k m.
Proof.
  intros H. apply map_eq. intros j. destruct (decide (k = j)) as [<-|Hne].
  - by rewrite lookup_insert_eq, lookup_alter_eq, H.
  - by rewrite lookup_insert_ne, lookup_alter_ne.
Qed.

Lemma commit_cancel_exact (id uid : string) (b : Booking.t) (u : User.t) (s : CBS.t) :
  CBS.bookings s !! id = Some b → CBS.users s !! uid = Some u →
  commit_cancel id uid s
  = (inr true,
     CBS.set_users (alter (User.removeBooking id) uid (CBS.users s))
       (CBS.set_bookings (alter (Booking.setStatus CANCELED) id (CBS.bookings s)) s)).
Proof.
  intros Hb Hu. unfold commit_cancel. rewrite Hb. cbv zeta.
  change (CBS.users (CBS.set_bookings _ s)) with (CBS.users s). rewrite Hu.
  rewrite (insert_as_alter _ _ _ _ Hb), (insert_as_alter _ _ _ _ Hu). done.
Qed.

Lemma commit_cancel_success (id uid : string) (s s' : CBS.t) (v : bool) :
  commit_cancel id uid s = (inr v, s') →
  ∃ b, CBS.bookings s' !! id = Some b ∧ Booking.status b = CANCELED.
Proof.
  unfold commit_cancel. destruct (CBS.bookings s !! id) as [b|]; [|done].
  cbv zeta. destruct (CBS.users _ !! uid); [|done]. intros [= <- <-].
  simpl. rewrite lookup_insert_eq. eauto.
Qed.

Lemma cancelBooking_success (now : Z) (id : string) (s : CBS.t) (v : bool) :
  (CBS.cancelBooking now id s).1 = inr v →
  ∃ b, CBS.bookings (CBS.cancelBooking now id s).2 !! id = Some b
       ∧ Booking.status b = CANCELED.
Proof.
  rewrite cancelBooking_unfold.
  destruct (CBS.bookings s !! id) as [b|]; [|done].
  destruct (decide (Booking.status b = CANCELED)); [done|]. cbv zeta.
  destruct (CBS.conferences s !! Booking.conferenceName b) as [c|]; [|done].
  destruct (Conference.hasStarted now c); [done|].
  destruct (match Booking.status b with
            | CONFIRMED => _ | WAITLISTED => _ | CANCELED => _ end) as [[e|[]] s1];
    [done|].
  destruct (commit_cancel id (Booking.userId b) s1) as [r s2] eqn:Hcc. simpl.
  intros ->. by apply commit_cancel_success in Hcc.
Qed.

(** X9. Cancelling a CONFIRMED booking of a conference that has not
    started returns true; the conference gets one slot back; the booking
    becomes CANCELED and leaves the ledger of its user; the booking at the
    head of the conference's queue, if any, gets the deadline now + 3600
    and keeps its status and its place: no queue changes. *)
Theorem cancel_confirmed_booking (es : list CBS.event) (now : Z) (id : string)
    (b : Booking.t) (c : Conference.t) :
  let s := CBS.run es CBS.empty in
  CBS.bookings s !! id = Some b → Booking.status b = CONFIRMED →
  CBS.conferences s !! Booking.conferenceName b = Some c →
  Conference.hasStarted now c = false →
  let cn := Booking.conferenceName b in
  let r := CBS.cancelBooking now id s in
  r.1 = inr true
  ∧ CBS.conferences r.2
    = <[cn := Conference.increaseAvailableSlots c]> (CBS.conferences s)
  ∧ (∀ nm, CBS.waitlist_of r.2 nm = CBS.waitlist_of s nm)
  ∧ CBS.bookings r.2
    = alter (Booking.setStatus CANCELED) id
        (match head (CBS.waitlist_of s cn) with
         | Some h =>
           alter (Booking.setConfirmationDeadline (mkTimestamp (now + 3600))) h
             (CBS.bookings s)
         | None => CBS.bookings s
         end)
  ∧ CBS.users r.2 = alter (User.removeBooking id) (Booking.userId b) (CBS.users s).
Proof.
  intros s Hb Hst Hc Hs cn r. unfold r.
  assert (I : Inv s) by (apply reachable_Inv, reachable_run; constructor).
  destruct (inv_booking s I id b Hb) as [_ (u & Hu & _)].
  rewrite cancelBooking_unfold, Hb.
  destruct (decide (Booking.status b = CANCELED)) as [Hcan|_]; [congruence|].
  cbv zeta. rewrite Hc, Hs, Hst. fold cn.
  set (s0 := CBS.set_conferences
               (<[cn := Conference.increaseAvailableSlots c]> (CBS.conferences s)) s).
  destruct (CBS.processWaitlist now cn s0) as [r1 s1] eqn:Hp.
  apply processWaitlist_spec in Hp as (E & C & W & R).
  destruct r1 as [e|[]].
  { destruct R as [_ R]. exfalso. apply R. exact (inv_queues s I). }
  change (CBS.waitlist_of s0 cn) with (CBS.waitlist_of s cn) in R.
  change (CBS.bookings s0) with (CBS.bookings s) in R.
  assert (Hb1 : is_Some (CBS.bookings s1 !! id)).
  { destruct (evolves_booking_fwd _ _ _ _ E Hb) as (b1 & Hb1 & _). eauto. }
  destruct Hb1 as [b1 Hb1].
  assert (Hu1 : CBS.users s1 !! Booking.userId b = Some u).
  { by rewrite (ev_users _ _ E). }
  rewrite (commit_cancel_exact _ _ _ _ _ Hb1 Hu1). cbn [fst snd].
  split_and!; [done| | | |].
  - simpl. by rewrite C.
  - intros nm. change (CBS.waitlist_of s1 nm = CBS.waitlist_of s nm). by rewrite W.
  - simpl. f_equal.
    destruct (CBS.waitlist_of s cn) as [|h rest]; simpl; [done|].
    destruct R as (bh & Hbh & ->). by apply insert_as_alter.
  - simpl. by rewrite (ev_users _ _ E).
Qed.

(** X10. Cancelling a WAITLISTED booking of a conference that has not
    started returns true; the id leaves the queue of its conference, whose
    other ids keep their order; the booking becomes CANCELED and leaves
    the ledger of its user; no slot counter and no other queue or booking
    changes, and nobody gets a deadline. *)
Theorem cancel_waitlisted_booking (es : list CBS.event) (now : Z) (id : string)
    (b : Booking.t) (c : Conference.t) :
  let s := CBS.run es CBS.empty in
  CBS.bookings s !! id = Some b → Booking.status b = WAITLISTED →
  CBS.conferences s !! Booking.conferenceName b = Some c →
  Conference.hasStarted now c = false →
  let cn := Booking.conferenceName b in
  let r := CBS.cancelBooking now id s in
  r.1 = inr true
  ∧ CBS.conferences r.2 = CBS.conferences s
  ∧ CBS.waitlist_of r.2 cn = filter (λ x, x ≠ id) (CBS.waitlist_of s cn)
  ∧ (∀ nm, nm ≠ cn → CBS.waitlist_of r.2 nm = CBS.waitlist_of s nm)
  ∧ CBS.bookings r.2 = alter (Booking.setStatus CANCELED) id (CBS.bookings s)
  ∧ CBS.users r.2 = alter (User.removeBooking id) (Booking.userId b) (CBS.users s).
Proof.
  intros s Hb Hst Hc Hs cn r. unfold r.
  assert (I : Inv s) by (apply reachable_Inv, reachable_run; constructor).
  destruct (inv_booking s I id b Hb) as [_ (u & Hu & _)].
  rewrite cancelBooking_unfold, Hb.
  destruct (decide (Booking.status b = CANCELED)) as [Hcan|_]; [congruence|].
  cbv zeta. rewrite Hc, Hs, Hst. fold cn.
  set (s0 := CBS.set_waitlists
               (<[cn := filter (λ currentId, currentId ≠ id) (CBS.waitlist_of s cn)]>
                  (CBS.waitlists s)) s).
  assert (Hb0 : CBS.bookings s0 !! id = Some b) by exact Hb.
  assert (Hu0 : CBS.users s0 !! Booking.userId b = Some u) by exact Hu.
  rewrite (commit_cancel_exact _ _ _ _ _ Hb0 Hu0). cbn [fst snd].
  split_and!; [done..| | |done|done].
  - change (CBS.waitlist_of s0 cn = filter (λ x, x ≠ id) (CBS.waitlist_of s cn)).
    unfold s0. rewrite waitlist_of_assign. by rewrite decide_True.
  - intros nm Hne.
    change (CBS.waitlist_of s0 nm = CBS.waitlist_of s nm).
    unfold s0. rewrite waitlist_of_assign. by rewrite decide_False.
Qed.

(** X11. A cancellation is final. Once [cancelBooking] has returned true
    for an id, then after any further calls whatsoever the status of the
    id reads CANCELED, cancelling it again fails with "Booking is already
    canceled" and confirming it fails with "Booking is not in waitlisted
    state", both leaving the system as it is. *)
Theorem cancellation_is_final (s : CBS.t) (now : Z) (id : string)
    (es : list CBS.event) (now' : Z) :
  (CBS.cancelBooking now id s).1 = inr true →
  let s' := CBS.run es (CBS.cancelBooking now id s).2 in
  CBS.getBookingStatus id s' = inr CANCELED
  ∧ CBS.cancelBooking now' id s'
    = (inl (runtime_error "Booking is already canceled"), s')
  ∧ CBS.confirmWaitlistedBooking now' id s'
    = (inl (runtime_error "Booking is not in waitlisted state"), s').
Proof.
  intros Hok s'.
  destruct (cancelBooking_success now id s true Hok) as (b & Hb & Hst).
  destruct (gr_bookings _ _ (grows_run es _) id b Hb) as (b' & Hb' & _ & _ & _ & S).
  fold s' in Hb'.
  assert (Hst' : Booking.status b' = CANCELED).
  { destruct S as [S|[S|[S _]]]; congruence. }
  split_and!.
  - unfold CBS.getBookingStatus. by rewrite Hb', Hst'.
  - unfold CBS.cancelBooking. rewrite Hb'. by rewrite decide_True.
  - unfold CBS.confirmWaitlistedBooking. rewrite Hb'.
    rewrite decide_True; [done|]. by rewrite Hst'.
Qed.

(** ** Booking *)

Lemma commit_booking_exact (uid id : string) (nb : Booking.t) (u : User.t)
    (s : CBS.t) :
  CBS.users s !! uid = Some u →
  commit_booking uid id nb s
  = (inr id,
     CBS.set_users (<[uid := User.addBooking id (Booking.status nb) u]> (CBS.users s))
       (match CBS.bookings s !! id with
        | Some _ => s
        | None => CBS.set_bookings (<[id := nb]> (CBS.bookings s)) s
        end)).
Proof.
  intros Hu. unfold commit_booking. cbv zeta.
  destruct (CBS.bookings s !! id); simpl; by rewrite Hu.
Qed.

(** [bookConference] once its five checks have passed. *)
Lemma bookConference_passes (now : Z) (indet : Timestamp) (uid cn : string)
    (u : User.t) (c : Conference.t) (s : CBS.t) :
  Inv s →
  CBS.users s !! uid = Some u → CBS.conferences s !! cn = Some c →
  Conference.hasStarted now c = false →
  ¬ has_active_booking s uid cn → ¬ holds_confirmed_overlapping s uid c →
  CBS.bookConference now indet uid cn s =
  let nb := Booking.new now indet uid cn in
  if Conference.availableSlots c >? 0 then
    let c' := Conference.set_availableSlots (Conference.availableSlots c - 1) c in
    match CBS.removeFromOverlappingWaitlists uid c'
            (CBS.set_conferences (<[cn := c']> (CBS.conferences s)) s) with
    | (inl e, s1) => (inl e, s1)
    | (inr _, s1) =>
      commit_booking uid (new_id now uid cn) (Booking.setStatus CONFIRMED nb) s1
    end
  else
    commit_booking uid (new_id now uid cn) (Booking.setStatus WAITLISTED nb)
      (CBS.set_waitlists
         (<[cn := CBS.waitlist_of s cn ++ [new_id now uid cn]]> (CBS.waitlists s)) s).
Proof.
  intros I Hu Hc Hs Hna Hno. rewrite bookConference_unfold, Hu, Hc, Hs.
  destruct (CBS.findActiveBooking uid cn s) as [[id b]|] eqn:Hf.
  { exfalso. eapply Hna, findActiveBooking_Some, Hf. }
  destruct (hasConflictingBooking_total s uid c I) as [x Hx]; [eauto|].
  rewrite Hx. destruct x; [|done].
  exfalso. by apply Hno, hasConflictingBooking_true.
Qed.

Lemma overlaps_other_slots (s s0 : CBS.t) (cn : string) (c : Conference.t) (n : Z)
    (nm : string) :
  Conference.name c = cn →
  CBS.conferences s0 = <[cn := Conference.set_availableSlots n c]> (CBS.conferences s) →
  overlaps_other s0 (Conference.set_availableSlots n c) nm ↔ overlaps_other s c nm.
Proof.
  intros Hn Hc. unfold overlaps_other, overlap. simpl. rewrite Hc, Hn.
  split; intros [Hne H]; (split; [done|]).
  - by rewrite lookup_insert_ne in H.
  - by rewrite lookup_insert_ne.
Qed.

Lemma is_evicted_slots (s s0 : CBS.t) (uid cn : string) (c : Conference.t) (n : Z)
    (x : string) :
  Conference.name c = cn →
  CBS.conferences s0 = <[cn := Conference.set_availableSlots n c]> (CBS.conferences s) →
  (∀ y, booked_by s0 uid y ↔ booked_by s uid y) →
  (∀ nm, nm ≠ cn → CBS.waitlist_of s0 nm = CBS.waitlist_of s nm) →
  is_evicted s0 uid (Conference.set_availableSlots n c) x ↔ is_evicted s uid c x.
Proof.
  intros Hn Hc Hb Hw. unfold is_evicted. rewrite Hb.
  split; intros [Hbk (nm & Ho & Hx)]; (split; [done|]); exists nm.
  - apply (overlaps_other_slots s s0 cn c n nm Hn Hc) in Ho.
    split; [done|]. rewrite <- Hw; [done|]. destruct Ho as [Hne _]. congruence.
  - split; [by apply (overlaps_other_slots s s0 cn c n nm Hn Hc)|].
    rewrite Hw; [done|]. destruct Ho as [Hne _]. congruence.
Qed.

Lemma is_evicted_in_table (s : CBS.t) (uid : string) (c : Conference.t) (x : string) :
  is_evicted s uid c x → is_Some (CBS.bookings s !! x).
Proof.
  intros [Hbk _]. unfold booked_by in Hbk.
  destruct (CBS.bookings s !! x); [eauto|done].
Qed.

(** X12. The outcome of [bookConference] in a system reached by calls,
    check by check in the order of the code: unknown user, unknown
    conference, conference started, an active booking of the same user
    for the same conference (the error names one), a held CONFIRMED
    booking that overlaps; otherwise the call returns the id built from
    user, conference and clock. *)
Theorem bookConference_outcome (es : list CBS.event) (now : Z) (indet : Timestamp)
    (uid cn : string) :
  let s := CBS.run es CBS.empty in
  let r := (CBS.bookConference now indet uid cn s).1 in
  (CBS.users s !! uid = None → r = inl (runtime_error "User not found"))
  ∧ (is_Some (CBS.users s !! uid) → CBS.conferences s !! cn = None →
     r = inl (runtime_error "Conference not found"))
  ∧ (∀ c, is_Some (CBS.users s !! uid) → CBS.conferences s !! cn = Some c →
       (Conference.hasStarted now c = true →
        r = inl (runtime_error "Cannot book conference that has already started"))
       ∧ (Conference.hasStarted now c = false → has_active_booking s uid cn →
          ∃ id b, CBS.bookings s !! id = Some b
                  ∧ Booking.userId b = uid ∧ Booking.conferenceName b = cn
                  ∧ Booking.status b ≠ CANCELED
                  ∧ r = inl (runtime_error (CBS.msg_active_booking id)))
       ∧ (Conference.hasStarted now c = false → ¬ has_active_booking s uid cn →
          holds_confirmed_overlapping s uid c →
          r = inl (runtime_error "User has a conflicting booking"))
       ∧ (Conference.hasStarted now c = false → ¬ has_active_booking s uid cn →
          ¬ holds_confirmed_overlapping s uid c →
          r = inr (new_id now uid cn))).
Proof.
  intros s r. unfold r.
  assert (I : Inv s) by (apply reachable_Inv, reachable_run; constructor).
  split_and!.
  - intros Hu. by rewrite bookConference_unfold, Hu.
  - intros [u Hu] Hc. by rewrite bookConference_unfold, Hu, Hc.
  - intros c [u Hu] Hc. split_and!.
    + intros Hs. by rewrite bookConference_unfold, Hu, Hc, Hs.
    + intros Hs Ha. rewrite bookConference_unfold, Hu, Hc, Hs.
      destruct (CBS.findActiveBooking uid cn s) as [[id b]|] eqn:Hf.
      * exists id, b. unfold CBS.findActiveBooking in Hf.
        apply find_some in Hf as [Hin Hp].
        apply list_elem_of_In, elem_of_map_items in Hin.
        apply bool_decide_eq_true in Hp as (? & ? & ?). done.
      * by apply findActiveBooking_None in Hf.
    + intros Hs Hna Hov. rewrite bookConference_unfold, Hu, Hc, Hs.
      destruct (CBS.findActiveBooking uid cn s) as [[id b]|] eqn:Hf.
      { exfalso. eapply Hna, findActiveBooking_Some, Hf. }
      destruct (hasConflictingBooking_total s uid c I) as [x Hx]; [eauto|].
      rewrite Hx. destruct x; [done|].
      by apply hasConflictingBooking_false in Hx.
    + intros Hs Hna Hno.
      rewrite (bookConference_passes now indet uid cn u c s I Hu Hc Hs Hna Hno).
      cbv zeta. destruct (Conference.availableSlots c >? 0).
      * set (s0 := CBS.set_conferences _ s).
        destruct (removeFromOverlappingWaitlists_exact uid
                    (Conference.set_availableSlots (Conference.availableSlots c - 1) c)
                    s0 (inv_queues s I)) as (s1 & Hrun & _ & U1 & _).
        rewrite Hrun. apply commit_booking_ok. rewrite U1. simpl. eauto.
      * apply commit_booking_ok. simpl. eauto.
Qed.

(** X13. Booking a conference with no free slot, the checks passed: the
    call returns the new id; the id is appended at the tail of the
    conference's queue; the booking is stored WAITLISTED, with the
    deadline the constructor left unset, unless the id is already a key
    of the table, which is then left as it is; the ledger records the id
    as WAITLISTED; no slot counter and no other queue changes. *)
Theorem bookConference_on_full_conference (es : list CBS.event) (now : Z)
    (indet : Timestamp) (uid cn : string) (u : User.t) (c : Conference.t) :
  let s := CBS.run es CBS.empty in
  CBS.users s !! uid = Some u → CBS.conferences s !! cn = Some c →
  Conference.hasStarted now c = false →
  ¬ has_active_booking s uid cn → ¬ holds_confirmed_overlapping s uid c →
  Conference.availableSlots c = 0 →
  let id := new_id now uid cn in
  let r := CBS.bookConference now indet uid cn s in
  r.1 = inr id
  ∧ CBS.conferences r.2 = CBS.conferences s
  ∧ CBS.waitlist_of r.2 cn = CBS.waitlist_of s cn ++ [id]
  ∧ (∀ nm, nm ≠ cn → CBS.waitlist_of r.2 nm = CBS.waitlist_of s nm)
  ∧ CBS.bookings r.2
    = match CBS.bookings s !! id with
      | Some _ => CBS.bookings s
      | None =>
        <[id := Booking.Build id uid cn WAITLISTED indet]> (CBS.bookings s)
      end
  ∧ CBS.users r.2 = <[uid := User.addBooking id WAITLISTED u]> (CBS.users s).
Proof.
  intros s Hu Hc Hs Hna Hno Hav id r. unfold r.
  assert (I : Inv s) by (apply reachable_Inv, reachable_run; constructor).
  rewrite (bookConference_passes now indet uid cn u c s I Hu Hc Hs Hna Hno).
  cbv zeta. rewrite Hav. change (0 >? 0) with false. cbv iota. fold id.
  set (s0 := CBS.set_waitlists
               (<[cn := CBS.waitlist_of s cn ++ [id]]> (CBS.waitlists s)) s).
  assert (Hu0 : CBS.users s0 !! uid = Some u) by exact Hu.
  rewrite (commit_booking_exact _ _ _ _ _ Hu0). cbn [fst snd].
  change (CBS.bookings s0) with (CBS.bookings s).
  split_and!; [done| | | | |done].
  - by destruct (CBS.bookings s !! id).
  - transitivity (CBS.waitlist_of s0 cn); [by destruct (CBS.bookings s !! id)|].
    unfold s0. rewrite waitlist_of_assign. by rewrite decide_True.
  - intros nm Hne.
    transitivity (CBS.waitlist_of s0 nm); [by destruct (CBS.bookings s !! id)|].
    unfold s0. rewrite waitlist_of_assign. by rewrite decide_False.
  - by destruct (CBS.bookings s !! id).
Qed.

(** X14. Booking a conference with a free slot, the checks passed: the
    call returns the new id and takes one slot; the booking is stored
    CONFIRMED and recorded in the ledger; in the queue of every other
    conference that overlaps, the bookings of this user are dropped and
    made CANCELED; every other queue and booking is left as it is, and an
    id that is already a key of the table keeps its old booking. *)
Theorem bookConference_with_free_slot (es : list CBS.event) (now : Z)
    (indet : Timestamp) (uid cn : string) (u : User.t) (c : Conference.t) :
  let s := CBS.run es CBS.empty in
  CBS.users s !! uid = Some u → CBS.conferences s !! cn = Some c →
  Conference.hasStarted now c = false →
  ¬ has_active_booking s uid cn → ¬ holds_confirmed_overlapping s uid c →
  Conference.availableSlots c > 0 →
  let id := new_id now uid cn in
  let r := CBS.bookConference now indet uid cn s in
  r.1 = inr id
  ∧ CBS.conferences r.2
    = <[cn := Conference.set_availableSlots (Conference.availableSlots c - 1) c]>
        (CBS.conferences s)
  ∧ CBS.users r.2 = <[uid := User.addBooking id CONFIRMED u]> (CBS.users s)
  ∧ (∀ nm, overlaps_other s c nm →
           CBS.waitlist_of r.2 nm
           = filter (λ x, ¬ booked_by s uid x) (CBS.waitlist_of s nm))
  ∧ (∀ nm, ¬ overlaps_other s c nm → CBS.waitlist_of r.2 nm = CBS.waitlist_of s nm)
  ∧ (∀ x, is_evicted s uid c x →
          CBS.bookings r.2 !! x = Booking.setStatus CANCELED <$> CBS.bookings s !! x)
  ∧ (∀ x, ¬ is_evicted s uid c x → x ≠ id ∨ is_Some (CBS.bookings s !! id) →
          CBS.bookings r.2 !! x = CBS.bookings s !! x)
  ∧ (CBS.bookings s !! id = None →
     CBS.bookings r.2 !! id = Some (Booking.Build id uid cn CONFIRMED indet)).
Proof.
  intros s Hu Hc Hs Hna Hno Hav id r. unfold r.
  assert (I : Inv s) by (apply reachable_Inv, reachable_run; constructor).
  destruct (inv_conference s I cn c Hc) as [Hname _].
  rewrite (bookConference_passes now indet uid cn u c s I Hu Hc Hs Hna Hno).
  cbv zeta. destruct (Z.gtb_spec (Conference.availableSlots c) 0) as [_|]; [|lia].
  fold id.
  set (c' := Conference.set_availableSlots (Conference.availableSlots c - 1) c).
  set (s0 := CBS.set_conferences (<[cn := c']> (CBS.conferences s)) s).
  destruct (removeFromOverlappingWaitlists_exact uid c' s0 (inv_queues s I))
    as (s1 & Hrun & C1 & U1 & Wa & Wb & Ba & Bb).
  rewrite Hrun.
  assert (Hu1 : CBS.users s1 !! uid = Some u) by (by rewrite U1).
  rewrite (commit_booking_exact _ _ _ _ _ Hu1). cbn [fst snd].
  assert (Ho : ∀ nm, overlaps_other s0 c' nm ↔ overlaps_other s c nm).
  { intros nm. by apply (overlaps_other_slots s s0 cn c). }
  assert (He : ∀ x, is_evicted s0 uid c' x ↔ is_evicted s uid c x).
  { intros x. by apply (is_evicted_slots s s0 uid cn c). }
  set (s2 := match CBS.bookings s1 !! id with
             | Some _ => s1
             | None => CBS.set_bookings
                         (<[id := Booking.setStatus CONFIRMED
                                    (Booking.new now indet uid cn)]>
                            (CBS.bookings s1)) s1
             end).
  assert (C2 : CBS.conferences s2 = CBS.conferences s1).
  { unfold s2. by destruct (CBS.bookings s1 !! id). }
  assert (W2 : ∀ nm, CBS.waitlist_of s2 nm = CBS.waitlist_of s1 nm).
  { intros nm. unfold s2. by destruct (CBS.bookings s1 !! id). }
  assert (B2 : ∀ x, is_Some (CBS.bookings s1 !! id) ∨ x ≠ id →
                    CBS.bookings s2 !! x = CBS.bookings s1 !! x).
  { intros x Hx. unfold s2. destruct (CBS.bookings s1 !! id) eqn:Hid; [done|].
    destruct Hx as [[? ?]|Hx]; [done|]. simpl. by rewrite lookup_insert_ne. }
  split_and!.
  - done.
  - simpl. by rewrite C2, C1.
  - simpl. by rewrite U1.
  - intros nm Hnm. transitivity (CBS.waitlist_of s2 nm); [reflexivity|]. rewrite W2.
    by apply Wa, Ho.
  - intros nm Hnm. transitivity (CBS.waitlist_of s2 nm); [reflexivity|]. rewrite W2.
    apply Wb. by rewrite Ho.
  - intros x Hx. transitivity (CBS.bookings s2 !! x); [reflexivity|].
    assert (H1 : CBS.bookings s1 !! x
                 = Booking.setStatus CANCELED <$> CBS.bookings s !! x).
    { by apply Ba, He. }
    rewrite <- H1. apply B2.
    destruct (decide (x = id)) as [->|]; [left|by right].
    rewrite H1. destruct (is_evicted_in_table _ _ _ _ Hx) as [b ->]. simpl. eauto.
  - intros x Hx Hid. transitivity (CBS.bookings s2 !! x); [reflexivity|].
    assert (H1 : ∀ y, ¬ is_evicted s uid c y →
                      CBS.bookings s1 !! y = CBS.bookings s !! y).
    { intros y Hy. apply Bb. by rewrite He. }
    rewrite <- (H1 x Hx). apply B2.
    destruct (decide (x = id)) as [->|]; [left|by right].
    rewrite (H1 id Hx). by destruct Hid.
  - intros Hid. transitivity (CBS.bookings s2 !! id); [reflexivity|].
    assert (H1 : CBS.bookings s1 !! id = None).
    { rewrite <- Hid. apply Bb. rewrite He. intros Hev.
      apply is_evicted_in_table in Hev as [? ?]. congruence. }
    unfold s2. rewrite H1. simpl. by rewrite lookup_insert_eq.
Qed.

(** ** Confirming *)

(** [confirmWaitlistedBooking] on its successful path. *)
Lemma confirmWaitlistedBooking_succeeds (now : Z) (id : string) (b : Booking.t)
    (c : Conference.t) (s : CBS.t) :
  Inv s →
  CBS.bookings s !! id = Some b → Booking.status b = WAITLISTED →
  CBS.conferences s !! Booking.conferenceName b = Some c →
  Conference.hasStarted now c = false →
  now ≤ time (Booking.confirmationDeadline b) →
  ¬ holds_confirmed_overlapping s (Booking.userId b) c →
  Conference.availableSlots c > 0 →
  let cn := Booking.conferenceName b in
  let uid := Booking.userId b in
  let r := CBS.confirmWaitlistedBooking now id s in
  r.1 = inr true
  ∧ CBS.conferences r.2
    = <[cn := Conference.set_availableSlots (Conference.availableSlots c - 1) c]>
        (CBS.conferences s)
  ∧ CBS.users r.2 = CBS.users s
  ∧ CBS.waitlist_of r.2 cn = filter (λ x, x ≠ id) (CBS.waitlist_of s cn)
  ∧ (∀ nm, overlaps_other s c nm →
           CBS.waitlist_of r.2 nm
           = filter (λ x, ¬ booked_by s uid x) (CBS.waitlist_of s nm))
  ∧ (∀ nm, nm ≠ cn → ¬ overlaps_other s c nm →
           CBS.waitlist_of r.2 nm = CBS.waitlist_of s nm)
  ∧ (¬ is_evicted s uid c id →
     CBS.bookings r.2 !! id = Some (Booking.setStatus CONFIRMED b))
  ∧ (∀ x, is_evicted s uid c x →
          CBS.bookings r.2 !! x = Booking.setStatus CANCELED <$> CBS.bookings s !! x)
  ∧ (∀ x, x ≠ id → ¬ is_evicted s uid c x →
          CBS.bookings r.2 !! x = CBS.bookings s !! x).
Proof.
  intros I Hb Hst Hc Hs Hdl Hno Hav cn uid r. unfold r.
  destruct (inv_conference s I cn c Hc) as [Hname _].
  destruct (inv_booking s I id b Hb) as [_ (u & Hu & _)].
  rewrite confirmWaitlistedBooking_unfold, Hb.
  destruct (decide (Booking.status b ≠ WAITLISTED)) as [|_]; [done|].
  cbv zeta. rewrite Hc, Hs.
  destruct (Z.gtb_spec now (time (Booking.confirmationDeadline b))) as [|_]; [lia|].
  destruct (hasConflictingBooking_total s (Booking.userId b) c I) as [x Hx]; [eauto|].
  rewrite Hx. destruct x; [exfalso; by apply Hno, hasConflictingBooking_true|].
  destruct (Z.gtb_spec (Conference.availableSlots c) 0) as [_|]; [|lia].
  fold cn uid.
  set (c' := Conference.set_availableSlots (Conference.availableSlots c - 1) c).
  set (s1 := CBS.set_bookings _ _).
  assert (B1 : ∀ x, CBS.bookings s1 !! x =
                    if decide (id = x) then Some (Booking.setStatus CONFIRMED b)
                    else CBS.bookings s !! x).
  { intros x. unfold s1. simpl. by rewrite lookup_insert. }
  assert (W1 : ∀ nm, CBS.waitlist_of s1 nm =
                     if decide (cn = nm)
                     then filter (λ x, x ≠ id) (CBS.waitlist_of s cn)
                     else CBS.waitlist_of s nm).
  { intros nm. unfold s1, CBS.waitlist_of. simpl. rewrite lookup_insert.
    by destruct (decide (cn = nm)). }
  assert (Q1 : queues_in_table s1).
  { intros nm x Hx1. rewrite B1. destruct (decide (id = x)); [eauto|].
    rewrite W1 in Hx1. apply (inv_queues s I nm).
    destruct (decide (cn = nm)) as [<-|]; [|done].
    by apply list_elem_of_filter in Hx1 as [_ ?]. }
  assert (K : ∀ y, booked_by s1 uid y ↔ booked_by s uid y).
  { intros y. unfold booked_by. rewrite B1.
    destruct (decide (id = y)) as [<-|]; [|done]. by rewrite Hb. }
  assert (Ho : ∀ nm, overlaps_other s1 c' nm ↔ overlaps_other s c nm).
  { intros nm. by apply (overlaps_other_slots s s1 cn c). }
  assert (He : ∀ x, is_evicted s1 uid c' x ↔ is_evicted s uid c x).
  { intros x. apply (is_evicted_slots s s1 uid cn c); [done..|].
    intros nm Hne. rewrite W1. by rewrite decide_False. }
  destruct (removeFromOverlappingWaitlists_exact uid c' s1 Q1)
    as (s2 & Hrun & C2 & U2 & Wa & Wb & Ba & Bb).
  rewrite Hrun. cbn [fst snd]. split_and!.
  - done.
  - by rewrite C2.
  - by rewrite U2.
  - rewrite Wb, W1; [by rewrite decide_True|].
    intros [Hne _]. unfold c' in Hne. simpl in Hne. congruence.
  - intros nm Hnm. rewrite Wa by (by apply Ho).
    rewrite W1. rewrite decide_False by (destruct Hnm as [? _]; congruence).
    apply list_filter_iff. intros x. by rewrite K.
  - intros nm Hne Hnm. rewrite Wb by (by rewrite Ho).
    rewrite W1. by rewrite decide_False.
  - intros Hid. rewrite Bb by (by rewrite He). rewrite B1. by rewrite decide_True.
  - intros y Hy. rewrite Ba by (by apply He). rewrite B1.
    destruct (decide (id = y)) as [<-|]; [|done]. by rewrite Hb.
  - intros y Hne Hy. rewrite Bb by (by rewrite He). rewrite B1.
    by rewrite decide_False.
Qed.

(** X15. Confirming a WAITLISTED booking in time, with a free slot and no
    held overlapping confirmed booking, returns true; the conference
    loses one slot; the id leaves the queue of its conference, wherever
    in the queue it stood; the user's bookings queued on other
    overlapping conferences are dropped from those queues and made
    CANCELED; no ledger changes, and nothing else does. The booking
    itself becomes CONFIRMED unless its own id is also queued on another
    overlapping conference: then the eviction that follows the
    confirmation makes it CANCELED, the call still returns true and the
    slot stays taken. Along calls in which no generated id is already a
    key of the booking table that case does not arise and the booking
    becomes CONFIRMED. *)
Theorem confirm_in_time (es : list CBS.event) (now : Z) (id : string)
    (b : Booking.t) (c : Conference.t) :
  let s := CBS.run es CBS.empty in
  CBS.bookings s !! id = Some b → Booking.status b = WAITLISTED →
  CBS.conferences s !! Booking.conferenceName b = Some c →
  Conference.hasStarted now c = false →
  now ≤ time (Booking.confirmationDeadline b) →
  ¬ holds_confirmed_overlapping s (Booking.userId b) c →
  Conference.availableSlots c > 0 →
  let cn := Booking.conferenceName b in
  let uid := Booking.userId b in
  let r := CBS.confirmWaitlistedBooking now id s in
  r.1 = inr true
  ∧ CBS.conferences r.2
    = <[cn := Conference.set_availableSlots (Conference.availableSlots c - 1) c]>
        (CBS.conferences s)
  ∧ CBS.users r.2 = CBS.users s
  ∧ CBS.waitlist_of r.2 cn = filter (λ x, x ≠ id) (CBS.waitlist_of s cn)
  ∧ (∀ nm, overlaps_other s c nm →
           CBS.waitlist_of r.2 nm
           = filter (λ x, ¬ booked_by s uid x) (CBS.waitlist_of s nm))
  ∧ (∀ nm, nm ≠ cn → ¬ overlaps_other s c nm →
           CBS.waitlist_of r.2 nm = CBS.waitlist_of s nm)
  ∧ (¬ is_evicted s uid c id →
     CBS.bookings r.2 !! id = Some (Booking.setStatus CONFIRMED b))
  ∧ (is_evicted s uid c id →
     CBS.bookings r.2 !! id = Some (Booking.setStatus CANCELED b))
  ∧ (fresh_ids es CBS.empty →
     CBS.bookings r.2 !! id = Some (Booking.setStatus CONFIRMED b))
  ∧ (∀ x, is_evicted s uid c x →
          CBS.bookings r.2 !! x = Booking.setStatus CANCELED <$> CBS.bookings s !! x)
  ∧ (∀ x, x ≠ id → ¬ is_evicted s uid c x →
          CBS.bookings r.2 !! x = CBS.bookings s !! x).
Proof.
  intros s Hb Hst Hc Hs Hdl Hno Hav cn uid r.
  assert (I : Inv s) by (apply reachable_Inv, reachable_run; constructor).
  destruct (confirmWaitlistedBooking_succeeds now id b c s I Hb Hst Hc Hs Hdl Hno Hav)
    as (Hret & HC & HU & Hq & Hqo & Hqn & Hkeep & Hev & Hoth).
  split_and!; try done.
  - intros Hid. etrans; [exact (Hev id Hid)|]. by rewrite Hb.
  - intros Hf. apply Hkeep. intros [_ (nm & [Hne _] & Hx)].
    assert (AQ : queue_waiting s).
    { apply (acct_queue _ (Acct_run es CBS.empty Inv_empty Acct_empty Hf)). }
    destruct (AQ nm id Hx) as (b' & Hb' & _ & Hcn).
    assert (b' = b) as -> by congruence.
    destruct (inv_conference s I _ c Hc) as [Hname _]. congruence.
Qed.

(** X16. The outcome of [confirmWaitlistedBooking] in a system reached by
    calls, check by check in the order of the code: unknown id, status
    other than WAITLISTED, conference started, deadline passed (the call
    returns false), a held overlapping confirmed booking, no free slot;
    otherwise true. Neither the position in the queue nor the presence
    of the id in it is looked at. *)
Theorem confirmWaitlistedBooking_outcome (es : list CBS.event) (now : Z)
    (id : string) :
  let s := CBS.run es CBS.empty in
  let r := (CBS.confirmWaitlistedBooking now id s).1 in
  (CBS.bookings s !! id = None → r = inl (runtime_error "Booking not found"))
  ∧ (∀ b, CBS.bookings s !! id = Some b → Booking.status b ≠ WAITLISTED →
       r = inl (runtime_error "Booking is not in waitlisted state"))
  ∧ (∀ b, CBS.bookings s !! id = Some b → Booking.status b = WAITLISTED →
       ∃ c, CBS.conferences s !! Booking.conferenceName b = Some c
         ∧ (Conference.hasStarted now c = true →
            r = inl (runtime_error
                       "Cannot confirm booking after conference has started"))
         ∧ (Conference.hasStarted now c = false →
            now > time (Booking.confirmationDeadline b) → r = inr false)
         ∧ (Conference.hasStarted now c = false →
            now ≤ time (Booking.confirmationDeadline b) →
            holds_confirmed_overlapping s (Booking.userId b) c →
            r = inl (runtime_error "User now has a conflicting booking"))
         ∧ (Conference.hasStarted now c = false →
            now ≤ time (Booking.confirmationDeadline b) →
            ¬ holds_confirmed_overlapping s (Booking.userId b) c →
            Conference.availableSlots c ≤ 0 →
            r = inl (runtime_error "No slots available"))
         ∧ (Conference.hasStarted now c = false →
            now ≤ time (Booking.confirmationDeadline b) →
            ¬ holds_confirmed_overlapping s (Booking.userId b) c →
            Conference.availableSlots c > 0 →
            r = inr true)).
Proof.
  intros s r. unfold r.
  assert (I : Inv s) by (apply reachable_Inv, reachable_run; constructor).
  assert (Wq : waitlisted_queued s).
  { apply reachable_waitlisted_queued, reachable_run. constructor. }
  split_and!.
  - intros Hb. by rewrite confirmWaitlistedBooking_unfold, Hb.
  - intros b Hb Hst. rewrite confirmWaitlistedBooking_unfold, Hb.
    by rewrite decide_True.
  - intros b Hb Hst.
    destruct (inv_booking s I id b Hb) as [[c Hc] (u & Hu & _)].
    exists c. split; [done|].
    split_and!.
    + intros Hs. rewrite confirmWaitlistedBooking_unfold, Hb.
      destruct (decide (Booking.status b ≠ WAITLISTED)) as [|_]; [done|].
      cbv zeta. rewrite Hc, Hs.
      destruct (CBS.cancelAllWaitlistedBookings _ s) as [[e|[]] s1] eqn:Hrun; [|done].
      apply cancelAllWaitlistedBookings_spec in Hrun as (_ & _ & _ & _ & Hq).
      exfalso. apply Hq, (inv_queues s I).
    + intros Hs Hlate.
      by destruct (confirm_after_deadline now id b c s I Wq Hb Hst Hc Hs Hlate)
        as [Hret _].
    + intros Hs Hdl Hov. rewrite confirmWaitlistedBooking_unfold, Hb.
      destruct (decide (Booking.status b ≠ WAITLISTED)) as [|_]; [done|].
      cbv zeta. rewrite Hc, Hs.
      destruct (Z.gtb_spec now (time (Booking.confirmationDeadline b))) as [|_];
        [lia|].
      destruct (hasConflictingBooking_total s (Booking.userId b) c I) as [x Hx];
        [eauto|].
      rewrite Hx. destruct x; [done|].
      by apply hasConflictingBooking_false in Hx.
    + intros Hs Hdl Hno Hav. rewrite confirmWaitlistedBooking_unfold, Hb.
      destruct (decide (Booking.status b ≠ WAITLISTED)) as [|_]; [done|].
      cbv zeta. rewrite Hc, Hs.
      destruct (Z.gtb_spec now (time (Booking.confirmationDeadline b))) as [|_];
        [lia|].
      destruct (hasConflictingBooking_total s (Booking.userId b) c I) as [x Hx];
        [eauto|].
      rewrite Hx. destruct x; [exfalso; by apply Hno, hasConflictingBooking_true|].
      by destruct (Z.gtb_spec (Conference.availableSlots c) 0) as [|_]; [lia|].
    + intros Hs Hdl Hno Hav.
      by destruct (confirmWaitlistedBooking_succeeds now id b c s I Hb Hst Hc Hs Hdl Hno Hav).
Qed.

(** ** What is stored is well formed *)

Lemma conference_limits_step (c c' : Conference.t) :
  conference_step c c' → conference_limits c → conference_limits c'.
Proof.
  unfold conference_step, conference_limits.
  intros (_ & _ & -> & -> & -> & ->). done.
Qed.

Lemma Limits_empty : Limits CBS.empty.
Proof.
  split; unfold CBS.empty; simpl; intros k v H; by rewrite lookup_empty in H.
Qed.

Lemma Limits_helper (s s' : CBS.t) :
  evolves s s' → CBS.conferences s' = CBS.conferences s → Limits s → Limits s'.
Proof.
  intros E C [LC LU LB]. split.
  - intros nm c. rewrite C. apply LC.
  - intros uid u. rewrite (ev_users _ _ E). apply LU.
  - intros id b' Hb'. destruct (evolves_booking_inv _ _ _ _ E Hb') as (b & Hb & L).
    destruct L as (-> & _). by apply LB.
Qed.

Lemma Limits_set_waitlists (s : CBS.t) (W : gmap string (list string)) :
  Limits s → Limits (CBS.set_waitlists W s).
Proof. intros [LC LU LB]. by split. Qed.

Lemma Limits_insert_conference (s : CBS.t) (nm : string) (c' : Conference.t) :
  conference_limits c' → Limits s →
  Limits (CBS.set_conferences (<[nm := c']> (CBS.conferences s)) s).
Proof.
  intros Hc [LC LU LB]. split; [|done..]. intros nm' c. simpl.
  rewrite lookup_insert. destruct (decide (nm = nm')); [by intros [= <-]|apply LC].
Qed.

Lemma Limits_insert_booking (s : CBS.t) (id : string) (b' : Booking.t) :
  Booking.bookingId b' = id → Limits s →
  Limits (CBS.set_bookings (<[id := b']> (CBS.bookings s)) s).
Proof.
  intros Hb [LC LU LB]. split; [done..|]. intros id' b. simpl.
  rewrite lookup_insert. destruct (decide (id = id')); [|apply LB].
  intros [= <-]. congruence.
Qed.

Lemma Limits_insert_user (s : CBS.t) (uid : string) (u' : User.t) :
  User.userId u' = uid → (length (User.interestedTopics u') ≤ 50)%nat → Limits s →
  Limits (CBS.set_users (<[uid := u']> (CBS.users s)) s).
Proof.
  intros Hu Ht [LC LU LB]. split; [done| |done]. intros uid' u. simpl.
  rewrite lookup_insert. destruct (decide (uid = uid')); [|apply LU].
  intros [= <-]. split; congruence.
Qed.

Lemma Limits_commit_booking (uid id : string) (nb : Booking.t) (s : CBS.t) :
  Booking.bookingId nb = id → Limits s → Limits (commit_booking uid id nb s).2.
Proof.
  intros Hid L. unfold commit_booking.
  set (s1 := match CBS.bookings s !! id with
             | Some _ => s
             | None => CBS.set_bookings (<[id := nb]> (CBS.bookings s)) s
             end).
  assert (L1 : Limits s1).
  { unfold s1. destruct (CBS.bookings s !! id); [done|].
    by apply Limits_insert_booking. }
  cbv zeta. destruct (CBS.users s1 !! uid) as [u|] eqn:Hu; simpl; [|done].
  destruct (lim_users _ L1 _ _ Hu). by apply Limits_insert_user.
Qed.

Lemma Limits_commit_cancel (id uid : string) (s : CBS.t) :
  Limits s → Limits (commit_cancel id uid s).2.
Proof.
  intros L. unfold commit_cancel.
  destruct (CBS.bookings s !! id) as [b|] eqn:Hb; [|done]. cbv zeta.
  set (s1 := CBS.set_bookings (<[id := Booking.setStatus CANCELED b]> (CBS.bookings s)) s).
  assert (L1 : Limits s1).
  { apply Limits_insert_booking; [|done]. simpl. by apply (lim_bookings _ L). }
  destruct (CBS.users s1 !! uid) as [u|] eqn:Hu; cbn [snd]; [|exact L1].
  destruct (lim_users _ L1 _ _ Hu) as [Hid Ht].
  destruct (user_step_removeBooking id u) as [Hid' Ht'].
  apply Limits_insert_user; [by rewrite Hid'|by rewrite Ht'|done].
Qed.

Lemma Limits_addConference (nm location : string) (topics : list string)
    (start end_ : Timestamp) (slots : Z) (s : CBS.t) :
  Limits s → Limits (CBS.addConference nm location topics start end_ slots s).2.
Proof.
  intros L. unfold CBS.addConference.
  destruct (CBS.conferences s !! nm); [done|].
  destruct (Conference.new _ _ _ _ _ _) as [e|c] eqn:Hnew; [done|].
  apply Limits_insert_conference; [|done].
  apply Conference_new_passes in Hnew as [Hp ->]. exact Hp.
Qed.

Lemma Limits_addUser (uid : string) (topics : list string) (s : CBS.t) :
  Limits s → Limits (CBS.addUser uid topics s).2.
Proof.
  intros L. unfold CBS.addUser.
  destruct (CBS.users s !! uid); [done|]. unfold User.new.
  destruct (Nat.ltb_spec 50 (length topics)); [done|].
  by apply Limits_insert_user.
Qed.

Lemma Limits_bookConference (now : Z) (indet : Timestamp) (uid cn : string)
    (s : CBS.t) :
  Limits s → Limits (CBS.bookConference now indet uid cn s).2.
Proof.
  intros L. rewrite bookConference_unfold.
  destruct (CBS.users s !! uid) as [u|] eqn:Hu; [|done].
  destruct (CBS.conferences s !! cn) as [c|] eqn:Hc; [|done].
  destruct (Conference.hasStarted now c); [done|].
  destruct (CBS.findActiveBooking uid cn s) as [[id ?]|]; [done|].
  destruct (CBS.hasConflictingBooking uid c s) as [e|[]]; [done|done|].
  cbv zeta. destruct (Conference.availableSlots c >? 0).
  - destruct (CBS.removeFromOverlappingWaitlists _ _ _) as [r s1] eqn:Hrun.
    apply removeFromOverlappingWaitlists_spec in Hrun as (E & C & _).
    assert (L1 : Limits s1).
    { apply (Limits_helper _ _ E C). apply Limits_insert_conference; [|done].
      eapply conference_limits_step; [apply conference_step_slots|].
      by apply (lim_conferences _ L cn). }
    destruct r; [done|]. by apply Limits_commit_booking.
  - apply Limits_commit_booking; [done|]. by apply Limits_set_waitlists.
Qed.

Lemma Limits_cancelBooking (now : Z) (id : string) (s : CBS.t) :
  Limits s → Limits (CBS.cancelBooking now id s).2.
Proof.
  intros L. rewrite cancelBooking_unfold.
  destruct (CBS.bookings s !! id) as [b|] eqn:Hb; [|done].
  destruct (decide (Booking.status b = CANCELED)); [done|]. cbv zeta.
  destruct (CBS.conferences s !! Booking.conferenceName b) as [c|] eqn:Hc; [|done].
  destruct (Conference.hasStarted now c); [done|].
  destruct (Booking.status b).
  - destruct (CBS.processWaitlist _ _ _) as [r s1] eqn:Hrun.
    apply processWaitlist_spec in Hrun as (E & C & _).
    assert (L1 : Limits s1).
    { apply (Limits_helper _ _ E C). apply Limits_insert_conference; [|done].
      eapply conference_limits_step; [apply conference_step_increase|].
      by apply (lim_conferences _ L (Booking.conferenceName b)). }
    destruct r; [done|]. by apply Limits_commit_cancel.
  - by apply Limits_commit_cancel, Limits_set_waitlists.
  - by apply Limits_commit_cancel.
Qed.

Lemma Limits_confirmWaitlistedBooking (now : Z) (id : string) (s : CBS.t) :
  Limits s → Limits (CBS.confirmWaitlistedBooking now id s).2.
Proof.
  intros L. rewrite confirmWaitlistedBooking_unfold.
  destruct (CBS.bookings s !! id) as [b|] eqn:Hb; [|done].
  destruct (decide (Booking.status b ≠ WAITLISTED)); [done|]. cbv zeta.
  destruct (CBS.conferences s !! Booking.conferenceName b) as [c|] eqn:Hc; [|done].
  destruct (Conference.hasStarted now c).
  { destruct (CBS.cancelAllWaitlistedBookings _ _) as [r s1] eqn:Hrun.
    apply cancelAllWaitlistedBookings_spec in Hrun as (E & C & _).
    destruct r; by apply (Limits_helper _ _ E C). }
  destruct (now >? time (Booking.confirmationDeadline b)).
  { destruct (Conference.hasSlotAvailable c); [|by apply Limits_set_waitlists].
    destruct (CBS.processWaitlist _ _ _) as [r s1] eqn:Hrun.
    apply processWaitlist_spec in Hrun as (E & C & _).
    assert (L1 : Limits s1).
    { apply (Limits_helper _ _ E C). by apply Limits_set_waitlists. }
    by destruct r. }
  destruct (CBS.hasConflictingBooking _ c s) as [e|[]]; [done|done|].
  destruct (Conference.availableSlots c >? 0); [|done].
  destruct (CBS.removeFromOverlappingWaitlists _ _ _) as [r s1] eqn:Hrun.
  apply removeFromOverlappingWaitlists_spec in Hrun as (E & C & _).
  assert (L1 : Limits s1).
  { apply (Limits_helper _ _ E C).
    refine (Limits_insert_booking (CBS.set_waitlists _ (CBS.set_conferences _ s))
              id _ _ _).
    - simpl. by apply (lim_bookings _ L).
    - apply Limits_set_waitlists, Limits_insert_conference; [|done].
      eapply conference_limits_step; [apply conference_step_slots|].
      by apply (lim_conferences _ L (Booking.conferenceName b)). }
  by destruct r.
Qed.

Lemma Limits_exec (e : CBS.event) (s : CBS.t) : Limits s → Limits (CBS.exec e s).2.
Proof.
  intros L. unfold CBS.exec, CBS.fmap_result. destruct (CBS.ev_call e); simpl.
  - by apply Limits_addConference.
  - by apply Limits_addUser.
  - by apply Limits_bookConference.
  - by apply Limits_cancelBooking.
  - by apply Limits_confirmWaitlistedBooking.
  - done.
Qed.

Lemma Limits_run (es : list CBS.event) (s : CBS.t) : Limits s → Limits (CBS.run es s).
Proof.
  revert s. induction es as [|e es IH]; intros s L; simpl; [done|].
  by apply IH, Limits_exec.
Qed.

(** ** Systems reached by calls *)

(** X17. In a system reached by calls, every conference is stored under
    its own name and is one its constructor let through: at most 10
    topics, at least one slot, start before end, and a duration that the
    64-bit subtraction of the check finds to be at most 12 hours, so that
    the true duration is at most 12 hours or at least 2^63 seconds; its
    free-slot counter is between 0 and the total. Every user is stored
    under its own id with at most 50 topics; every booking is stored
    under its own id. *)
Theorem stored_objects_well_formed (es : list CBS.event) :
  let s := CBS.run es CBS.empty in
  (∀ nm c, CBS.conferences s !! nm = Some c →
     Conference.name c = nm
     ∧ (length (Conference.topics c) ≤ 10)%nat
     ∧ 0 < Conference.totalSlots c
     ∧ time (Conference.startTime c) < time (Conference.endTime c)
     ∧ wrap_time_t (time (Conference.endTime c) - time (Conference.startTime c))
       ≤ 12 * 3600
     ∧ (time (Conference.endTime c) - time (Conference.startTime c) ≤ 12 * 3600
        ∨ 2 ^ 63 ≤ time (Conference.endTime c) - time (Conference.startTime c))
     ∧ 0 ≤ Conference.availableSlots c ≤ Conference.totalSlots c)
  ∧ (∀ uid u, CBS.users s !! uid = Some u →
       User.userId u = uid ∧ (length (User.interestedTopics u) ≤ 50)%nat)
  ∧ (∀ id b, CBS.bookings s !! id = Some b → Booking.bookingId b = id).
Proof.
  intros s.
  assert (I : Inv s) by (apply reachable_Inv, reachable_run; constructor).
  assert (L : Limits s) by apply Limits_run, Limits_empty.
  split_and!.
  - intros nm c Hc. destruct (inv_conference s I nm c Hc) as [Hn Hr].
    destruct (lim_conferences s L nm c Hc) as (Ht & Hs & Hd & Hse).
    split_and!; auto; try apply Hr.
    apply wrap_time_t_duration; [lia|done].
  - apply (lim_users s L).
  - apply (lim_bookings s L).
Qed.

(** X18. In a system reached by calls, a call returns a value or fails
    with a [runtime_error]: no lookup with [at] ever misses, so
    [out_of_range] never escapes. *)
Theorem calls_fail_only_with_runtime_error (es : list CBS.event) (e : CBS.event) :
  value_or_runtime_error (CBS.exec e (CBS.run es CBS.empty)).1.
Proof.
  assert (I : Inv (CBS.run es CBS.empty)).
  { apply reachable_Inv, reachable_run. constructor. }
  pose proof (exec_no_out_of_range e _ I) as H.
  unfold value_or_runtime_error.
  destruct (CBS.exec e (CBS.run es CBS.empty)).1 as [[what|]|v]; eauto. done.
Qed.

(** X19. Referential integrity of a system reached by calls: a booking
    names a registered conference and a registered user, and while it is
    not CANCELED its id is in that user's ledger; a ledger holds no
    CANCELED entry and only ids of the booking table; a queue holds only
    ids of the booking table. *)
Theorem referential_integrity (es : list CBS.event) :
  let s := CBS.run es CBS.empty in
  (∀ id b, CBS.bookings s !! id = Some b →
     is_Some (CBS.conferences s !! Booking.conferenceName b)
     ∧ ∃ u, CBS.users s !! Booking.userId b = Some u
            ∧ (Booking.status b ≠ CANCELED →
               is_Some (User.bookingStatuses u !! id)))
  ∧ (∀ uid u id st,
       CBS.users s !! uid = Some u → User.bookingStatuses u !! id = Some st →
       st ≠ CANCELED ∧ is_Some (CBS.bookings s !! id))
  ∧ (∀ nm x, x ∈ CBS.waitlist_of s nm → is_Some (CBS.bookings s !! x)).
Proof.
  intros s.
  assert (I : Inv s) by (apply reachable_Inv, reachable_run; constructor).
  split_and!; [apply (inv_booking s I)|apply (inv_ledger s I)|apply (inv_queues s I)].
Qed.

(** X20. In a system reached by calls, every WAITLISTED booking is in the
    queue of its conference. *)
Theorem waitlisted_bookings_are_queued (es : list CBS.event) (id : string)
    (b : Booking.t) :
  CBS.bookings (CBS.run es CBS.empty) !! id = Some b →
  Booking.status b = WAITLISTED →
  id ∈ CBS.waitlist_of (CBS.run es CBS.empty) (Booking.conferenceName b).
Proof.
  apply reachable_waitlisted_queued, reachable_run. constructor.
Qed.

(** X21. Along calls in which no generated booking id is already a key
    of the booking table, the slots taken of every conference are its
    CONFIRMED bookings, one for one, and every queue holds only bookings
    of its own conference that are not CONFIRMED. *)
Theorem accounting_with_fresh_ids (es : list CBS.event) :
  fresh_ids es CBS.empty →
  let s := CBS.run es CBS.empty in
  (∀ nm c, CBS.conferences s !! nm = Some c →
     Z.of_nat (confirmed_count s nm)
     = Conference.totalSlots c - Conference.availableSlots c)
  ∧ (∀ nm x, x ∈ CBS.waitlist_of s nm →
       ∃ b, CBS.bookings s !! x = Some b
            ∧ Booking.status b ≠ CONFIRMED ∧ Booking.conferenceName b = nm).
Proof.
  intros Hf s.
  destruct (Acct_run es CBS.empty Inv_empty Acct_empty Hf) as [AC AQ].
  split; [exact AC|exact AQ].
Qed.

(** X22. In a system reached by calls, [getBookingStatus] returns the
    stored status of a known id, whatever that status is, and fails with
    "Booking not found" on an unknown one; the lookup of the conference
    of a WAITLISTED booking never misses. *)
Theorem getBookingStatus_reads_status (es : list CBS.event) (id : string) :
  let s := CBS.run es CBS.empty in
  CBS.getBookingStatus id s
  = match CBS.bookings s !! id with
    | Some b => inr (Booking.status b)
    | None => inl (runtime_error "Booking not found")
    end.
Proof.
  intros s.
  assert (I : Inv s) by (apply reachable_Inv, reachable_run; constructor).
  unfold CBS.getBookingStatus.
  destruct (CBS.bookings s !! id) as [b|] eqn:Hb; [|done].
  destruct (inv_booking s I id b Hb) as [[c Hc] _].
  destruct (Booking.status b); [done| |done]. by rewrite Hc.
Qed.

(** ** Registration *)

(** X23. [addConference] looks for the name first: a registered name fails
    with "Conference with this name already exists" whatever the other
    arguments. A new name is registered exactly when the four checks of
    the constructor pass, the duration being the 64-bit difference the
    check computes; the conference then has all slots free and nothing
    else is touched; otherwise the call fails and changes nothing. Once
    a name is registered, adding it again fails after any further
    calls. *)
Theorem addConference_outcome (nm location : string) (topics : list string)
    (start end_ : Timestamp) (slots : Z) (s : CBS.t) :
  let r := CBS.addConference nm location topics start end_ slots s in
  (is_Some (CBS.conferences s !! nm) →
   r = (inl (runtime_error "Conference with this name already exists"), s))
  ∧ (CBS.conferences s !! nm = None →
     (length topics ≤ 10)%nat ∧ 0 < slots
     ∧ wrap_time_t (time end_ - time start) ≤ 12 * 3600
     ∧ time start < time end_ →
     r = (inr tt,
          CBS.set_conferences
            (<[nm := Conference.Build nm location topics start end_ slots slots]>
               (CBS.conferences s)) s))
  ∧ (CBS.conferences s !! nm = None →
     ¬ ((length topics ≤ 10)%nat ∧ 0 < slots
        ∧ wrap_time_t (time end_ - time start) ≤ 12 * 3600
        ∧ time start < time end_) →
     ∃ what, r = (inl (runtime_error what), s))
  ∧ (r.1 = inr tt →
     ∀ es location' topics' start' end' slots',
       let s' := CBS.run es r.2 in
       CBS.addConference nm location' topics' start' end' slots' s'
       = (inl (runtime_error "Conference with this name already exists"), s')).
Proof.
  intros r. unfold r. split_and!.
  - intros [c Hc]. unfold CBS.addConference. by rewrite Hc.
  - intros Hc Hp. unfold CBS.addConference. rewrite Hc.
    assert (Hnew : Conference.new nm location topics start end_ slots
                   = inr (Conference.Build nm location topics start end_ slots slots)).
    { by apply Conference_new_passes. }
    by rewrite Hnew.
  - intros Hc Hbad. unfold CBS.addConference, Conference.new. rewrite Hc.
    destruct (Nat.ltb_spec 10 (length topics)); [eauto|].
    destruct (Z.leb_spec slots 0); [eauto|].
    destruct (Z.gtb_spec (wrap_time_t (time end_ - time start)) (12 * 3600));
      [eauto|].
    destruct (Z.geb_spec (time start) (time end_)); [eauto|].
    exfalso. apply Hbad. split_and!; lia.
  - intros Hok es location' topics' start' end' slots'.
    set (s' := CBS.run es _).
    assert (Hin : is_Some
              (CBS.conferences
                 (CBS.addConference nm location topics start end_ slots s).2 !! nm)).
    { revert Hok. unfold CBS.addConference.
      destruct (CBS.conferences s !! nm); [done|].
      destruct (Conference.new _ _ _ _ _ _); [done|]. intros _. simpl.
      rewrite lookup_insert_eq. eauto. }
    destruct Hin as [c Hc].
    destruct (gr_conferences _ _ (grows_run es _) nm c Hc) as (c' & Hc' & _).
    fold s' in Hc'. unfold CBS.addConference. by rewrite Hc'.
Qed.

(** X24. [addUser] looks for the id first: a registered id fails with
    "User already exists". A new id is registered, with an empty ledger,
    exactly when there are at most 50 topics; otherwise the call fails;
    a failed call changes nothing. Once an id is registered, adding it
    again fails after any further calls. *)
Theorem addUser_outcome (uid : string) (topics : list string) (s : CBS.t) :
  let r := CBS.addUser uid topics s in
  (is_Some (CBS.users s !! uid) →
   r = (inl (runtime_error "User already exists"), s))
  ∧ (CBS.users s !! uid = None → (length topics ≤ 50)%nat →
     r = (inr tt, CBS.set_users (<[uid := User.Build uid topics ∅]> (CBS.users s)) s))
  ∧ (CBS.users s !! uid = None → (50 < length topics)%nat →
     r = (inl (runtime_error "Maximum 50 interested topics allowed"), s))
  ∧ (r.1 = inr tt →
     ∀ es topics',
       let s' := CBS.run es r.2 in
       CBS.addUser uid topics' s' = (inl (runtime_error "User already exists"), s')).
Proof.
  intros r. unfold r. split_and!.
  - intros [u Hu]. unfold CBS.addUser. by rewrite Hu.
  - intros Hu Ht. unfold CBS.addUser, User.new. rewrite Hu.
    destruct (Nat.ltb_spec 50 (length topics)); [lia|done].
  - intros Hu Ht. unfold CBS.addUser, User.new. rewrite Hu.
    destruct (Nat.ltb_spec 50 (length topics)); [done|lia].
  - intros Hok es topics'. set (s' := CBS.run es _).
    assert (Hin : is_Some (CBS.users (CBS.addUser uid topics s).2 !! uid)).
    { revert Hok. unfold CBS.addUser.
      destruct (CBS.users s !! uid); [done|].
      destruct (User.new _ _); [done|]. intros _. simpl.
      rewrite lookup_insert_eq. eauto. }
    destruct Hin as [u Hu].
    destruct (gr_users _ _ (grows_run es _) uid u Hu) as (u' & Hu' & _).
    fold s' in Hu'. unfold CBS.addUser. by rewrite Hu'.
Qed.

(** ** The private helpers *)

(** X25. [processWaitlist] in a system reached by calls never fails and
    promotes nobody: it stamps the booking at the head of the queue with
    the deadline now + 3600 and leaves every queue, status, conference
    and ledger as it is; on an empty queue it does nothing. *)
Theorem processWaitlist_notifies_head (es : list CBS.event) (now : Z) (cn : string) :
  let s := CBS.run es CBS.empty in
  let r := CBS.processWaitlist now cn s in
  r.1 = inr tt
  ∧ CBS.conferences r.2 = CBS.conferences s
  ∧ CBS.users r.2 = CBS.users s
  ∧ (∀ nm, CBS.waitlist_of r.2 nm = CBS.waitlist_of s nm)
  ∧ CBS.bookings r.2
    = match head (CBS.waitlist_of s cn) with
      | Some h =>
        alter (Booking.setConfirmationDeadline (mkTimestamp (now + 3600))) h
          (CBS.bookings s)
      | None => CBS.bookings s
      end.
Proof.
  intros s r. unfold r.
  assert (I : Inv s) by (apply reachable_Inv, reachable_run; constructor).
  destruct (CBS.processWaitlist now cn s) as [r1 s1] eqn:Hp.
  apply processWaitlist_spec in Hp as (E & C & W & R). simpl.
  destruct r1 as [e|[]].
  { destruct R as [_ R]. exfalso. apply R, (inv_queues s I). }
  split_and!; [done|done|apply (ev_users _ _ E)|done|].
  destruct (CBS.waitlist_of s cn) as [|h rest]; simpl; [done|].
  destruct R as (bh & Hbh & ->). by apply insert_as_alter.
Qed.

(** X26. [atomicBookingOperation], which no public member calls, is
    [bookConference] without the two validations: with the user and the
    conference registered it does the same; with an unknown conference,
    or with an unknown user once the start and duplicate checks have
    passed, [at] throws [out_of_range]; the system is unchanged in these
    cases. *)
Theorem atomicBookingOperation_vs_bookConference (now : Z) (indet : Timestamp)
    (uid cn : string) (s : CBS.t) :
  CBS.atomicBookingOperation now indet uid cn s
  = match CBS.conferences s !! cn, CBS.users s !! uid with
    | None, _ => (inl out_of_range, s)
    | Some _, Some _ => CBS.bookConference now indet uid cn s
    | Some c, None =>
      (inl (if Conference.hasStarted now c
            then runtime_error "Cannot book conference that has already started"
            else match CBS.findActiveBooking uid cn s with
                 | Some (id, _) => runtime_error (CBS.msg_active_booking id)
                 | None => out_of_range
                 end), s)
    end.
Proof.
  destruct (CBS.conferences s !! cn) as [c|] eqn:Hc.
  - destruct (CBS.users s !! uid) as [u|] eqn:Hu.
    + symmetry. unfold CBS.bookConference.
      unfold CBS.bind at 1, CBS.read at 1, CBS.validateUserExists. rewrite Hu.
      unfold CBS.bind at 1, CBS.read at 1, CBS.validateConferenceExists. rewrite Hc.
      reflexivity.
    + unfold CBS.atomicBookingOperation.
      unfold CBS.bind at 1, CBS.read at 1, CBS.conferences_at. rewrite Hc.
      destruct (Conference.hasStarted now c); [done|].
      unfold CBS.bind at 1, CBS.read at 1.
      destruct (CBS.findActiveBooking uid cn s) as [[id ?]|]; [done|].
      unfold CBS.bind at 1, CBS.read at 1, CBS.hasConflictingBooking. by rewrite Hu.
  - unfold CBS.atomicBookingOperation.
    unfold CBS.bind at 1, CBS.read at 1, CBS.conferences_at. by rewrite Hc.
Qed.

(** X27. [hasConflictingBooking] in a system reached by calls: for a
    registered user it never fails, and it returns true exactly when the
    user holds, by an active entry of the ledger, a booking that the
    table has as CONFIRMED for a conference overlapping the new one; the
    status the ledger records plays no part. For an unknown user [at]
    throws. *)
Theorem hasConflictingBooking_exactly (es : list CBS.event) (uid : string)
    (c : Conference.t) :
  let s := CBS.run es CBS.empty in
  (is_Some (CBS.users s !! uid) →
   (CBS.hasConflictingBooking uid c s = inr true ↔ holds_confirmed_overlapping s uid c)
   ∧ (CBS.hasConflictingBooking uid c s = inr false ↔
      ¬ holds_confirmed_overlapping s uid c))
  ∧ (CBS.users s !! uid = None → CBS.hasConflictingBooking uid c s = inl out_of_range).
Proof.
  intros s.
  assert (I : Inv s) by (apply reachable_Inv, reachable_run; constructor).
  split.
  - intros Hu. destruct (hasConflictingBooking_total s uid c I Hu) as [x Hx].
    destruct x.
    + pose proof (hasConflictingBooking_true _ _ _ Hx) as Hh.
      rewrite Hx. split; (split; [done|]); [done|]. intros Hn. by destruct Hn.
    + pose proof (hasConflictingBooking_false _ _ _ Hx) as Hn.
      rewrite Hx. split; (split; [done|]); [|done]. intros Hh. by destruct Hn.
  - intros Hu. unfold CBS.hasConflictingBooking. by rewrite Hu.
Qed.

Lemma cancelBooking_returns_true (now : Z) (id : string) (b : Booking.t)
    (c : Conference.t) (s : CBS.t) :
  Inv s →
  CBS.bookings s !! id = Some b → Booking.status b ≠ CANCELED →
  CBS.conferences s !! Booking.conferenceName b = Some c →
  Conference.hasStarted now c = false →
  (CBS.cancelBooking now id s).1 = inr true.
Proof.
  intros I Hb Hst Hc Hs.
  destruct (inv_booking s I id b Hb) as [_ (u & Hu & _)].
  rewrite cancelBooking_unfold, Hb.
  destruct (decide (Booking.status b = CANCELED)); [done|].
  cbv zeta. rewrite Hc, Hs.
  destruct (Booking.status b) eqn:Hst'; [| |done].
  - destruct (CBS.processWaitlist _ _ _) as [r1 s1] eqn:Hp.
    apply processWaitlist_spec in Hp as (E & _ & _ & R).
    destruct r1 as [e|[]].
    { destruct R as [_ R]. exfalso. apply R, (inv_queues s I). }
    apply commit_cancel_ok.
    + destruct (evolves_booking_fwd _ _ _ _ E Hb) as (b1 & Hb1 & _). eauto.
    + rewrite (ev_users _ _ E). simpl. eauto.
  - apply commit_cancel_ok; simpl; eauto.
Qed.

(** X28. The outcome of [cancelBooking] in a system reached by calls,
    check by check in the order of the code: unknown id, booking already
    CANCELED, conference started; otherwise the call returns true. It
    never returns false. *)
Theorem cancelBooking_outcome (es : list CBS.event) (now : Z) (id : string) :
  let s := CBS.run es CBS.empty in
  let r := (CBS.cancelBooking now id s).1 in
  r ≠ inr false
  ∧ (CBS.bookings s !! id = None → r = inl (runtime_error "Booking not found"))
  ∧ (∀ b, CBS.bookings s !! id = Some b → Booking.status b = CANCELED →
       r = inl (runtime_error "Booking is already canceled"))
  ∧ (∀ b, CBS.bookings s !! id = Some b → Booking.status b ≠ CANCELED →
       ∃ c, CBS.conferences s !! Booking.conferenceName b = Some c
         ∧ (Conference.hasStarted now c = true →
            r = inl (runtime_error
                       "Cannot cancel booking after conference has started"))
         ∧ (Conference.hasStarted now c = false → r = inr true)).
Proof.
  intros s r. unfold r.
  assert (I : Inv s) by (apply reachable_Inv, reachable_run; constructor).
  split_and!.
  - destruct (CBS.bookings s !! id) as [b|] eqn:Hb;
      [|by rewrite cancelBooking_unfold, Hb].
    destruct (decide (Booking.status b = CANCELED)) as [Hst|Hst].
    { rewrite cancelBooking_unfold, Hb. by rewrite decide_True. }
    destruct (inv_booking s I id b Hb) as [[c Hc] _].
    destruct (Conference.hasStarted now c) eqn:Hs.
    + rewrite cancelBooking_unfold, Hb. rewrite decide_False by done.
      cbv zeta. by rewrite Hc, Hs.
    + by rewrite (cancelBooking_returns_true now id b c s I Hb Hst Hc Hs).
  - intros Hb. by rewrite cancelBooking_unfold, Hb.
  - intros b Hb Hst. rewrite cancelBooking_unfold, Hb. by rewrite decide_True.
  - intros b Hb Hst. destruct (inv_booking s I id b Hb) as [[c Hc] _].
    exists c. split_and!; [done| |by apply (cancelBooking_returns_true now id b c s)].
    intros Hs. rewrite cancelBooking_unfold, Hb.
    destruct (decide (Booking.status b = CANCELED)); [done|].
    cbv zeta. by rewrite Hc, Hs.
Qed.

(** X29. [cancelAllWaitlistedBookings] in a system reached by calls never
    fails: it empties the queue of the conference and makes every booking
    that was queued there CANCELED; no other queue or booking, no
    conference and no ledger changes, so the ledgers keep the cancelled
    ids as they recorded them. *)
Theorem cancelAllWaitlistedBookings_empties_queue (es : list CBS.event)
    (cn : string) :
  let s := CBS.run es CBS.empty in
  let r := CBS.cancelAllWaitlistedBookings cn s in
  r.1 = inr tt
  ∧ CBS.waitlist_of r.2 cn = []
  ∧ (∀ nm, nm ≠ cn → CBS.waitlist_of r.2 nm = CBS.waitlist_of s nm)
  ∧ (∀ x, x ∈ CBS.waitlist_of s cn →
          CBS.bookings r.2 !! x = Booking.setStatus CANCELED <$> CBS.bookings s !! x)
  ∧ (∀ x, x ∉ CBS.waitlist_of s cn → CBS.bookings r.2 !! x = CBS.bookings s !! x)
  ∧ CBS.conferences r.2 = CBS.conferences s
  ∧ CBS.users r.2 = CBS.users s.
Proof.
  intros s r. unfold r.
  assert (I : Inv s) by (apply reachable_Inv, reachable_run; constructor).
  destruct (CBS.cancelAllWaitlistedBookings cn s) as [r1 s1] eqn:Hrun.
  apply cancelAllWaitlistedBookings_spec in Hrun as (E & C & W & R). simpl.
  destruct r1 as [e|[]].
  { destruct R as [_ R]. exfalso. apply R, (inv_queues s I). }
  destruct R as [Hq Hb].
  split_and!; [done..| | |done|apply (ev_users _ _ E)].
  - intros x Hx. rewrite Hb. by rewrite decide_True.
  - intros x Hx. rewrite Hb. by rewrite decide_False.
Qed.

(** ** The further properties at concrete inputs *)

Lemma Conference_new_accepts_exactly_witness :
  let start := mkTimestamp (-1) in
  let end_ := mkTimestamp (2 ^ 63 - 1) in
  (is_time_t (time start) ∧ is_time_t (time end_))
  ∧ Conference.new "C" "NY" [] start end_ 1
    = inr (Conference.Build "C" "NY" [] start end_ 1 1).
Proof.
  intros start end_.
  assert (Hs : is_time_t (time start)) by (unfold is_time_t; simpl; lia).
  assert (He : is_time_t (time end_)) by (unfold is_time_t; simpl; lia).
  split; [done|].
  apply (proj2 (Conference_new_accepts_exactly "C" "NY" [] start end_ 1 _ Hs He)).
  split_and!; [simpl; lia|lia|simpl; lia|right; simpl; lia|reflexivity].
Defined.

Lemma slot_counter_round_trip_witness :
  let c := Conference.Build "C" "NY" [] (mkTimestamp 10) (mkTimestamp 20) 2 1 in
  0 ≤ Conference.availableSlots c ≤ Conference.totalSlots c
  ∧ Conference.increaseAvailableSlots (Conference.decreaseAvailableSlots c).2 = c.
Proof.
  intros c. split; [simpl; lia|].
  apply (proj1 (slot_counter_round_trip c ltac:(simpl; lia))). simpl. lia.
Defined.

Lemma cancellation_is_final_witness :
  let s := CBS.run slot_taken_one_waiting CBS.empty in
  let es := [call_at 103 (CBS.ConfirmWaitlistedBooking "B_C_101")] in
  let s' := CBS.run es (CBS.cancelBooking 102 "A_C_100" s).2 in
  (CBS.cancelBooking 102 "A_C_100" s).1 = inr true
  ∧ CBS.getBookingStatus "A_C_100" s' = inr CANCELED
  ∧ CBS.cancelBooking 104 "A_C_100" s'
    = (inl (runtime_error "Booking is already canceled"), s')
  ∧ CBS.confirmWaitlistedBooking 104 "A_C_100" s'
    = (inl (runtime_error "Booking is not in waitlisted state"), s').
Proof.
  intros s es s'. split; [vm_compute; reflexivity|].
  apply (cancellation_is_final s 102 "A_C_100" es 104). vm_compute. reflexivity.
Defined.

Lemma booking_lifecycle_witness :
  let s := CBS.run slot_taken_one_waiting CBS.empty in
  let es := [call_at 102 (CBS.CancelBooking "A_C_100");
             call_at 103 (CBS.ConfirmWaitlistedBooking "B_C_101")] in
  let b := Booking.Build "B_C_101" "B" "C" WAITLISTED (mkTimestamp 0) in
  CBS.bookings s !! "B_C_101" = Some b
  ∧ ∃ b', CBS.bookings (CBS.run es s) !! "B_C_101" = Some b'
          ∧ Booking.userId b' = "B" ∧ Booking.conferenceName b' = "C".
Proof.
  intros s es b. split; [vm_compute; reflexivity|].
  destruct (booking_lifecycle es s "B_C_101" b) as (b' & Hb' & _ & Hu & Hc & _);
    [vm_compute; reflexivity|].
  exists b'. split_and!; [exact Hb'|exact Hu|exact Hc].
Defined.

Lemma waitlisted_bookings_are_queued_witness :
  let s := CBS.run slot_taken_one_waiting CBS.empty in
  let b := Booking.Build "B_C_101" "B" "C" WAITLISTED (mkTimestamp 0) in
  CBS.bookings s !! "B_C_101" = Some b
  ∧ "B_C_101" ∈ CBS.waitlist_of s "C".
Proof.
  intros s b. split; [vm_compute; reflexivity|].
  apply (waitlisted_bookings_are_queued slot_taken_one_waiting "B_C_101" b);
    vm_compute; reflexivity.
Defined.

Lemma accounting_with_fresh_ids_witness :
  let s := CBS.run promoted CBS.empty in
  fresh_ids promoted CBS.empty
  ∧ ∀ nm c, CBS.conferences s !! nm = Some c →
      Z.of_nat (confirmed_count s nm)
      = Conference.totalSlots c - Conference.availableSlots c.
Proof.
  intros s. split; [vm_compute; repeat split|].
  apply (accounting_with_fresh_ids promoted). vm_compute. repeat split.
Defined.

Lemma bookConference_on_full_conference_witness :
  let s := CBS.run slot_taken_one_waiting CBS.empty in
  let c := Conference.Build "C" "NY" ["C++"] (mkTimestamp 10000) (mkTimestamp 20000) 1 0 in
  let r := CBS.bookConference 200 (mkTimestamp 0) "D" "C" s in
  (CBS.users s !! "D" = Some (User.Build "D" [] ∅)
   ∧ CBS.conferences s !! "C" = Some c)
  ∧ r.1 = inr "D_C_200"
  ∧ CBS.waitlist_of r.2 "C" = ["B_C_101"; "D_C_200"]
  ∧ CBS.conferences r.2 = CBS.conferences s.
Proof.
  intros s c r. split; [vm_compute; repeat split|].
  destruct (bookConference_on_full_conference slot_taken_one_waiting 200
              (mkTimestamp 0) "D" "C" (User.Build "D" [] ∅) c)
    as (Hret & Hc & Hq & _).
  - vm_compute. reflexivity.
  - vm_compute. reflexivity.
  - vm_compute. reflexivity.
  - apply findActiveBooking_None. vm_compute. reflexivity.
  - apply hasConflictingBooking_false. vm_compute. reflexivity.
  - vm_compute. reflexivity.
  - split_and!; [exact Hret| |exact Hc].
    etrans; [exact Hq | vm_compute; reflexivity].
Defined.

Lemma bookConference_with_free_slot_witness :
  let s := CBS.run slot_freed_one_waiting CBS.empty in
  let c := Conference.Build "C" "NY" ["C++"] (mkTimestamp 10000) (mkTimestamp 20000) 1 1 in
  let r := CBS.bookConference 200 (mkTimestamp 0) "D" "C" s in
  (CBS.users s !! "D" = Some (User.Build "D" [] ∅)
   ∧ CBS.conferences s !! "C" = Some c)
  ∧ r.1 = inr "D_C_200"
  ∧ CBS.conferences r.2
    = <["C" := Conference.set_availableSlots 0 c]> (CBS.conferences s)
  ∧ CBS.users r.2
    = <["D" := User.addBooking "D_C_200" CONFIRMED (User.Build "D" [] ∅)]> (CBS.users s).
Proof.
  intros s c r. split; [vm_compute; repeat split|].
  destruct (bookConference_with_free_slot slot_freed_one_waiting 200
              (mkTimestamp 0) "D" "C" (User.Build "D" [] ∅) c)
    as (Hret & Hc & Hu & _).
  - vm_compute. reflexivity.
  - vm_compute. reflexivity.
  - vm_compute. reflexivity.
  - apply findActiveBooking_None. vm_compute. reflexivity.
  - apply hasConflictingBooking_false. vm_compute. reflexivity.
  - vm_compute. reflexivity.
  - split_and!; [exact Hret|exact Hc|exact Hu].
Defined.

Lemma cancel_confirmed_booking_witness :
  let s := CBS.run slot_taken_one_waiting CBS.empty in
  let b := Booking.Build "A_C_100" "A" "C" CONFIRMED (mkTimestamp 0) in
  let c := Conference.Build "C" "NY" ["C++"] (mkTimestamp 10000) (mkTimestamp 20000) 1 0 in
  let r := CBS.cancelBooking 102 "A_C_100" s in
  (CBS.bookings s !! "A_C_100" = Some b ∧ CBS.conferences s !! "C" = Some c)
  ∧ r.1 = inr true
  ∧ CBS.waitlist_of r.2 "C" = ["B_C_101"]
  ∧ CBS.users r.2 = alter (User.removeBooking "A_C_100") "A" (CBS.users s).
Proof.
  intros s b c r. split; [vm_compute; repeat split|].
  destruct (cancel_confirmed_booking slot_taken_one_waiting 102 "A_C_100" b c)
    as (Hret & _ & Hq & _ & Hu); [vm_compute; reflexivity..|].
  split_and!; [exact Hret| |exact Hu].
  etrans; [apply Hq | vm_compute; reflexivity].
Defined.

Lemma cancel_waitlisted_booking_witness :
  let s := CBS.run slot_taken_one_waiting CBS.empty in
  let b := Booking.Build "B_C_101" "B" "C" WAITLISTED (mkTimestamp 0) in
  let c := Conference.Build "C" "NY" ["C++"] (mkTimestamp 10000) (mkTimestamp 20000) 1 0 in
  let r := CBS.cancelBooking 102 "B_C_101" s in
  (CBS.bookings s !! "B_C_101" = Some b ∧ CBS.conferences s !! "C" = Some c)
  ∧ r.1 = inr true
  ∧ CBS.waitlist_of r.2 "C" = []
  ∧ CBS.conferences r.2 = CBS.conferences s.
Proof.
  intros s b c r. split; [vm_compute; repeat split|].
  destruct (cancel_waitlisted_booking slot_taken_one_waiting 102 "B_C_101" b c)
    as (Hret & Hc & Hq & _); [vm_compute; reflexivity..|].
  split_and!; [exact Hret| |exact Hc].
  etrans; [exact Hq | vm_compute; reflexivity].
Defined.

Lemma confirm_in_time_witness :
  let s := CBS.run slot_freed_one_waiting CBS.empty in
  let b := Booking.Build "B_C_101" "B" "C" WAITLISTED (mkTimestamp 3702) in
  let c := Conference.Build "C" "NY" ["C++"] (mkTimestamp 10000) (mkTimestamp 20000) 1 1 in
  let r := CBS.confirmWaitlistedBooking 103 "B_C_101" s in
  (CBS.bookings s !! "B_C_101" = Some b ∧ CBS.conferences s !! "C" = Some c)
  ∧ r.1 = inr true
  ∧ CBS.bookings r.2 !! "B_C_101" = Some (Booking.setStatus CONFIRMED b)
  ∧ CBS.waitlist_of r.2 "C" = []
  ∧ CBS.users r.2 = CBS.users s.
Proof.
  intros s b c r. split; [vm_compute; repeat split|].
  destruct (confirm_in_time slot_freed_one_waiting 103 "B_C_101" b c)
    as (Hret & _ & Hu & Hq & _ & _ & _ & _ & Hfresh & _).
  - vm_compute. reflexivity.
  - vm_compute. reflexivity.
  - vm_compute. reflexivity.
  - vm_compute. reflexivity.
  - simpl. lia.
  - apply hasConflictingBooking_false. vm_compute. reflexivity.
  - vm_compute. reflexivity.
  - split_and!; [exact Hret| | |exact Hu].
    + apply Hfresh. vm_compute. repeat split.
    + etrans; [exact Hq | vm_compute; reflexivity].
Defined.
